(** * Gaming tracker: room registry and abuse control

    A shallow embedding of [index.js]: the room registry ([rooms]), the
    rate limiter ([rateLimitMap]), the block store ([blockedIPs]) and the
    replay guard ([usedNonces]), with the request handlers and periodic
    sweeps that act on them.

    Modelling conventions.
    - A JavaScript value is a [JsVal]: undefined, null, a boolean, a
      number or a string.  Numbers are integers ([Z]), exact below 2^53;
      fractions, NaN and the infinities are outside the model (where the
      code can produce NaN the model uses [option Z], [None] being NaN).
    - Arrays and objects are outside the model.  A JSON body can carry
      them in the fields the validation does not type-check ([createdAt],
      [nonce], the fields of the second player): the code compares such a
      nonce by identity, so that no later request ever repeats it, and a
      [createdAt] that is an object can make a comparator of a sort throw.
      The theorems below speak of requests whose fields are scalars.
    - Strings are ASCII (character codes below 128): [length],
      [toLowerCase] and the whitespace and character classes below agree
      with JavaScript on such text, and on it only.
    - A [Map] or [Set] keeps insertion order: it is an association list
      (a list) without repeated keys.
    - Every handler and sweep takes the clock reading [now] as an
      argument: one reading per invocation stands for the [Date.now()]
      calls of that invocation.  The log lines are not modelled; the times
      they print are taken to be in the range of [Date].
    - [new URL(s)] and the string-to-number coercion are parameters of the
      development ([isValidURL], [StringToNumber]), as are the settings the
      code reads from the environment. *)

From Stdlib Require Import ZArith List String Ascii Bool Lia Permutation Sorted DecimalString.
Import ListNotations.
Local Open Scope string_scope.
Local Open Scope list_scope.
Local Open Scope Z_scope.

Set Implicit Arguments.

(** ** JavaScript values *)

Inductive JsVal : Type :=
| JUndef
| JNull
| JBool (b : bool)
| JNum (n : Z)
| JStr (s : string).

(** [Boolean(v)]: the truthiness test of [if (v)], [v || w] and [v && w]. *)
Definition truthy (v : JsVal) : bool :=
  match v with
  | JUndef | JNull => false
  | JBool b => b
  | JNum n => negb (n =? 0)
  | JStr s => negb (s =? "")%string
  end.

(** [a || b] *)
Definition jsOr (a b : JsVal) : JsVal := if truthy a then a else b.

(** [v !== undefined] *)
Definition isDefined (v : JsVal) : bool :=
  match v with JUndef => false | _ => true end.

(** [v !== undefined && v !== null] *)
Definition notNullish (v : JsVal) : bool :=
  match v with JUndef | JNull => false | _ => true end.

(** [typeof v === 'string'] *)
Definition isString (v : JsVal) : bool :=
  match v with JStr _ => true | _ => false end.

(** [typeof v === 'boolean'] *)
Definition isBoolean (v : JsVal) : bool :=
  match v with JBool _ => true | _ => false end.

(** [a === b], which on the modelled values is also the SameValueZero
    comparison of [Set.has], [Map.get] and [Array.includes]. *)
Definition JsVal_eqb (a b : JsVal) : bool :=
  match a, b with
  | JUndef, JUndef => true
  | JNull, JNull => true
  | JBool x, JBool y => Bool.eqb x y
  | JNum x, JNum y => x =? y
  | JStr x, JStr y => (x =? y)%string
  | _, _ => false
  end.

(** Keys of a [Map]: a type with a boolean equality. *)
Class KeyEq (K : Type) : Type := { keq : K -> K -> bool }.

(** The boolean equality decides equality. *)
Class KeyEqLaws (K : Type) (E : KeyEq K) : Prop := {
  keq_eq : forall a b, keq a b = true <-> a = b
}.

#[global] Instance string_KeyEq : KeyEq string := {| keq := String.eqb |}.

#[global] Instance JsVal_KeyEq : KeyEq JsVal := {| keq := JsVal_eqb |}.

(** ** Insertion-ordered maps ([Map]) *)

Module JsMap.
Section Ops.
Context {K V : Type} `{KeyEq K}.

(** [m.get(k)] *)
Fixpoint get (k : K) (m : list (K * V)) : option V :=
  match m with
  | [] => None
  | (k', v) :: m' => if keq k k' then Some v else get k m'
  end.

(** [m.has(k)] *)
Definition has (k : K) (m : list (K * V)) : bool :=
  match get k m with Some _ => true | None => false end.

(** [m.set(k, v)]: an existing key keeps its position, a new key goes
    last. *)
Fixpoint set (k : K) (v : V) (m : list (K * V)) : list (K * V) :=
  match m with
  | [] => [(k, v)]
  | (k', v') :: m' =>
      if keq k k' then (k', v) :: m' else (k', v') :: set k v m'
  end.

(** [m.delete(k)] *)
Definition delete (k : K) (m : list (K * V)) : list (K * V) :=
  filter (fun e => negb (keq k (fst e))) m.

(** [m.size] *)
Definition size (m : list (K * V)) : Z := Z.of_nat (List.length m).

(** [Array.from(m.keys())] and [Array.from(m.values())] *)
Definition keys (m : list (K * V)) : list K := map fst m.
Definition values (m : list (K * V)) : list V := map snd m.
End Ops.
End JsMap.

(** ** [Array.prototype.sort] and [Array.prototype.slice] *)

Section Arrays.
Context {A : Type}.

(** Insertion of [x], which stood before every element of [l] in the
    array, into the sorted [l]: [x] goes before the first element it does
    not compare greater than, so equal elements keep their order. *)
Fixpoint insertSorted (cmp : A -> A -> Z) (x : A) (l : list A) : list A :=
  match l with
  | [] => [x]
  | y :: l' => if cmp x y <=? 0 then x :: l else y :: insertSorted cmp x l'
  end.

(** [l.sort(cmp)]: the sort is stable; for a comparator that is a
    consistent order this is the one result the language allows.  For
    another comparator (one whose result is NaN, read as 0, on some pairs)
    the language leaves the order to the implementation: the definition is
    then to be relied on only for an array that is in order for the
    comparator as it stands, no element comparing above the next one
    (nor, the comparators of this code being differences, the next one
    below it), which this definition, like the merge sort of V8, returns
    unchanged. *)
Definition jsSort (cmp : A -> A -> Z) (l : list A) : list A :=
  fold_right (insertSorted cmp) [] l.

(** The relative index of [slice]: negative counts from the end, and the
    result is clamped to the array. *)
Definition sliceIndex (i len : Z) : nat :=
  Z.to_nat (if i <? 0 then Z.max (len + i) 0 else Z.min i len).

(** [l.slice(s, e)] *)
Definition jsSlice (s e : Z) (l : list A) : list A :=
  let len := Z.of_nat (List.length l) in
  let from := sliceIndex s len in
  let to := sliceIndex e len in
  firstn (to - from)%nat (skipn from l).
End Arrays.

(** A comparator result that is NaN counts as [+0]. *)
Definition nanToZero (v : option Z) : Z :=
  match v with Some z => z | None => 0 end.

(** [Math.ceil(a / b)] for a positive divisor. *)
Definition ceilDiv (a b : Z) : Z := - ((- a) / b).

(** ** Strings *)

(** The ASCII members of the whitespace class that [trim] and [parseInt]
    skip: tab, line feed, vertical tab, form feed, carriage return, space. *)
Definition isWhitespace (c : ascii) : bool :=
  let n := nat_of_ascii c in
  ((9 <=? n)%nat && (n <=? 13)%nat) || (n =? 32)%nat.

(** [s.trim().length === 0] *)
Fixpoint trimIsEmpty (s : string) : bool :=
  match s with
  | EmptyString => true
  | String c s' => isWhitespace c && trimIsEmpty s'
  end.

Definition lowerChar (c : ascii) : ascii :=
  let n := nat_of_ascii c in
  if ((65 <=? n)%nat && (n <=? 90)%nat)%bool then ascii_of_nat (n + 32) else c.

(** [s.toLowerCase()] *)
Fixpoint toLowerCase (s : string) : string :=
  match s with
  | EmptyString => EmptyString
  | String c s' => String (lowerChar c) (toLowerCase s')
  end.

(** [s.startsWith(p)] *)
Definition startsWith (p s : string) : bool := String.prefix p s.

(** [s.includes(needle)] *)
Fixpoint includes (needle s : string) : bool :=
  String.prefix needle s ||
  match s with
  | EmptyString => false
  | String _ s' => includes needle s'
  end.

(** One character of the class [[a-zA-Z0-9_-]]. *)
Definition isRoomIdChar (c : ascii) : bool :=
  let n := nat_of_ascii c in
  ((97 <=? n)%nat && (n <=? 122)%nat) || ((65 <=? n)%nat && (n <=? 90)%nat) ||
  ((48 <=? n)%nat && (n <=? 57)%nat) || (n =? 95)%nat || (n =? 45)%nat.

Fixpoint allChars (p : ascii -> bool) (s : string) : bool :=
  match s with
  | EmptyString => true
  | String c s' => p c && allChars p s'
  end.

(** [/^[a-zA-Z0-9_-]+$/.test(s)] *)
Definition matchesRoomIdPattern (s : string) : bool :=
  negb (s =? "")%string && allChars isRoomIdChar s.

(** The global [replace] of [sanitizeSearch]: every less-than sign,
    greater-than sign, double quote (34) and single quote (39) is dropped. *)
Fixpoint stripDangerous (s : string) : string :=
  match s with
  | EmptyString => EmptyString
  | String c s' =>
      let n := nat_of_ascii c in
      if ((n =? 60) || (n =? 62) || (n =? 34) || (n =? 39))%nat
      then stripDangerous s'
      else String c (stripDangerous s')
  end.

(** ** Numbers out of strings *)

Fixpoint dropWhitespace (s : string) : string :=
  match s with
  | String c s' => if isWhitespace c then dropWhitespace s' else s
  | EmptyString => EmptyString
  end.

(** The value of [c] as a digit of the radix, if it is one. *)
Definition digitValue (radix : Z) (c : ascii) : option Z :=
  let n := Z.of_nat (nat_of_ascii c) in
  let v := if (48 <=? n) && (n <=? 57) then Some (n - 48)
           else if (97 <=? n) && (n <=? 122) then Some (n - 87)
           else if (65 <=? n) && (n <=? 90) then Some (n - 55)
           else None in
  match v with
  | Some d => if d <? radix then Some d else None
  | None => None
  end.

(** The longest prefix of digits, read in the radix; [acc] is [None] until
    a digit has been read. *)
Fixpoint parseDigits (radix : Z) (s : string) (acc : option Z) : option Z :=
  match s with
  | EmptyString => acc
  | String c s' =>
      match digitValue radix c with
      | Some d => parseDigits radix s' (Some (radix * nanToZero acc + d))
      | None => acc
      end
  end.

(** [parseInt(s)] of a string, no radix given: leading whitespace, a sign,
    a [0x] or [0X] prefix (radix 16), then digits; [None] is NaN.  The
    result is the integer the digits denote: it is the language's result
    below 2^53, beyond which the language rounds to a double. *)
Definition parseIntString (s : string) : option Z :=
  let s1 := dropWhitespace s in
  let '(sign, s2) :=
    match s1 with
    | String "-"%char r => (-1, r)
    | String "+"%char r => (1, r)
    | _ => (1, s1)
    end in
  let '(radix, s3) :=
    match s2 with
    | String "0"%char (String "x"%char r) => (16, r)
    | String "0"%char (String "X"%char r) => (16, r)
    | _ => (10, s2)
    end in
  option_map (Z.mul sign) (parseDigits radix s3 None).

(** The first digit of the decimal numeral of [n]. *)
Definition firstDigit (n : Z) : Z :=
  match Z.to_int (Z.abs n) with
  | Decimal.Pos (Decimal.D1 _) => 1
  | Decimal.Pos (Decimal.D2 _) => 2
  | Decimal.Pos (Decimal.D3 _) => 3
  | Decimal.Pos (Decimal.D4 _) => 4
  | Decimal.Pos (Decimal.D5 _) => 5
  | Decimal.Pos (Decimal.D6 _) => 6
  | Decimal.Pos (Decimal.D7 _) => 7
  | Decimal.Pos (Decimal.D8 _) => 8
  | Decimal.Pos (Decimal.D9 _) => 9
  | _ => 0
  end.

(** [parseInt(v)]: the argument is first turned into a string; the strings
    of undefined, null and the booleans hold no digit.  An integer below
    [10^21] in absolute value prints as its own decimal numeral.  From
    [10^21] on a number prints in exponent notation ([1e+21],
    [1.5e+21]), of which [parseInt] reads the sign and the one digit before
    the point or the [e]; the model takes that digit from the decimal
    numeral of [n]. *)
Definition parseInt (v : JsVal) : option Z :=
  match v with
  | JStr s => parseIntString s
  | JNum n => if Z.abs n <? 10 ^ 21 then Some n else Some (Z.sgn n * firstDigit n)
  | JUndef | JNull | JBool _ => None
  end.

(** ** Data model *)

(** The body of a POST /announce request ([req.body], [data]): an absent
    property reads as [JUndef]. *)
Module Data.
Record t : Type := mk {
  roomId : JsVal;
  gameType : JsVal;
  status : JsVal;
  appBaseUrl : JsVal;
  public : JsVal;
  player1Name : JsVal;
  player1WalletAddress : JsVal;
  player1WalletPuzzleHash : JsVal;
  player1PublicKey : JsVal;
  player1IdentityPublicKey : JsVal;
  player1IdentityAddress : JsVal;
  player1PeerId : JsVal;
  player2Name : JsVal;
  player2WalletAddress : JsVal;
  player2WalletPuzzleHash : JsVal;
  player2PublicKey : JsVal;
  player2IdentityPublicKey : JsVal;
  player2IdentityAddress : JsVal;
  player2PeerId : JsVal;
  stateChannelCoinId : JsVal;
  wagerAmount : JsVal;
  activeGameId : JsVal;
  createdAt : JsVal;
  timestamp : JsVal;
  nonce : JsVal
}.
End Data.

(** A room record, as the POST handler builds it. *)
Module Room.
Record t : Type := mk {
  roomId : JsVal;
  gameType : JsVal;
  status : JsVal;
  appBaseUrl : JsVal;
  public : JsVal;
  player1Name : JsVal;
  player1WalletAddress : JsVal;
  player1WalletPuzzleHash : JsVal;
  player1PublicKey : JsVal;
  player1IdentityPublicKey : JsVal;
  player1IdentityAddress : JsVal;
  player1PeerId : JsVal;
  player2Name : JsVal;
  player2WalletAddress : JsVal;
  player2WalletPuzzleHash : JsVal;
  player2PublicKey : JsVal;
  player2IdentityPublicKey : JsVal;
  player2IdentityAddress : JsVal;
  player2PeerId : JsVal;
  stateChannelCoinId : JsVal;
  wagerAmount : JsVal;
  activeGameId : JsVal;
  createdAt : JsVal;
  updatedAt : JsVal
}.
End Room.

(** The query string of GET /announce ([req.query]); the parameters are
    strings, an absent one reads as [JUndef]. *)
Module Query.
Record t : Type := mk {
  gameType : JsVal;
  status : JsVal;
  search : JsVal;
  minWager : JsVal;
  maxWager : JsVal;
  sort : JsVal;
  offset : JsVal;
  limit : JsVal;
  includePrivate : JsVal
}.
End Query.

(** A value of [rateLimitMap]. *)
Record RateLimitData : Type := {
  count : Z;
  announceCount : Z;
  resetTime : Z;
  violations : Z
}.

(** A value of [blockedIPs]. *)
Record BlockInfo : Type := {
  blockedUntil : Z;
  reason : string
}.

(** The mutable state of the module: the four global collections, and the
    pending [setTimeout] callbacks of the replay guard, each with the time
    it is due and the nonce it deletes. *)
Record State : Type := {
  rooms : list (JsVal * Room.t);
  rateLimitMap : list (string * RateLimitData);
  blockedIPs : list (string * BlockInfo);
  usedNonces : list JsVal;
  nonceTimers : list (Z * JsVal)
}.

Definition setRooms (r : list (JsVal * Room.t)) (st : State) : State :=
  {| rooms := r; rateLimitMap := rateLimitMap st; blockedIPs := blockedIPs st;
     usedNonces := usedNonces st; nonceTimers := nonceTimers st |}.

Definition setRateLimitMap (m : list (string * RateLimitData)) (st : State) : State :=
  {| rooms := rooms st; rateLimitMap := m; blockedIPs := blockedIPs st;
     usedNonces := usedNonces st; nonceTimers := nonceTimers st |}.

Definition setBlockedIPs (b : list (string * BlockInfo)) (st : State) : State :=
  {| rooms := rooms st; rateLimitMap := rateLimitMap st; blockedIPs := b;
     usedNonces := usedNonces st; nonceTimers := nonceTimers st |}.

Definition setNonces (n : list JsVal) (t : list (Z * JsVal)) (st : State) : State :=
  {| rooms := rooms st; rateLimitMap := rateLimitMap st; blockedIPs := blockedIPs st;
     usedNonces := n; nonceTimers := t |}.

(** The state of a freshly started process. *)
Definition initialState : State :=
  {| rooms := []; rateLimitMap := []; blockedIPs := []; usedNonces := [];
     nonceTimers := [] |}.

(** ** Configuration fixed in the source *)

Definition MAX_ROOMS : Z := 100.
Definition RATE_LIMIT_WINDOW : Z := 60 * 1000.
Definition MAX_RATE_LIMIT_ENTRIES : Z := 1000.
Definition NONCE_CLEANUP_INTERVAL : Z := 5 * 60 * 1000.
Definition MAX_NONCES : Z := 5000.
Definition MAX_ROOM_ID_LENGTH : nat := 100.
Definition MAX_NAME_LENGTH : nat := 50.

(** [BLOCKED_IPS] is created empty and nothing adds to it. *)
Definition BLOCKED_IPS : list string := [].

(** [Set] operations on [usedNonces]. *)
Definition setHas (v : JsVal) (s : list JsVal) : bool := existsb (JsVal_eqb v) s.
Definition setAdd (v : JsVal) (s : list JsVal) : list JsVal :=
  if setHas v s then s else s ++ [v].
Definition setDelete (v : JsVal) (s : list JsVal) : list JsVal :=
  filter (fun x => negb (JsVal_eqb v x)) s.

(** What a handler or the middleware sends back. *)
Inductive Response : Type :=
| Resp400 (errors : list string)
    (* status 400, 'failure reason' is errors.join('; ') *)
| Resp403 (reason : string)
    (* status 403, 'Access denied: ' followed by the reason *)
| Resp429 (announce : bool) (seconds : Z)
    (* status 429, 'Too many [announce ]requests. Try again in N seconds.' *)
| Resp500
    (* status 500, from the catch block of a handler *)
| RespRoom (room : Room.t)
    (* POST /announce: the stored room *)
| RespRooms (complete total offset limit : Z) (page : list Room.t)
    (* GET /announce *)
| RespStats (complete : Z) (byGameType byStatus : list (string * Z)).
    (* GET /scrape *)

(** ** The address of the client *)

(** What [getClientIP] reads of a request: [req.ip], the header
    [x-forwarded-for] and [req.connection.remoteAddress], each a string or
    undefined ([None]). *)
Module Request.
Record t : Type := mk {
  ip : option string;
  forwardedFor : option string;
  remoteAddress : option string
}.
End Request.

(** [s.split(',')[0]]: the characters before the first comma. *)
Fixpoint firstField (s : string) : string :=
  match s with
  | EmptyString => EmptyString
  | String c s' => if (c =? ",")%char then EmptyString else String c (firstField s')
  end.

(** [s.trimEnd()] and [s.trim()] *)
Fixpoint trimEnd (s : string) : string :=
  match s with
  | EmptyString => EmptyString
  | String c s' =>
      match trimEnd s' with
      | EmptyString => if isWhitespace c then EmptyString else String c EmptyString
      | t => String c t
      end
  end.

Definition trim (s : string) : string := trimEnd (dropWhitespace s).

(** [a || b] for [a] a string or undefined and [b] a string. *)
Definition orString (a : option string) (b : string) : string :=
  match a with
  | Some s => if (s =? "")%string then b else s
  | None => b
  end.

(** [getClientIP(req)] *)
Definition getClientIP (req : Request.t) : string :=
  orString (Request.ip req)
    (orString (option_map (fun h => trim (firstField h)) (Request.forwardedFor req))
       (orString (Request.remoteAddress req) "unknown")).

(** ** Instances of the parameters, for running the model on examples *)

(** A stand-in for the URL parser: an [http] or [https] scheme. *)
Definition exampleURLCheck (s : string) : bool :=
  startsWith "http://" s || startsWith "https://" s.

(** A stand-in for the string-to-number coercion: the empty string is [0],
    a decimal numeral is its value, anything else is NaN. *)
Definition exampleStringToNumber (s : string) : option Z :=
  if (s =? "")%string then Some 0
  else if allChars (fun c => match digitValue 10 c with Some _ => true | None => false end) s
       then parseDigits 10 s None
       else None.

Section Tracker.

(** Whether [new URL(s)] returns rather than throws. *)
Variable isValidURL : string -> bool.
(** The number a string converts to in arithmetic and comparisons;
    [None] is NaN. *)
Variable StringToNumber : string -> option Z.
(** Settings read from the environment, with a default in the source. *)
Variable PEER_TIMEOUT : Z.
Variable RATE_LIMIT_MAX_REQUESTS : Z.
Variable RATE_LIMIT_MAX_ANNOUNCES : Z.
Variable MAX_VIOLATIONS : Z.
Variable BLOCK_DURATION : Z.
Variable DISABLE_RATE_LIMIT : bool.

(** [Number(v)], as applied by [-], [>=] and [<=] to a non-number. *)
Definition toNumber (v : JsVal) : option Z :=
  match v with
  | JUndef => None
  | JNull => Some 0
  | JBool b => Some (if b then 1 else 0)
  | JNum n => Some n
  | JStr s => StringToNumber s
  end.

(** [a - b] *)
Definition jsSub (a b : JsVal) : option Z :=
  match toNumber a, toNumber b with
  | Some x, Some y => Some (x - y)
  | _, _ => None
  end.

(** *** Abuse block store *)

Definition isLocalhost (ip : string) : bool :=
  ((ip =? "127.0.0.1") || (ip =? "::1") || (ip =? "::ffff:127.0.0.1") ||
   (ip =? "localhost"))%string.

(** [isIPBlocked(ip)]: the reason when blocked, and the block table after
    the check. *)
Definition isIPBlocked (ip : string) (now : Z) (blocked : list (string * BlockInfo))
  : option string * list (string * BlockInfo) :=
  if existsb (String.eqb ip) BLOCKED_IPS then (Some "Permanently blocked", blocked)
  else
    match JsMap.get ip blocked with
    | Some blockInfo =>
        if now <? blockedUntil blockInfo then (Some (reason blockInfo), blocked)
        else (None, JsMap.delete ip blocked)
    | None => (None, blocked)
    end.

(** [blockIP(ip, reason, duration)] *)
Definition blockIP (ip reason : string) (duration now : Z)
    (blocked : list (string * BlockInfo)) : list (string * BlockInfo) :=
  if isLocalhost ip then blocked
  else JsMap.set ip {| blockedUntil := now + duration; reason := reason |} blocked.

(** *** Rate limiter *)

(** The hard limit on [rateLimitMap]: the entries beyond it are deleted,
    smallest [resetTime] first. *)
Definition enforceRateLimitCap (m : list (string * RateLimitData))
  : list (string * RateLimitData) :=
  if MAX_RATE_LIMIT_ENTRIES <? JsMap.size m then
    let entries := jsSort (fun a b => resetTime (snd a) - resetTime (snd b)) m in
    let toRemove := JsMap.size m - MAX_RATE_LIMIT_ENTRIES in
    fold_left (fun acc e => JsMap.delete (fst e) acc)
              (firstn (Z.to_nat toRemove) entries) m
  else m.

(** The counters are fields of the object that [rateLimitMap] holds for
    [ip]; once the hard limit has deleted that entry, a change to the
    object no longer reaches the map. *)
Definition writeBack (ip : string) (d : RateLimitData)
    (m : list (string * RateLimitData)) : list (string * RateLimitData) :=
  if JsMap.has ip m then JsMap.set ip d m else m.

(** [rateLimit(req, res, next)] for the client [ip]; [isPost] is
    [req.method === 'POST'].  [None] stands for the call of [next()]. *)
Definition rateLimit (ip : string) (isPost : bool) (now : Z) (st : State)
  : option Response * State :=
  if DISABLE_RATE_LIMIT then (None, st)
  else
    if isLocalhost ip then
      let '(blockStatus, blocked) := isIPBlocked ip now (blockedIPs st) in
      match blockStatus with
      | Some why => (Some (Resp403 why), setBlockedIPs blocked st)
      | None => (None, setBlockedIPs blocked st)
      end
    else
      let '(blockStatus, blocked) := isIPBlocked ip now (blockedIPs st) in
      match blockStatus with
      | Some why => (Some (Resp403 why), setBlockedIPs blocked st)
      | None =>
          let fresh := {| count := 0; announceCount := 0;
                          resetTime := now + RATE_LIMIT_WINDOW; violations := 0 |} in
          let '(rateLimitData, m1) :=
            match JsMap.get ip (rateLimitMap st) with
            | Some d =>
                if resetTime d <? now
                then (fresh, JsMap.set ip fresh (rateLimitMap st))
                else (d, rateLimitMap st)
            | None => (fresh, JsMap.set ip fresh (rateLimitMap st))
            end in
          let m2 := enforceRateLimitCap m1 in
          let retry := ceilDiv (resetTime rateLimitData - now) 1000 in
          if isPost then
            let d1 := {| count := count rateLimitData;
                         announceCount := announceCount rateLimitData + 1;
                         resetTime := resetTime rateLimitData;
                         violations := violations rateLimitData |} in
            if RATE_LIMIT_MAX_ANNOUNCES <? announceCount d1 then
              let d2 := {| count := count d1; announceCount := announceCount d1;
                           resetTime := resetTime d1;
                           violations := violations d1 + 1 |} in
              let blocked' :=
                if MAX_VIOLATIONS <=? violations d2
                then blockIP ip "Excessive announce attempts" BLOCK_DURATION now blocked
                else blocked in
              (Some (Resp429 true retry),
               setBlockedIPs blocked' (setRateLimitMap (writeBack ip d2 m2) st))
            else
              (None, setBlockedIPs blocked (setRateLimitMap (writeBack ip d1 m2) st))
          else
            let d1 := {| count := count rateLimitData + 1;
                         announceCount := announceCount rateLimitData;
                         resetTime := resetTime rateLimitData;
                         violations := violations rateLimitData |} in
            if RATE_LIMIT_MAX_REQUESTS <? count d1 then
              let d2 := {| count := count d1; announceCount := announceCount d1;
                           resetTime := resetTime d1;
                           violations := violations d1 + 1 |} in
              let blocked' :=
                if MAX_VIOLATIONS <=? violations d2
                then blockIP ip "Excessive requests" BLOCK_DURATION now blocked
                else blocked in
              (Some (Resp429 false retry),
               setBlockedIPs blocked' (setRateLimitMap (writeBack ip d2 m2) st))
            else
              (None, setBlockedIPs blocked (setRateLimitMap (writeBack ip d1 m2) st))
      end.

(** The callback of [rateLimitCleanupInterval]: an entry whose window is
    over loses one violation, or is deleted when it has none. *)
Definition rateLimitCleanupInterval (now : Z) (st : State) : State :=
  let step (e : string * RateLimitData) : list (string * RateLimitData) :=
    let '(ip, data) := e in
    if resetTime data <? now then
      if 0 <? violations data
      then [(ip, {| count := count data; announceCount := announceCount data;
                    resetTime := resetTime data;
                    violations := Z.max 0 (violations data - 1) |})]
      else []
    else [e] in
  setRateLimitMap (flat_map step (rateLimitMap st)) st.

(** The callback of [ipBlockCleanupInterval]. *)
Definition ipBlockCleanupInterval (now : Z) (st : State) : State :=
  let live := filter (fun e => negb (blockedUntil (snd e) <=? now)) (blockedIPs st) in
  let localhostIPs := ["127.0.0.1"; "::1"; "::ffff:127.0.0.1"; "localhost"] in
  setBlockedIPs (fold_left (fun acc ip => JsMap.delete ip acc) localhostIPs live) st.

(** *** Validation of an announcement, with the replay guard *)

Definition validGameTypes : list string :=
  ["rockpaperscissors"; "calpoker"; "battleship"; "tictactoe"].

Definition validStatuses : list JsVal :=
  [JStr "waiting"; JStr "active"; JStr "finished"; JStr "cancelled"].

(** [list.includes(v)] *)
Definition arrayIncludes (v : JsVal) (l : list JsVal) : bool :=
  existsb (JsVal_eqb v) l.

Definition validateRoomId (v : JsVal) : list string :=
  match v with
  | JStr s =>
      if negb (truthy v) then ["Missing or invalid roomId"]
      else if (MAX_ROOM_ID_LENGTH <? String.length s)%nat
      then ["roomId too long (max 100 characters)"]
      else if negb (matchesRoomIdPattern s)
      then ["roomId contains invalid characters (alphanumeric, dash, underscore only)"]
      else []
  | _ => ["Missing or invalid roomId"]
  end.

Definition validateGameType (v : JsVal) : list string :=
  match v with
  | JUndef | JNull => []
  | JStr s =>
      if negb (existsb (String.eqb (toLowerCase s)) validGameTypes)
      then ["Invalid gameType. Must be one of: rockpaperscissors, calpoker, battleship, tictactoe or null"]
      else []
  | _ => ["Invalid gameType (must be string or null)"]
  end.

Definition validatePlayer1Name (v : JsVal) : list string :=
  match v with
  | JStr s =>
      if negb (truthy v) then ["Missing or invalid player1Name"]
      else if (MAX_NAME_LENGTH <? String.length s)%nat
      then ["player1Name too long (max 50 characters)"]
      else if trimIsEmpty s then ["player1Name cannot be empty"]
      else []
  | _ => ["Missing or invalid player1Name"]
  end.

Definition validatePlayer1WalletAddress (v : JsVal) : list string :=
  match v with
  | JStr s =>
      if negb (truthy v) then ["Missing or invalid player1WalletAddress"]
      else if negb (startsWith "xch1" s) && negb (startsWith "txch1" s)
      then ["Invalid wallet address format (must start with xch1 or txch1)"]
      else if (100 <? String.length s)%nat then ["Wallet address too long"]
      else []
  | _ => ["Missing or invalid player1WalletAddress"]
  end.

Definition validatePlayer1WalletPuzzleHash (v : JsVal) : list string :=
  match v with
  | JUndef | JNull => []
  | JStr s =>
      if (100 <? String.length s)%nat then ["player1WalletPuzzleHash too long"] else []
  | _ => ["Invalid player1WalletPuzzleHash (must be string or null)"]
  end.

(** The shape shared by the optional fields: when neither undefined nor
    null, a string of at most [maxLen] characters, or else [msg]. *)
Definition validateOptionalString (maxLen : nat) (msg : string) (v : JsVal)
  : list string :=
  match v with
  | JUndef | JNull => []
  | JStr s => if (maxLen <? String.length s)%nat then [msg] else []
  | _ => [msg]
  end.

Definition validatePlayer1PeerId (v : JsVal) : list string :=
  match v with
  | JStr s =>
      if negb (truthy v) then ["Missing or invalid player1PeerId"]
      else if (200 <? String.length s)%nat
      then ["player1PeerId too long (max 200 characters)"]
      else []
  | _ => ["Missing or invalid player1PeerId"]
  end.

Definition validateAppBaseUrl (v : JsVal) : list string :=
  match v with
  | JStr s =>
      if negb (truthy v) then ["Missing or invalid appBaseUrl"]
      else if isValidURL s then [] else ["appBaseUrl must be a valid URL"]
  | _ => ["Missing or invalid appBaseUrl"]
  end.

Definition validatePlayer2WalletAddress (v : JsVal) : list string :=
  match v with
  | JUndef | JNull => []
  | JStr s =>
      if negb (startsWith "xch1" s) && negb (startsWith "txch1" s)
      then ["Invalid player2WalletAddress format (must start with xch1 or txch1)"]
      else []
  | _ => ["Invalid player2WalletAddress (must be string or null)"]
  end.

Definition validateWagerAmount (v : JsVal) : list string :=
  if isDefined v then
    match parseInt v with
    | None => ["Invalid wagerAmount (must be non-negative integer)"]
    | Some wager =>
        if wager <? 0 then ["Invalid wagerAmount (must be non-negative integer)"]
        else if 1000000000000 <? wager then ["wagerAmount too large"]
        else []
    end
  else [].

Definition validateStatus (v : JsVal) : list string :=
  if truthy v && negb (arrayIncludes v validStatuses)
  then ["Invalid status. Must be one of: waiting, active, finished, cancelled"]
  else [].

Definition validatePublic (v : JsVal) : list string :=
  if isDefined v && negb (isBoolean v)
  then ["Invalid public flag (must be boolean)"]
  else [].

(** A NaN difference is not greater than the tolerance. *)
Definition validateTimestamp (now : Z) (v : JsVal) : list string :=
  if truthy v then
    match jsSub (JNum now) v with
    | Some diff =>
        if 30000 <? Z.abs diff
        then ["Request timestamp too far from server time"]
        else []
    | None => []
    end
  else [].

(** The nonce block of [validateAnnouncement]: the only part of the
    validation that writes.  The [setTimeout] is registered for every
    truthy nonce, a duplicate included. *)
Definition checkNonce (nonce : JsVal) (now : Z) (st : State) : list string * State :=
  if truthy nonce then
    let timers := nonceTimers st ++ [(now + NONCE_CLEANUP_INTERVAL, nonce)] in
    if setHas nonce (usedNonces st) then
      (["Duplicate nonce (replay attack detected)"], setNonces (usedNonces st) timers st)
    else if MAX_NONCES <=? Z.of_nat (List.length (usedNonces st)) then
      let oldestNonce := hd JUndef (usedNonces st) in
      ([], setNonces (setAdd nonce (setDelete oldestNonce (usedNonces st))) timers st)
    else
      ([], setNonces (setAdd nonce (usedNonces st)) timers st)
  else ([], st).

(** The checks of [validateAnnouncement] that come before the nonce block,
    in the order the source makes them; they read [data] and the clock
    only. *)
Definition validateFields (data : Data.t) (now : Z) : list string :=
    validateRoomId (Data.roomId data) ++
    validateGameType (Data.gameType data) ++
    validatePlayer1Name (Data.player1Name data) ++
    validatePlayer1WalletAddress (Data.player1WalletAddress data) ++
    validatePlayer1WalletPuzzleHash (Data.player1WalletPuzzleHash data) ++
    validateOptionalString 200 "Invalid player1PublicKey (must be string, max 200 chars)"
      (Data.player1PublicKey data) ++
    validateOptionalString 200 "Invalid player1IdentityPublicKey (must be string, max 200 chars)"
      (Data.player1IdentityPublicKey data) ++
    validateOptionalString 100 "Invalid player1IdentityAddress (must be string, max 100 chars)"
      (Data.player1IdentityAddress data) ++
    validatePlayer1PeerId (Data.player1PeerId data) ++
    validateAppBaseUrl (Data.appBaseUrl data) ++
    validateOptionalString MAX_NAME_LENGTH
      "Invalid player2Name (must be string, max 50 chars, or null)"
      (Data.player2Name data) ++
    validatePlayer2WalletAddress (Data.player2WalletAddress data) ++
    validateOptionalString 100 "Invalid stateChannelCoinId (must be string, max 100 chars, or null)"
      (Data.stateChannelCoinId data) ++
    validateOptionalString 200 "Invalid activeGameId (must be string, max 200 chars, or null)"
      (Data.activeGameId data) ++
    validateWagerAmount (Data.wagerAmount data) ++
    validateStatus (Data.status data) ++
    validatePublic (Data.public data) ++
    validateTimestamp now (Data.timestamp data).

(** [validateAnnouncement(data)]: the errors, in the order the source
    pushes them, and the state after the nonce block. *)
Definition validateAnnouncement (data : Data.t) (now : Z) (st : State)
  : list string * State :=
  let fieldErrors := validateFields data now in
  let '(nonceErrors, st') := checkNonce (Data.nonce data) now st in
  (fieldErrors ++ nonceErrors, st').

(** The [setTimeout] callbacks that are due at [now] run: each deletes
    its nonce. *)
Definition runNonceTimers (now : Z) (st : State) : State :=
  let due := filter (fun t => fst t <=? now) (nonceTimers st) in
  let pending := filter (fun t => negb (fst t <=? now)) (nonceTimers st) in
  setNonces (fold_left (fun s t => setDelete (snd t) s) due (usedNonces st)) pending st.

(** *** Room registry: expiry and capacity *)

(** [room.updatedAt || room.createdAt] *)
Definition lastActivity (room : Room.t) : JsVal :=
  jsOr (Room.updatedAt room) (Room.createdAt room).

(** The test of the three sweeps:
    [lastActivity && (now - lastActivity > PEER_TIMEOUT * 1000)]. *)
Definition isExpired (now : Z) (room : Room.t) : bool :=
  truthy (lastActivity room) &&
  match jsSub (JNum now) (lastActivity room) with
  | Some age => PEER_TIMEOUT * 1000 <? age
  | None => false
  end.

(** The loop [for (const [roomId, room] of rooms.entries())] that deletes
    the expired rooms. *)
Definition sweepExpired (now : Z) (rs : list (JsVal * Room.t)) : list (JsVal * Room.t) :=
  filter (fun e => negb (isExpired now (snd e))) rs.

(** The comparator [(a, b) => a[1].createdAt - b[1].createdAt]. *)
Definition byCreatedAt (a b : JsVal * Room.t) : Z :=
  nanToZero (jsSub (Room.createdAt (snd a)) (Room.createdAt (snd b))).

(** The block [// Enforce room limit] of POST /announce. *)
Definition enforceRoomLimit (rs : list (JsVal * Room.t)) : list (JsVal * Room.t) :=
  if MAX_ROOMS <=? JsMap.size rs then
    match jsSort byCreatedAt rs with
    | oldest :: _ => JsMap.delete (fst oldest) rs
    | [] => rs
    end
  else rs.

(** The callback of [roomCleanupInterval]: the sweep, then the hard
    limit. *)
Definition roomCleanupInterval (now : Z) (st : State) : State :=
  let rs := sweepExpired now (rooms st) in
  let roomCount := JsMap.size rs in
  if MAX_ROOMS <? roomCount then
    let toRemove := roomCount - MAX_ROOMS in
    let sortedRooms := jsSort byCreatedAt rs in
    setRooms (fold_left (fun acc e => JsMap.delete (fst e) acc)
                        (firstn (Z.to_nat toRemove) sortedRooms) rs) st
  else setRooms rs st.

(** *** POST /announce *)

(** [d !== undefined ? d : r] *)
Definition ifDefined (d r : JsVal) : JsVal := if isDefined d then d else r.

(** The branch [if (room)]: the fields of the stored room after the
    assignments.  [if (d) room.f = d] leaves in [room.f] what [d || room.f]
    evaluates to. *)
Definition updateRoom (room : Room.t) (data : Data.t) (now : Z) : Room.t :=
  {| Room.roomId := Room.roomId room;
     Room.gameType := ifDefined (Data.gameType data) (Room.gameType room);
     Room.status := jsOr (Data.status data) (Room.status room);
     Room.appBaseUrl := jsOr (Data.appBaseUrl data) (Room.appBaseUrl room);
     Room.public := ifDefined (Data.public data) (Room.public room);
     Room.player1Name := jsOr (Data.player1Name data) (Room.player1Name room);
     Room.player1WalletAddress :=
       jsOr (Data.player1WalletAddress data) (Room.player1WalletAddress room);
     Room.player1WalletPuzzleHash :=
       jsOr (Data.player1WalletPuzzleHash data) (Room.player1WalletPuzzleHash room);
     Room.player1PublicKey :=
       jsOr (Data.player1PublicKey data) (Room.player1PublicKey room);
     Room.player1IdentityPublicKey :=
       jsOr (Data.player1IdentityPublicKey data) (Room.player1IdentityPublicKey room);
     Room.player1IdentityAddress :=
       jsOr (Data.player1IdentityAddress data) (Room.player1IdentityAddress room);
     Room.player1PeerId := jsOr (Data.player1PeerId data) (Room.player1PeerId room);
     Room.player2Name := ifDefined (Data.player2Name data) (Room.player2Name room);
     Room.player2WalletAddress :=
       ifDefined (Data.player2WalletAddress data) (Room.player2WalletAddress room);
     Room.player2WalletPuzzleHash :=
       ifDefined (Data.player2WalletPuzzleHash data) (Room.player2WalletPuzzleHash room);
     Room.player2PublicKey :=
       ifDefined (Data.player2PublicKey data) (Room.player2PublicKey room);
     Room.player2IdentityPublicKey :=
       ifDefined (Data.player2IdentityPublicKey data) (Room.player2IdentityPublicKey room);
     Room.player2IdentityAddress :=
       ifDefined (Data.player2IdentityAddress data) (Room.player2IdentityAddress room);
     Room.player2PeerId := ifDefined (Data.player2PeerId data) (Room.player2PeerId room);
     Room.stateChannelCoinId :=
       ifDefined (Data.stateChannelCoinId data) (Room.stateChannelCoinId room);
     Room.wagerAmount := ifDefined (Data.wagerAmount data) (Room.wagerAmount room);
     Room.activeGameId := ifDefined (Data.activeGameId data) (Room.activeGameId room);
     Room.createdAt := Room.createdAt room;
     Room.updatedAt := JNum now |}.

(** The branch [else]: the object literal of a new room. *)
Definition newRoom (data : Data.t) (now : Z) : Room.t :=
  {| Room.roomId := Data.roomId data;
     Room.gameType := jsOr (Data.gameType data) JNull;
     Room.status := jsOr (Data.status data) (JStr "waiting");
     Room.appBaseUrl := Data.appBaseUrl data;
     Room.public := ifDefined (Data.public data) (JBool true);
     Room.player1Name := Data.player1Name data;
     Room.player1WalletAddress := Data.player1WalletAddress data;
     Room.player1WalletPuzzleHash := jsOr (Data.player1WalletPuzzleHash data) JNull;
     Room.player1PublicKey := jsOr (Data.player1PublicKey data) JNull;
     Room.player1IdentityPublicKey := jsOr (Data.player1IdentityPublicKey data) JNull;
     Room.player1IdentityAddress := jsOr (Data.player1IdentityAddress data) JNull;
     Room.player1PeerId := Data.player1PeerId data;
     Room.player2Name := jsOr (Data.player2Name data) JNull;
     Room.player2WalletAddress := jsOr (Data.player2WalletAddress data) JNull;
     Room.player2WalletPuzzleHash := jsOr (Data.player2WalletPuzzleHash data) JNull;
     Room.player2PublicKey := jsOr (Data.player2PublicKey data) JNull;
     Room.player2IdentityPublicKey := jsOr (Data.player2IdentityPublicKey data) JNull;
     Room.player2IdentityAddress := jsOr (Data.player2IdentityAddress data) JNull;
     Room.player2PeerId := jsOr (Data.player2PeerId data) JNull;
     Room.stateChannelCoinId := jsOr (Data.stateChannelCoinId data) JNull;
     Room.wagerAmount := jsOr (Data.wagerAmount data) (JNum 0);
     Room.activeGameId := jsOr (Data.activeGameId data) JNull;
     Room.createdAt := jsOr (Data.createdAt data) (JNum now);
     Room.updatedAt := JNum now |}.

(** The handler of POST /announce, after the middleware. *)
Definition post_announce (data : Data.t) (now : Z) (st : State) : Response * State :=
  let '(errors, st1) := validateAnnouncement data now st in
  match errors with
  | _ :: _ => (Resp400 errors, st1)
  | [] =>
      let rs := enforceRoomLimit (rooms st1) in
      match JsMap.get (Data.roomId data) rs with
      | Some room =>
          let room' := updateRoom room data now in
          (RespRoom room', setRooms (JsMap.set (Data.roomId data) room' rs) st1)
      | None =>
          let room := newRoom data now in
          (RespRoom room, setRooms (JsMap.set (Data.roomId data) room rs) st1)
      end
  end.

(** *** GET /announce *)

Definition validateQueryParams (q : Query.t) : list string :=
  (if isDefined (Query.offset q) then
     match parseInt (Query.offset q) with
     | Some offset =>
         if offset <? 0 then ["Invalid offset (must be non-negative integer)"] else []
     | None => ["Invalid offset (must be non-negative integer)"]
     end
   else []) ++
  (if isDefined (Query.limit q) then
     match parseInt (Query.limit q) with
     | Some limit =>
         if (limit <? 1) || (200 <? limit)
         then ["Invalid limit (must be between 1 and 200)"] else []
     | None => ["Invalid limit (must be between 1 and 200)"]
     end
   else []) ++
  (if isDefined (Query.minWager q) then
     match parseInt (Query.minWager q) with
     | Some minWager =>
         if minWager <? 0 then ["Invalid minWager (must be non-negative integer)"] else []
     | None => ["Invalid minWager (must be non-negative integer)"]
     end
   else []) ++
  (if isDefined (Query.maxWager q) then
     match parseInt (Query.maxWager q) with
     | Some maxWager =>
         if maxWager <? 0 then ["Invalid maxWager (must be non-negative integer)"] else []
     | None => ["Invalid maxWager (must be non-negative integer)"]
     end
   else []) ++
  (if isDefined (Query.includePrivate q) then
     if negb (arrayIncludes (Query.includePrivate q)
                [JStr "true"; JStr "false"; JStr "1"; JStr "0"])
     then ["Invalid includePrivate (must be true/false, 1/0)"] else []
   else []).

(** [sanitizeSearch(query)] *)
Definition sanitizeSearch (query : JsVal) : string :=
  match query with
  | JStr s => stripDangerous (substring 0 100 s)
  | _ => ""
  end.

(** [parseInt(v) || dflt] on numbers: NaN and [0] give the default. *)
Definition parseIntOr (v : JsVal) (dflt : Z) : Z :=
  match parseInt v with
  | Some n => if n =? 0 then dflt else n
  | None => dflt
  end.

(** [v && v.toLowerCase().includes(searchLower)]: [None] when the method
    call throws a TypeError, which it does on a truthy non-string. *)
Definition lowerIncludes (searchLower : string) (v : JsVal) : option bool :=
  if truthy v then
    match v with
    | JStr s => Some (includes searchLower (toLowerCase s))
    | _ => None
    end
  else Some false.

(** The callback of the search filter.  A room has no [player1] or
    [player2] property, so the last two disjuncts of the source are
    undefined and add nothing. *)
Definition searchMatches (searchLower : string) (r : Room.t) : option bool :=
  match lowerIncludes searchLower (Room.roomId r) with
  | Some false =>
      match lowerIncludes searchLower (Room.player1Name r) with
      | Some false => lowerIncludes searchLower (Room.player2Name r)
      | other => other
      end
  | other => other
  end.

(** [l.filter(f)] with a callback that may throw. *)
Fixpoint filterThrowing {A : Type} (f : A -> option bool) (l : list A)
  : option (list A) :=
  match l with
  | [] => Some []
  | x :: l' =>
      match f x with
      | None => None
      | Some keep =>
          match filterThrowing f l' with
          | None => None
          | Some rest => Some (if keep then x :: rest else rest)
          end
      end
  end.

(** [wager >= minWager && wager <= maxWager], [None] as the upper bound
    being [Infinity]; a NaN wager fails both comparisons. *)
Definition wagerInRange (minWager : Z) (maxWager : option Z) (r : Room.t) : bool :=
  match toNumber (jsOr (Room.wagerAmount r) (JNum 0)) with
  | Some wager =>
      (minWager <=? wager) &&
      match maxWager with Some hi => wager <=? hi | None => true end
  | None => false
  end.

(** The comparators of the [switch (sort)]. *)
Definition wagerOf (r : Room.t) : JsVal := jsOr (Room.wagerAmount r) (JNum 0).

Definition sortRooms (sort : JsVal) (l : list Room.t) : list Room.t :=
  if JsVal_eqb sort (JStr "oldest") then
    jsSort (fun a b => nanToZero (jsSub (Room.createdAt a) (Room.createdAt b))) l
  else if JsVal_eqb sort (JStr "wager_high") then
    jsSort (fun a b => nanToZero (jsSub (wagerOf b) (wagerOf a))) l
  else if JsVal_eqb sort (JStr "wager_low") then
    jsSort (fun a b => nanToZero (jsSub (wagerOf a) (wagerOf b))) l
  else
    jsSort (fun a b => nanToZero (jsSub (Room.createdAt b) (Room.createdAt a))) l.

(** The four filters that cannot throw, in the order of the source:
    visibility, game type, status, wager range. *)
Definition filterVisible (includePrivate : bool) (l : list Room.t) : list Room.t :=
  if negb includePrivate
  then filter (fun r => negb (JsVal_eqb (Room.public r) (JBool false))) l
  else l.

Definition filterGameType (gameType : JsVal) (l : list Room.t) : list Room.t :=
  if truthy gameType && negb (JsVal_eqb gameType (JStr "all"))
  then filter (fun r => JsVal_eqb (Room.gameType r) gameType) l
  else l.

Definition filterStatus (status : JsVal) (l : list Room.t) : list Room.t :=
  if truthy status && negb (JsVal_eqb status (JStr "all"))
  then filter (fun r => JsVal_eqb (Room.status r) status) l
  else l.

Definition filterWager (minWager : Z) (maxWager : option Z) (l : list Room.t)
  : list Room.t :=
  filter (wagerInRange minWager maxWager) l.

(** The search filter, applied when the sanitized search is not empty. *)
Definition filterSearch (search : string) (l : list Room.t) : option (list Room.t) :=
  if negb (search =? "")%string
  then filterThrowing (searchMatches (toLowerCase search)) l
  else Some l.

(** The filters and the sort of GET /announce over the swept registry:
    the list the handler paginates, or [None] when the search filter
    throws. *)
Definition filteredSorted (q : Query.t) (rs : list (JsVal * Room.t))
  : option (list Room.t) :=
  let gameType := jsOr (Query.gameType q) (JStr "all") in
  let status := jsOr (Query.status q) (JStr "all") in
  let search := sanitizeSearch (Query.search q) in
  let minWager := parseIntOr (Query.minWager q) 0 in
  let maxWager :=
    match parseInt (Query.maxWager q) with
    | Some n => if n =? 0 then None else Some n
    | None => None
    end in
  let sort := jsOr (Query.sort q) (JStr "newest") in
  let includePrivate :=
    JsVal_eqb (Query.includePrivate q) (JStr "true") ||
    JsVal_eqb (Query.includePrivate q) (JStr "1") in
  let roomList :=
    filterWager minWager maxWager
      (filterStatus status
         (filterGameType gameType
            (filterVisible includePrivate (JsMap.values rs)))) in
  option_map (sortRooms sort) (filterSearch search roomList).

(** [Math.max(0, parseInt(req.query.offset) || 0)] *)
Definition effectiveOffset (q : Query.t) : Z :=
  Z.max 0 (parseIntOr (Query.offset q) 0).

(** [Math.min(Math.max(1, parseInt(req.query.limit) || 50), 200)] *)
Definition effectiveLimit (q : Query.t) : Z :=
  Z.min (Z.max 1 (parseIntOr (Query.limit q) 50)) 200.

(** The handler of GET /announce, after the middleware. *)
Definition get_announce (q : Query.t) (now : Z) (st : State) : Response * State :=
  match validateQueryParams q with
  | _ :: _ => (Resp400 (validateQueryParams q), st)
  | [] =>
      let st1 := setRooms (sweepExpired now (rooms st)) st in
      let offset := effectiveOffset q in
      let limit := effectiveLimit q in
      match filteredSorted q (rooms st1) with
      | None => (Resp500, st1)
      | Some roomList =>
          let total := Z.of_nat (List.length roomList) in
          let paginatedRooms := jsSlice offset (offset + limit) roomList in
          (RespRooms (Z.of_nat (List.length paginatedRooms)) total offset limit
                     paginatedRooms, st1)
      end
  end.

(** *** GET /scrape *)

(** The string a truthy value names a property by. *)
Definition propertyKey (v : JsVal) : string :=
  match v with
  | JStr s => s
  | JNum n => NilZero.string_of_int (Z.to_int n)
  | JBool true => "true"
  | JBool false => "false"
  | JNull => "null"
  | JUndef => "undefined"
  end.

(** [obj[key] = (obj[key] || 0) + 1] *)
Definition increment (key : string) (obj : list (string * Z)) : list (string * Z) :=
  let old := match JsMap.get key obj with
             | Some n => if n =? 0 then 0 else n
             | None => 0
             end in
  JsMap.set key (old + 1) obj.

Definition countBy (f : Room.t -> JsVal) (l : list Room.t) : list (string * Z) :=
  fold_left (fun obj room => increment (propertyKey (jsOr (f room) (JStr "unknown"))) obj)
            l [].

(** The statistics over the rooms left by the sweep. *)
Definition statsOf (activeRooms : list Room.t) : Response :=
  RespStats (Z.of_nat (List.length activeRooms))
            (countBy Room.gameType activeRooms)
            (countBy Room.status activeRooms).

(** The handler of GET /scrape, after the middleware. *)
Definition get_scrape (now : Z) (st : State) : Response * State :=
  let st1 := setRooms (sweepExpired now (rooms st)) st in
  (statsOf (JsMap.values (rooms st1)), st1).

(** *** The routes: middleware, then handler *)

Definition route_post_announce (ip : string) (data : Data.t) (now : Z) (st : State)
  : Response * State :=
  match rateLimit ip true now st with
  | (Some r, st') => (r, st')
  | (None, st') => post_announce data now st'
  end.

Definition route_get_announce (ip : string) (q : Query.t) (now : Z) (st : State)
  : Response * State :=
  match rateLimit ip false now st with
  | (Some r, st') => (r, st')
  | (None, st') => get_announce q now st'
  end.

Definition route_get_scrape (ip : string) (now : Z) (st : State) : Response * State :=
  match rateLimit ip false now st with
  | (Some r, st') => (r, st')
  | (None, st') => get_scrape now st'
  end.

(** *** Sequences of requests *)

(** The threshold a request is counted against. *)
Definition thresholdOf (isPost : bool) : Z :=
  if isPost then RATE_LIMIT_MAX_ANNOUNCES else RATE_LIMIT_MAX_REQUESTS.

(** The counter a request increments. *)
Definition counterOf (isPost : bool) (d : RateLimitData) : Z :=
  if isPost then announceCount d else count d.

(** The middleware run on the requests of one client and one kind, made
    at the given times: what it answers to each, and the final state. *)
Fixpoint requests (ip : string) (isPost : bool) (times : list Z) (st : State)
  : list (option Response) * State :=
  match times with
  | [] => ([], st)
  | t :: ts =>
      let '(r, st1) := rateLimit ip isPost t st in
      let '(rs, st2) := requests ip isPost ts st1 in
      (r :: rs, st2)
  end.

(** The entry a request finds or makes: the stored one while its window
    lasts, a new one otherwise. *)
Definition freshData (now : Z) : RateLimitData :=
  {| count := 0; announceCount := 0; resetTime := now + RATE_LIMIT_WINDOW;
     violations := 0 |}.

Definition currentData (ip : string) (now : Z) (st : State) : RateLimitData :=
  match JsMap.get ip (rateLimitMap st) with
  | Some d => if resetTime d <? now then freshData now else d
  | None => freshData now
  end.

(** The entry after the increment of the counter of the request's kind,
    and after the increment of [violations]. *)
Definition bump (isPost : bool) (d : RateLimitData) : RateLimitData :=
  if isPost
  then {| count := count d; announceCount := announceCount d + 1;
          resetTime := resetTime d; violations := violations d |}
  else {| count := count d + 1; announceCount := announceCount d;
          resetTime := resetTime d; violations := violations d |}.

Definition violate (d : RateLimitData) : RateLimitData :=
  {| count := count d; announceCount := announceCount d;
     resetTime := resetTime d; violations := violations d + 1 |}.





Definition blockReason (isPost : bool) : string :=
  if isPost then "Excessive announce attempts" else "Excessive requests".

(** *** Histories *)

(** What can happen to the state: a request through one of the three
    routes, or a timer callback. *)
Inductive Op : Type :=
| OpPostAnnounce (ip : string) (data : Data.t) (now : Z)
| OpGetAnnounce (ip : string) (q : Query.t) (now : Z)
| OpGetScrape (ip : string) (now : Z)
| OpRoomCleanup (now : Z)
| OpRateLimitCleanup (now : Z)
| OpIpBlockCleanup (now : Z)
| OpNonceTimers (now : Z).

Definition applyOp (op : Op) (st : State) : State :=
  match op with
  | OpPostAnnounce ip data now => snd (route_post_announce ip data now st)
  | OpGetAnnounce ip q now => snd (route_get_announce ip q now st)
  | OpGetScrape ip now => snd (route_get_scrape ip now st)
  | OpRoomCleanup now => roomCleanupInterval now st
  | OpRateLimitCleanup now => rateLimitCleanupInterval now st
  | OpIpBlockCleanup now => ipBlockCleanupInterval now st
  | OpNonceTimers now => runNonceTimers now st
  end.

(** The state after a history, oldest event first. *)
Definition runOps (ops : list Op) (st : State) : State :=
  fold_left (fun s op => applyOp op s) ops st.

(** *** Vocabulary of the statements *)

(** The fields that the update branch assigns with
    [data.f !== undefined ? data.f : room.f]. *)
Definition fieldsSetWhenDefined : list ((Data.t -> JsVal) * (Room.t -> JsVal)) :=
  [ (Data.gameType, Room.gameType);
    (Data.public, Room.public);
    (Data.player2Name, Room.player2Name);
    (Data.player2WalletAddress, Room.player2WalletAddress);
    (Data.player2WalletPuzzleHash, Room.player2WalletPuzzleHash);
    (Data.player2PublicKey, Room.player2PublicKey);
    (Data.player2IdentityPublicKey, Room.player2IdentityPublicKey);
    (Data.player2IdentityAddress, Room.player2IdentityAddress);
    (Data.player2PeerId, Room.player2PeerId);
    (Data.stateChannelCoinId, Room.stateChannelCoinId);
    (Data.wagerAmount, Room.wagerAmount);
    (Data.activeGameId, Room.activeGameId) ].

(** The fields that the update branch assigns only from a truthy value
    ([data.f || room.f], [if (data.f) room.f = data.f]). *)
Definition fieldsSetWhenTruthy : list ((Data.t -> JsVal) * (Room.t -> JsVal)) :=
  [ (Data.status, Room.status);
    (Data.appBaseUrl, Room.appBaseUrl);
    (Data.player1Name, Room.player1Name);
    (Data.player1WalletAddress, Room.player1WalletAddress);
    (Data.player1WalletPuzzleHash, Room.player1WalletPuzzleHash);
    (Data.player1PublicKey, Room.player1PublicKey);
    (Data.player1IdentityPublicKey, Room.player1IdentityPublicKey);
    (Data.player1IdentityAddress, Room.player1IdentityAddress);
    (Data.player1PeerId, Room.player1PeerId) ].

(** The [createdAt] of a room when it is a number. *)
Definition createdAtNumber (room : Room.t) : option Z :=
  match Room.createdAt room with JNum z => Some z | _ => None end.

(** Every stored [createdAt] is a number, so that the comparator of the
    eviction is an order. *)
Definition numericCreatedAt (rs : list (JsVal * Room.t)) : Prop :=
  forall e, In e rs -> exists z, Room.createdAt (snd e) = JNum z.

(** A room on which the search filter cannot throw: its [roomId],
    [player1Name] and [player2Name] are strings when they are truthy. *)
Definition searchable (room : Room.t) : Prop :=
  (truthy (Room.roomId room) = true -> isString (Room.roomId room) = true) /\
  (truthy (Room.player1Name room) = true -> isString (Room.player1Name room) = true) /\
  (truthy (Room.player2Name room) = true -> isString (Room.player2Name room) = true).

(** The rooms of a GET /announce response. *)
Definition pageOf (r : Response) : list Room.t :=
  match r with
  | RespRooms _ _ _ _ page => page
  | _ => []
  end.

(** Two queries that differ at most in [offset] and [limit]. *)
Definition sameFilters (q q' : Query.t) : Prop :=
  Query.gameType q = Query.gameType q' /\
  Query.status q = Query.status q' /\
  Query.search q = Query.search q' /\
  Query.minWager q = Query.minWager q' /\
  Query.maxWager q = Query.maxWager q' /\
  Query.sort q = Query.sort q' /\
  Query.includePrivate q = Query.includePrivate q'.

(** The error of the replay guard. *)
Definition duplicateNonce : string := "Duplicate nonce (replay attack detected)".

(** *** Example inputs *)

(** The body [{ roomId, status }]: every other property is absent. *)
Definition statusOnlyData (id status : string) : Data.t :=
  {| Data.roomId := JStr id; Data.gameType := JUndef; Data.status := JStr status;
     Data.appBaseUrl := JUndef; Data.public := JUndef;
     Data.player1Name := JUndef; Data.player1WalletAddress := JUndef;
     Data.player1WalletPuzzleHash := JUndef; Data.player1PublicKey := JUndef;
     Data.player1IdentityPublicKey := JUndef; Data.player1IdentityAddress := JUndef;
     Data.player1PeerId := JUndef;
     Data.player2Name := JUndef; Data.player2WalletAddress := JUndef;
     Data.player2WalletPuzzleHash := JUndef; Data.player2PublicKey := JUndef;
     Data.player2IdentityPublicKey := JUndef; Data.player2IdentityAddress := JUndef;
     Data.player2PeerId := JUndef;
     Data.stateChannelCoinId := JUndef; Data.wagerAmount := JUndef;
     Data.activeGameId := JUndef; Data.createdAt := JUndef;
     Data.timestamp := JUndef; Data.nonce := JUndef |}.

(** The announcement [validRoomData] of the API tests, for the room [id],
    with the given [status], [player1PublicKey] and [nonce]. *)
Definition exampleData (id status : string) (publicKey nonce : JsVal) : Data.t :=
  {| Data.roomId := JStr id; Data.gameType := JStr "rockpaperscissors";
     Data.status := JStr status;
     Data.appBaseUrl := JStr "https://crate.ink"; Data.public := JBool true;
     Data.player1Name := JStr "TestPlayer";
     Data.player1WalletAddress := JStr "xch1test1234567890123456789012345678901234567890";
     Data.player1WalletPuzzleHash := JUndef; Data.player1PublicKey := publicKey;
     Data.player1IdentityPublicKey := JUndef; Data.player1IdentityAddress := JUndef;
     Data.player1PeerId := JStr "peer-test-123";
     Data.player2Name := JUndef; Data.player2WalletAddress := JUndef;
     Data.player2WalletPuzzleHash := JUndef; Data.player2PublicKey := JUndef;
     Data.player2IdentityPublicKey := JUndef; Data.player2IdentityAddress := JUndef;
     Data.player2PeerId := JUndef;
     Data.stateChannelCoinId := JUndef; Data.wagerAmount := JUndef;
     Data.activeGameId := JUndef; Data.createdAt := JUndef;
     Data.timestamp := JUndef; Data.nonce := nonce |}.

(** A stored room as that announcement creates it at the time [created],
    with the given [player1PublicKey] and [wagerAmount]. *)
Definition exampleRoom (id : string) (created : Z) (publicKey : JsVal) (wager : Z)
  : JsVal * Room.t :=
  (JStr id,
   {| Room.roomId := JStr id; Room.gameType := JStr "rockpaperscissors";
      Room.status := JStr "waiting";
      Room.appBaseUrl := JStr "https://crate.ink"; Room.public := JBool true;
      Room.player1Name := JStr "TestPlayer";
      Room.player1WalletAddress := JStr "xch1test1234567890123456789012345678901234567890";
      Room.player1WalletPuzzleHash := JNull; Room.player1PublicKey := publicKey;
      Room.player1IdentityPublicKey := JNull; Room.player1IdentityAddress := JNull;
      Room.player1PeerId := JStr "peer-test-123";
      Room.player2Name := JNull; Room.player2WalletAddress := JNull;
      Room.player2WalletPuzzleHash := JNull; Room.player2PublicKey := JNull;
      Room.player2IdentityPublicKey := JNull; Room.player2IdentityAddress := JNull;
      Room.player2PeerId := JNull;
      Room.stateChannelCoinId := JNull; Room.wagerAmount := JNum wager;
      Room.activeGameId := JNull; Room.createdAt := JNum created;
      Room.updatedAt := JNum created |}).

(** The name of the [i]-th room of an example registry. *)
Definition exampleRoomName (i : nat) : string :=
  "room-" ++ NilZero.string_of_uint (Nat.to_uint i).

(** A registry of [n] rooms, the [i]-th created at time [1000 + i]. *)
Definition exampleRegistry (n : nat) : list (JsVal * Room.t) :=
  map (fun i => exampleRoom (exampleRoomName i) (1000 + Z.of_nat i) JNull 0) (seq 0 n).

(** An entry of the registry with another [createdAt]. *)
Definition withCreatedAt (v : JsVal) (e : JsVal * Room.t) : JsVal * Room.t :=
  (fst e,
   {| Room.roomId := Room.roomId (snd e); Room.gameType := Room.gameType (snd e);
      Room.status := Room.status (snd e); Room.appBaseUrl := Room.appBaseUrl (snd e);
      Room.public := Room.public (snd e); Room.player1Name := Room.player1Name (snd e);
      Room.player1WalletAddress := Room.player1WalletAddress (snd e);
      Room.player1WalletPuzzleHash := Room.player1WalletPuzzleHash (snd e);
      Room.player1PublicKey := Room.player1PublicKey (snd e);
      Room.player1IdentityPublicKey := Room.player1IdentityPublicKey (snd e);
      Room.player1IdentityAddress := Room.player1IdentityAddress (snd e);
      Room.player1PeerId := Room.player1PeerId (snd e);
      Room.player2Name := Room.player2Name (snd e);
      Room.player2WalletAddress := Room.player2WalletAddress (snd e);
      Room.player2WalletPuzzleHash := Room.player2WalletPuzzleHash (snd e);
      Room.player2PublicKey := Room.player2PublicKey (snd e);
      Room.player2IdentityPublicKey := Room.player2IdentityPublicKey (snd e);
      Room.player2IdentityAddress := Room.player2IdentityAddress (snd e);
      Room.player2PeerId := Room.player2PeerId (snd e);
      Room.stateChannelCoinId := Room.stateChannelCoinId (snd e);
      Room.wagerAmount := Room.wagerAmount (snd e);
      Room.activeGameId := Room.activeGameId (snd e);
      Room.createdAt := v;
      Room.updatedAt := Room.updatedAt (snd e) |}).


(** A state that holds the given rooms and nothing else. *)
Definition stateOfRooms (rs : list (JsVal * Room.t)) : State :=
  {| rooms := rs; rateLimitMap := []; blockedIPs := []; usedNonces := [];
     nonceTimers := [] |}.

(** A state that holds the given limiter entries and nothing else. *)
Definition stateOfLimiter (m : list (string * RateLimitData)) : State :=
  {| rooms := []; rateLimitMap := m; blockedIPs := []; usedNonces := [];
     nonceTimers := [] |}.

(** No two of the keys are equal, as a test. *)
Fixpoint distinct (l : list JsVal) : bool :=
  match l with
  | [] => true
  | x :: l' => negb (setHas x l') && distinct l'
  end.

(** An empty query string. *)
Definition emptyQuery : Query.t :=
  {| Query.gameType := JUndef; Query.status := JUndef; Query.search := JUndef;
     Query.minWager := JUndef; Query.maxWager := JUndef; Query.sort := JUndef;
     Query.offset := JUndef; Query.limit := JUndef; Query.includePrivate := JUndef |}.

(** The query string [?offset=...&limit=...]. *)
Definition pageQuery (offset limit : string) : Query.t :=
  {| Query.gameType := JUndef; Query.status := JUndef; Query.search := JUndef;
     Query.minWager := JUndef; Query.maxWager := JUndef; Query.sort := JUndef;
     Query.offset := JStr offset; Query.limit := JStr limit;
     Query.includePrivate := JUndef |}.

(** *** Vocabulary of the further statements *)

(** The characters of a string. *)
Fixpoint charsOf (s : string) : list ascii :=
  match s with
  | EmptyString => []
  | String c s' => c :: charsOf s'
  end.

(** One of the four characters that [sanitizeSearch] drops. *)
Definition isDangerousChar (c : ascii) : bool :=
  let n := nat_of_ascii c in
  ((n =? 60) || (n =? 62) || (n =? 34) || (n =? 39))%nat.

(** The sum of the counts of a statistics object. *)
Definition sumCounts (obj : list (string * Z)) : Z :=
  fold_right (fun e total => snd e + total) 0 obj.

(** The statistics of a GET /scrape response. *)
Definition statsTotal (r : Response) : Z :=
  match r with RespStats complete _ _ => complete | _ => 0 end.

Definition statsByGameType (r : Response) : list (string * Z) :=
  match r with RespStats _ byGameType _ => byGameType | _ => [] end.

Definition statsByStatus (r : Response) : list (string * Z) :=
  match r with RespStats _ _ byStatus => byStatus | _ => [] end.

(** No local address has an entry in the block table. *)
Definition noLocalBlock (blocked : list (string * BlockInfo)) : Prop :=
  forall ip, isLocalhost ip = true -> JsMap.get ip blocked = None.

(** The body of the loop of [rateLimitCleanupInterval] for one entry: what
    the entry leaves in the map. *)
Definition decayEntry (now : Z) (e : string * RateLimitData)
  : list (string * RateLimitData) :=
  if resetTime (snd e) <? now then
    if 0 <? violations (snd e)
    then [(fst e, {| count := count (snd e); announceCount := announceCount (snd e);
                     resetTime := resetTime (snd e);
                     violations := Z.max 0 (violations (snd e) - 1) |})]
    else []
  else [e].

(** The query [q] with [v] as its [maxWager] parameter. *)
Definition withMaxWager (v : JsVal) (q : Query.t) : Query.t :=
  {| Query.gameType := Query.gameType q; Query.status := Query.status q;
     Query.search := Query.search q; Query.minWager := Query.minWager q;
     Query.maxWager := v; Query.sort := Query.sort q;
     Query.offset := Query.offset q; Query.limit := Query.limit q;
     Query.includePrivate := Query.includePrivate q |}.

(** Every recorded nonce has a pending callback that deletes it. *)
Definition timersCover (st : State) : Prop :=
  forall nonce, In nonce (usedNonces st) -> exists due, In (due, nonce) (nonceTimers st).

(** A stored room read as the body of an announcement, field by field;
    a room has no [timestamp] and no [nonce]. *)
Definition asAnnouncement (room : Room.t) : Data.t :=
  {| Data.roomId := Room.roomId room;
     Data.gameType := Room.gameType room;
     Data.status := Room.status room;
     Data.appBaseUrl := Room.appBaseUrl room;
     Data.public := Room.public room;
     Data.player1Name := Room.player1Name room;
     Data.player1WalletAddress := Room.player1WalletAddress room;
     Data.player1WalletPuzzleHash := Room.player1WalletPuzzleHash room;
     Data.player1PublicKey := Room.player1PublicKey room;
     Data.player1IdentityPublicKey := Room.player1IdentityPublicKey room;
     Data.player1IdentityAddress := Room.player1IdentityAddress room;
     Data.player1PeerId := Room.player1PeerId room;
     Data.player2Name := Room.player2Name room;
     Data.player2WalletAddress := Room.player2WalletAddress room;
     Data.player2WalletPuzzleHash := Room.player2WalletPuzzleHash room;
     Data.player2PublicKey := Room.player2PublicKey room;
     Data.player2IdentityPublicKey := Room.player2IdentityPublicKey room;
     Data.player2IdentityAddress := Room.player2IdentityAddress room;
     Data.player2PeerId := Room.player2PeerId room;
     Data.stateChannelCoinId := Room.stateChannelCoinId room;
     Data.wagerAmount := Room.wagerAmount room;
     Data.activeGameId := Room.activeGameId room;
     Data.createdAt := Room.createdAt room;
     Data.timestamp := JUndef;
     Data.nonce := JUndef |}.

(** What holds of every entry of the registry: the key is the [roomId] of
    the room; the room passes the checks of [validateAnnouncement] on its
    fields; its [status] is one of the four, its [public] flag a boolean
    and its [updatedAt] a number. *)
Definition storedValid (e : JsVal * Room.t) : Prop :=
  Room.roomId (snd e) = fst e /\
  (forall now, validateFields (asAnnouncement (snd e)) now = []) /\
  arrayIncludes (Room.status (snd e)) validStatuses = true /\
  isBoolean (Room.public (snd e)) = true /\
  exists t, Room.updatedAt (snd e) = JNum t.

(** The number of rooms of [l] that the statistics count under [key]:
    those whose field [f], or unknown when the field is falsy, names the
    property [key]. *)
Definition keyCount (f : Room.t -> JsVal) (key : string) (l : list Room.t) : Z :=
  Z.of_nat (List.length
              (filter (fun room =>
                         (propertyKey (jsOr (f room) (JStr "unknown")) =? key)%string) l)).

(** The numbers the comparators of the listing subtract: the [createdAt]
    of a room and its wager, read as numbers. *)
Definition createdAtValue (room : Room.t) : Z := nanToZero (toNumber (Room.createdAt room)).
Definition wagerValue (room : Room.t) : Z := nanToZero (toNumber (wagerOf room)).

(** The rooms whose [createdAt] and wager read as numbers, not as NaN. *)
Definition comparable (room : Room.t) : Prop :=
  toNumber (Room.createdAt room) <> None /\ toNumber (wagerOf room) <> None.

(** The body of the loop of [clearLocalhostBlocks], for one address. *)
Definition clearLocalhost (s : State) (ip : string) : State :=
  let s1 := if JsMap.has ip (blockedIPs s)
            then setBlockedIPs (JsMap.delete ip (blockedIPs s)) s else s in
  if JsMap.has ip (rateLimitMap s1)
  then setRateLimitMap (JsMap.delete ip (rateLimitMap s1)) s1 else s1.

(** [clearLocalhostBlocks()], called once when the module is loaded. *)
Definition clearLocalhostBlocks (st : State) : State :=
  let localhostIPs := ["127.0.0.1"; "::1"; "::ffff:127.0.0.1"; "localhost"] in
  fold_left clearLocalhost localhostIPs st.

(** A text of ASCII characters: every code is below 128. *)
Definition isAsciiText (s : string) : bool :=
  allChars (fun c => (nat_of_ascii c <? 128)%nat) s.

(** The query [q] with [v] as its [search] parameter. *)
Definition withSearch (v : JsVal) (q : Query.t) : Query.t :=
  {| Query.gameType := Query.gameType q; Query.status := Query.status q;
     Query.search := v; Query.minWager := Query.minWager q;
     Query.maxWager := Query.maxWager q; Query.sort := Query.sort q;
     Query.offset := Query.offset q; Query.limit := Query.limit q;
     Query.includePrivate := Query.includePrivate q |}.

(** A query that filters on nothing but the visibility: no [gameType],
    [status], [search], [minWager] or [maxWager]. *)
Definition unfiltered (q : Query.t) : Prop :=
  Query.gameType q = JUndef /\ Query.status q = JUndef /\ Query.search q = JUndef /\
  Query.minWager q = JUndef /\ Query.maxWager q = JUndef.

(** ** Facts about maps *)

Lemma JsVal_eqb_spec (a b : JsVal) : reflect (a = b) (JsVal_eqb a b).
Proof.
  destruct a, b; simpl; try (constructor; congruence).
  - destruct (Bool.eqb_spec b0 b); constructor; congruence.
  - destruct (Z.eqb_spec n n0); constructor; congruence.
  - destruct (String.eqb_spec s s0); constructor; congruence.
Qed.

#[global] Instance string_KeyEqLaws : KeyEqLaws string_KeyEq.
Proof. constructor. exact String.eqb_eq. Qed.

#[global] Instance JsVal_KeyEqLaws : KeyEqLaws JsVal_KeyEq.
Proof.
  constructor. intros a b. symmetry. apply reflect_iff, JsVal_eqb_spec.
Qed.

Lemma keq_spec {K : Type} {E : KeyEq K} {L : KeyEqLaws E} (a b : K) :
  reflect (a = b) (keq a b).
Proof. apply iff_reflect. symmetry. apply keq_eq. Qed.

Section JsMapFacts.
Context {K V : Type} {E : KeyEq K} {L : KeyEqLaws E}.
Implicit Types (m : list (K * V)) (k : K) (v : V).

Lemma keq_refl k : keq k k = true.
Proof. destruct (keq_spec k k); congruence. Qed.

Lemma keq_neq k k' : k <> k' -> keq k k' = false.
Proof. intros Hne. destruct (keq_spec k k'); congruence. Qed.

Lemma get_set_same k v m : JsMap.get k (JsMap.set k v m) = Some v.
Proof.
  induction m as [|[k' v'] m IH]; simpl.
  - now rewrite keq_refl.
  - destruct (keq_spec k k') as [->|Hne]; simpl.
    + now rewrite keq_refl.
    + now rewrite (keq_neq Hne).
Qed.

Lemma get_set_other k k' v m :
  k <> k' -> JsMap.get k' (JsMap.set k v m) = JsMap.get k' m.
Proof.
  intros Hne. induction m as [|[k0 v0] m IH]; simpl.
  - rewrite keq_neq; auto.
  - destruct (keq_spec k k0) as [->|Hne0]; simpl.
    + rewrite keq_neq; auto.
    + now rewrite IH.
Qed.

Lemma set_set k v v' m : JsMap.set k v (JsMap.set k v' m) = JsMap.set k v m.
Proof.
  induction m as [|[k0 v0] m IH]; simpl.
  - now rewrite keq_refl.
  - destruct (keq_spec k k0) as [->|Hne]; simpl.
    + now rewrite keq_refl.
    + rewrite (keq_neq Hne). now rewrite IH.
Qed.

Lemma size_set_present k v m d :
  JsMap.get k m = Some d -> JsMap.size (JsMap.set k v m) = JsMap.size m.
Proof.
  unfold JsMap.size. induction m as [|[k0 v0] m IH]; simpl; [discriminate|].
  destruct (keq k k0); simpl; auto.
  intros Hg. specialize (IH Hg). lia.
Qed.

Lemma size_set_absent k v m :
  JsMap.get k m = None -> JsMap.size (JsMap.set k v m) = JsMap.size m + 1.
Proof.
  unfold JsMap.size. induction m as [|[k0 v0] m IH]; simpl; [reflexivity|].
  destruct (keq k k0); simpl; [discriminate|].
  intros Hg. specialize (IH Hg). lia.
Qed.

Lemma set_absent k v m :
  JsMap.get k m = None -> JsMap.set k v m = m ++ [(k, v)].
Proof.
  induction m as [|[k0 v0] m IH]; simpl; [reflexivity|].
  destruct (keq k k0); [discriminate|].
  intros Hg. now rewrite IH.
Qed.

Lemma has_set k v m : JsMap.has k (JsMap.set k v m) = true.
Proof. unfold JsMap.has. now rewrite get_set_same. Qed.

Lemma get_delete_same k m : JsMap.get k (JsMap.delete k m) = None.
Proof.
  unfold JsMap.delete. induction m as [|[k0 v0] m IH]; simpl; [reflexivity|].
  destruct (keq k k0) eqn:Hk; simpl; [assumption|].
  now rewrite Hk.
Qed.

Lemma get_delete_other k k' m :
  k <> k' -> JsMap.get k' (JsMap.delete k m) = JsMap.get k' m.
Proof.
  intros Hne. unfold JsMap.delete.
  induction m as [|[k0 v0] m IH]; simpl; [reflexivity|].
  destruct (keq_spec k k0) as [->|Hne0]; simpl.
  - rewrite (@keq_neq k' k0); auto.
  - now rewrite IH.
Qed.

Lemma size_delete_le k m : JsMap.size (JsMap.delete k m) <= JsMap.size m.
Proof.
  unfold JsMap.size, JsMap.delete.
  pose proof (filter_length_le (fun e : K * V => negb (keq k (fst e))) m). lia.
Qed.

Lemma size_nonneg m : 0 <= JsMap.size m.
Proof. unfold JsMap.size. lia. Qed.
End JsMapFacts.

(** ** Facts about the rate limiter *)

Section RateLimitFacts.
Hypothesis enabled : DISABLE_RATE_LIMIT = false.

Lemma isIPBlocked_absent ip now blocked :
  JsMap.get ip blocked = None -> isIPBlocked ip now blocked = (None, blocked).
Proof. intros Hg. unfold isIPBlocked. simpl. now rewrite Hg. Qed.

Lemma isIPBlocked_active ip now blocked info :
  JsMap.get ip blocked = Some info -> now < blockedUntil info ->
  isIPBlocked ip now blocked = (Some (reason info), blocked).
Proof.
  intros Hg Hlt. unfold isIPBlocked. simpl. rewrite Hg.
  destruct (Z.ltb_spec now (blockedUntil info)); [reflexivity|lia].
Qed.

Lemma isIPBlocked_expired ip now blocked info :
  JsMap.get ip blocked = Some info -> blockedUntil info <= now ->
  isIPBlocked ip now blocked = (None, JsMap.delete ip blocked).
Proof.
  intros Hg Hle. unfold isIPBlocked. simpl. rewrite Hg.
  destruct (Z.ltb_spec now (blockedUntil info)); [lia|reflexivity].
Qed.

Lemma enforceRateLimitCap_within m :
  JsMap.size m <= MAX_RATE_LIMIT_ENTRIES -> enforceRateLimitCap m = m.
Proof.
  intros Hle. unfold enforceRateLimitCap.
  destruct (Z.ltb_spec MAX_RATE_LIMIT_ENTRIES (JsMap.size m)); [lia|reflexivity].
Qed.

(** What the middleware does for a client that is neither local nor
    blocked, while the table stays within its hard limit. *)
Lemma rateLimit_counted ip isPost now st :
  isLocalhost ip = false ->
  JsMap.get ip (blockedIPs st) = None ->
  JsMap.size (JsMap.set ip (freshData now) (rateLimitMap st)) <= MAX_RATE_LIMIT_ENTRIES ->
  rateLimit ip isPost now st =
    let d := currentData ip now st in
    let d1 := bump isPost d in
    if thresholdOf isPost <? counterOf isPost d1 then
      (Some (Resp429 isPost (ceilDiv (resetTime d - now) 1000)),
       setBlockedIPs
         (if MAX_VIOLATIONS <=? violations d + 1
          then blockIP ip (blockReason isPost) BLOCK_DURATION now (blockedIPs st)
          else blockedIPs st)
         (setRateLimitMap (JsMap.set ip (violate d1) (rateLimitMap st)) st))
    else
      (None, setBlockedIPs (blockedIPs st)
               (setRateLimitMap (JsMap.set ip d1 (rateLimitMap st)) st)).
Proof.
  intros Hloc Hblk Hsize.
  unfold rateLimit, currentData. rewrite enabled, Hloc.
  rewrite isIPBlocked_absent by exact Hblk.
  fold (freshData now).
  destruct (JsMap.get ip (rateLimitMap st)) as [d|] eqn:Hget.
  - destruct (resetTime d <? now) eqn:Hexp.
    + rewrite enforceRateLimitCap_within by exact Hsize.
      unfold writeBack. rewrite !has_set, !set_set.
      destruct isPost; reflexivity.
    + rewrite (size_set_present _ _ _ Hget) in Hsize.
      rewrite enforceRateLimitCap_within by exact Hsize.
      unfold writeBack, JsMap.has. rewrite Hget.
      destruct isPost; reflexivity.
  - rewrite enforceRateLimitCap_within by exact Hsize.
    unfold writeBack. rewrite !has_set, !set_set.
    destruct isPost; reflexivity.
Qed.
End RateLimitFacts.

Section RateLimitRuns.
Hypothesis enabled : DISABLE_RATE_LIMIT = false.
Variable ip : string.
Variable isPost : bool.
Hypothesis remote : isLocalhost ip = false.


Lemma size_set_indep (m : list (string * RateLimitData)) d d' :
  JsMap.size (JsMap.set ip d m) = JsMap.size (JsMap.set ip d' m).
Proof.
  destruct (JsMap.get ip m) as [d0|] eqn:Hg.
  - now rewrite !(size_set_present _ _ _ Hg).
  - now rewrite !(size_set_absent _ _ _ Hg).
Qed.

Lemma counterOf_bump d : counterOf isPost (bump isPost d) = counterOf isPost d + 1.
Proof. unfold counterOf, bump. destruct isPost; reflexivity. Qed.

Lemma resetTime_bump d : resetTime (bump isPost d) = resetTime d.
Proof. unfold bump. destruct isPost; reflexivity. Qed.

Lemma violations_bump d : violations (bump isPost d) = violations d.
Proof. unfold bump. destruct isPost; reflexivity. Qed.

(** The requests made while the window of the stored entry lasts: with
    the counter at [c], the next [threshold - c] are let through and the one
    after is answered 429. *)
Lemma requests_in_window (R : Z) :
  forall (ts : list Z) (st : State) (d : RateLimitData),
    JsMap.get ip (blockedIPs st) = None ->
    JsMap.get ip (rateLimitMap st) = Some d ->
    resetTime d = R ->
    JsMap.size (rateLimitMap st) <= MAX_RATE_LIMIT_ENTRIES ->
    counterOf isPost d <= thresholdOf isPost ->
    Forall (fun t => t <= R) ts ->
    List.length ts = S (Z.to_nat (thresholdOf isPost - counterOf isPost d)) ->
    fst (requests ip isPost ts st) =
      repeat None (Z.to_nat (thresholdOf isPost - counterOf isPost d)) ++
      [Some (Resp429 isPost (ceilDiv (R - last ts 0) 1000))] /\
    (exists d', JsMap.get ip (rateLimitMap (snd (requests ip isPost ts st))) = Some d' /\
                resetTime d' = R /\ violations d' = violations d + 1) /\
    JsMap.size (rateLimitMap (snd (requests ip isPost ts st))) <= MAX_RATE_LIMIT_ENTRIES /\
    (violations d + 1 < MAX_VIOLATIONS ->
     JsMap.get ip (blockedIPs (snd (requests ip isPost ts st))) = None).
Proof.
  induction ts as [|t ts IH]; intros st d Hblk Hget HR Hsize Hc Hts Hlen.
  - discriminate.
  - inversion Hts as [|? ? Ht Hts']; subst.
    assert (Hsz : JsMap.size (JsMap.set ip (freshData t) (rateLimitMap st))
                  <= MAX_RATE_LIMIT_ENTRIES)
      by now rewrite (size_set_present _ _ _ Hget).
    assert (Hcur : currentData ip t st = d).
    { unfold currentData. rewrite Hget.
      destruct (Z.ltb_spec (resetTime d) t); [lia|reflexivity]. }
    cbn [requests].
    rewrite (rateLimit_counted enabled ip isPost t st remote Hblk Hsz).
    cbv zeta. rewrite Hcur, counterOf_bump.
    destruct (Z.ltb_spec (thresholdOf isPost) (counterOf isPost d + 1)) as [Hover|Hunder].
    + assert (Hz : Z.to_nat (thresholdOf isPost - counterOf isPost d) = 0%nat) by lia.
      rewrite Hz in *. destruct ts; [|discriminate].
      cbn. repeat split.
      * eexists. rewrite get_set_same. split; [reflexivity|].
        cbn. rewrite resetTime_bump, violations_bump. split; reflexivity.
      * now rewrite (size_set_present _ _ _ Hget).
      * intros Hv. destruct (Z.leb_spec MAX_VIOLATIONS (violations d + 1)); [lia|assumption].
    + assert (Hget1 : JsMap.get ip (JsMap.set ip (bump isPost d) (rateLimitMap st))
                      = Some (bump isPost d)) by apply get_set_same.
      set (st1 := setBlockedIPs (blockedIPs st)
                    (setRateLimitMap (JsMap.set ip (bump isPost d) (rateLimitMap st)) st)).
      assert (Hn : Z.to_nat (thresholdOf isPost - counterOf isPost d)
                   = S (Z.to_nat (thresholdOf isPost - counterOf isPost (bump isPost d)))).
      { rewrite counterOf_bump. lia. }
      destruct (IH st1 (bump isPost d)) as (Hans & (d' & Hd' & HR' & Hv') & Hsize' & Hblk').
      * exact Hblk.
      * exact Hget1.
      * apply resetTime_bump.
      * cbn. now rewrite (size_set_present _ _ _ Hget).
      * rewrite counterOf_bump. lia.
      * exact Hts'.
      * cbn in Hlen. lia.
      * destruct (requests ip isPost ts st1) as [rs st2] eqn:Hrun.
        cbn [fst snd] in *. rewrite Hn. cbn [repeat app].
        rewrite Hans.
        assert (Hlast : last (t :: ts) 0 = last ts 0).
        { destruct ts; [cbn in Hlen; lia|reflexivity]. }
        rewrite Hlast. repeat split.
        -- exists d'. rewrite violations_bump in Hv'. auto.
        -- exact Hsize'.
        -- rewrite violations_bump in Hblk'. exact Hblk'.
Qed.

(** The same from the start of a window: the client has no entry, or one
    whose window is over at the first request. *)
Lemma requests_new_window (t0 : Z) (ts : list Z) (st : State) :
  JsMap.get ip (blockedIPs st) = None ->
  match JsMap.get ip (rateLimitMap st) with
  | Some d => resetTime d < t0
  | None => True
  end ->
  JsMap.size (JsMap.set ip (freshData t0) (rateLimitMap st)) <= MAX_RATE_LIMIT_ENTRIES ->
  0 <= thresholdOf isPost ->
  Forall (fun t => t <= t0 + RATE_LIMIT_WINDOW) ts ->
  List.length ts = Z.to_nat (thresholdOf isPost) ->
  fst (requests ip isPost (t0 :: ts) st) =
    repeat None (Z.to_nat (thresholdOf isPost)) ++
    [Some (Resp429 isPost (ceilDiv (t0 + RATE_LIMIT_WINDOW - last ts t0) 1000))] /\
  (exists d', JsMap.get ip (rateLimitMap (snd (requests ip isPost (t0 :: ts) st))) = Some d' /\
              resetTime d' = t0 + RATE_LIMIT_WINDOW) /\
  JsMap.size (rateLimitMap (snd (requests ip isPost (t0 :: ts) st))) <= MAX_RATE_LIMIT_ENTRIES /\
  (1 < MAX_VIOLATIONS ->
   JsMap.get ip (blockedIPs (snd (requests ip isPost (t0 :: ts) st))) = None).
Proof.
  intros Hblk Hover Hsz Hth Hts Hlen.
  assert (Hcur : currentData ip t0 st = freshData t0).
  { unfold currentData. destruct (JsMap.get ip (rateLimitMap st)) as [d|]; [|reflexivity].
    destruct (Z.ltb_spec (resetTime d) t0); [reflexivity|lia]. }
  assert (Hc0 : counterOf isPost (freshData t0) = 0)
    by (unfold counterOf; destruct isPost; reflexivity).
  cbn [requests].
  rewrite (rateLimit_counted enabled ip isPost t0 st remote Hblk Hsz).
  cbv zeta. rewrite Hcur, counterOf_bump, Hc0.
  destruct (Z.ltb_spec (thresholdOf isPost) (0 + 1)) as [Hzero|Hpos].
  - assert (Hz : Z.to_nat (thresholdOf isPost) = 0%nat) by lia.
    rewrite Hz in *. destruct ts; [|discriminate].
    cbn. repeat split.
    + eexists. rewrite get_set_same. split; [reflexivity|].
      cbn. now rewrite resetTime_bump.
    + now rewrite (size_set_indep _ _ (freshData t0)).
    + intros Hv. destruct (Z.leb_spec MAX_VIOLATIONS 1); [lia|assumption].
  - set (d1 := bump isPost (freshData t0)).
    set (st1 := setBlockedIPs (blockedIPs st)
                  (setRateLimitMap (JsMap.set ip d1 (rateLimitMap st)) st)).
    assert (Hsize1 : JsMap.size (rateLimitMap st1) <= MAX_RATE_LIMIT_ENTRIES).
    { cbn. now rewrite (size_set_indep _ _ (freshData t0)). }
    assert (Hc1 : counterOf isPost d1 = 1)
      by (unfold d1; rewrite counterOf_bump, Hc0; reflexivity).
    destruct (@requests_in_window (t0 + RATE_LIMIT_WINDOW) ts st1 d1)
      as (Hans & (d' & Hd' & HR' & Hv') & Hsize' & Hblk').
    + exact Hblk.
    + cbn. apply get_set_same.
    + unfold d1. now rewrite resetTime_bump.
    + exact Hsize1.
    + rewrite Hc1. lia.
    + exact Hts.
    + rewrite Hc1, Hlen. lia.
    + destruct (requests ip isPost ts st1) as [rs st2] eqn:Hrun.
      cbn [fst snd] in *. rewrite Hans, Hc1.
      assert (Hn : Z.to_nat (thresholdOf isPost) = S (Z.to_nat (thresholdOf isPost - 1))) by lia.
      rewrite Hn. cbn [repeat app].
      assert (Hlast : last ts 0 = last ts t0).
      { destruct ts as [|a ts']; [cbn in Hlen; lia|]. clear. revert a.
        induction ts' as [|b ts' IH]; intros a; [reflexivity|].
        change (last (a :: b :: ts') 0) with (last (b :: ts') 0).
        change (last (a :: b :: ts') t0) with (last (b :: ts') t0). apply IH. }
      rewrite Hlast. repeat split.
      * exists d'. auto.
      * exact Hsize'.
      * intros Hv. apply Hblk'. unfold d1. rewrite violations_bump. cbn. lia.
Qed.

End RateLimitRuns.

Lemma setBlockedIPs_same st : setBlockedIPs (blockedIPs st) st = st.
Proof. now destruct st. Qed.

(** Once the check has found no block, the middleware does not answer 403. *)
Lemma rateLimit_not_forbidden ip isPost now st blocked why :
  isIPBlocked ip now (blockedIPs st) = (None, blocked) ->
  fst (rateLimit ip isPost now st) <> Some (Resp403 why).
Proof.
  intros Hchk. unfold rateLimit.
  destruct DISABLE_RATE_LIMIT; [discriminate|].
  rewrite Hchk.
  destruct (isLocalhost ip); [discriminate|].
  destruct (JsMap.get ip (rateLimitMap st)) as [d|];
    [destruct (resetTime d <? now)|]; destruct isPost; cbv zeta beta iota;
    match goal with
    | |- fst (if ?c then _ else _) <> _ => destruct c; discriminate
    end.
Qed.


(** X25 (one step of the escalation): when a request of a client that is
    neither local nor blocked exceeds its quota inside its window and brings
    the [violations] of the entry to MAX_VIOLATIONS or more, a temporary
    block until [now + BLOCK_DURATION] is stored with the reason; every
    request of the client before that time is answered 403 with that reason
    and leaves the state as it is; from that time on the check
    [isIPBlocked] reports no block and deletes the entry, and the
    middleware does not answer 403. *)
Theorem escalation_blocks_then_lifts
    (ip : string) (isPost : bool) (now : Z) (st : State) (d : RateLimitData) :
  DISABLE_RATE_LIMIT = false ->
  isLocalhost ip = false ->
  JsMap.get ip (blockedIPs st) = None ->
  JsMap.get ip (rateLimitMap st) = Some d ->
  now <= resetTime d ->
  JsMap.size (rateLimitMap st) <= MAX_RATE_LIMIT_ENTRIES ->
  thresholdOf isPost <= counterOf isPost d ->
  MAX_VIOLATIONS <= violations d + 1 ->
  let st1 := snd (rateLimit ip isPost now st) in
  JsMap.get ip (blockedIPs st1) =
    Some {| blockedUntil := now + BLOCK_DURATION; reason := blockReason isPost |} /\
  (forall now' isPost', now' < now + BLOCK_DURATION ->
     rateLimit ip isPost' now' st1 = (Some (Resp403 (blockReason isPost)), st1)) /\
  (forall now', now + BLOCK_DURATION <= now' ->
     isIPBlocked ip now' (blockedIPs st1) = (None, JsMap.delete ip (blockedIPs st1)) /\
     JsMap.get ip (JsMap.delete ip (blockedIPs st1)) = None /\
     forall isPost' why, fst (rateLimit ip isPost' now' st1) <> Some (Resp403 why)).
Proof.
  intros Hen Hloc Hblk Hget Hwin Hsize Hover Hmax st1.
  assert (Hsz : JsMap.size (JsMap.set ip (freshData now) (rateLimitMap st))
                <= MAX_RATE_LIMIT_ENTRIES)
    by now rewrite (size_set_present _ _ _ Hget).
  assert (Hcur : currentData ip now st = d).
  { unfold currentData. rewrite Hget.
    destruct (Z.ltb_spec (resetTime d) now); [lia|reflexivity]. }
  assert (Hst1 : JsMap.get ip (blockedIPs st1) =
                 Some {| blockedUntil := now + BLOCK_DURATION;
                         reason := blockReason isPost |}).
  { unfold st1. rewrite (rateLimit_counted Hen ip isPost now st Hloc Hblk Hsz).
    cbv zeta. rewrite Hcur, counterOf_bump.
    destruct (Z.ltb_spec (thresholdOf isPost) (counterOf isPost d + 1)); [|lia].
    destruct (Z.leb_spec MAX_VIOLATIONS (violations d + 1)); [|lia].
    cbn. unfold blockIP. rewrite Hloc. apply get_set_same. }
  split; [exact Hst1|]. split.
  - intros now' isPost' Hlt. unfold rateLimit. rewrite Hen, Hloc.
    erewrite isIPBlocked_active; [|exact Hst1|exact Hlt].
    cbn [reason]. now rewrite setBlockedIPs_same.
  - intros now' Hge.
    assert (Hchk : isIPBlocked ip now' (blockedIPs st1)
                   = (None, JsMap.delete ip (blockedIPs st1)))
      by (eapply isIPBlocked_expired; [exact Hst1|cbn; lia]).
    split; [exact Hchk|]. split; [apply get_delete_same|].
    intros isPost' why. eapply rateLimit_not_forbidden. exact Hchk.
Qed.

(** *** Refusals within one window *)

Section EscalationRuns.
Hypothesis enabled : DISABLE_RATE_LIMIT = false.
Variable ip : string.
Variable isPost : bool.
Hypothesis remote : isLocalhost ip = false.




End EscalationRuns.

(** ** Facts about sorting and deletion *)

Section SortFacts.
Context {A : Type} (cmp : A -> A -> Z).

Lemma insertSorted_perm x l : Permutation (insertSorted cmp x l) (x :: l).
Proof.
  induction l as [|y l IH]; simpl; [reflexivity|].
  destruct (cmp x y <=? 0); [reflexivity|].
  rewrite IH. apply perm_swap.
Qed.

(** An array that is in order for the comparator as it stands is
    returned unchanged. *)
Lemma jsSort_in_order l :
  (forall pre x y post, l = pre ++ x :: y :: post -> cmp x y <= 0) ->
  jsSort cmp l = l.
Proof.
  induction l as [|a l IH]; intros Hord; [reflexivity|].
  change (jsSort cmp (a :: l)) with (insertSorted cmp a (jsSort cmp l)).
  rewrite IH.
  - destruct l as [|y l']; [reflexivity|]. cbn [insertSorted].
    destruct (Z.leb_spec (cmp a y) 0) as [_|Hgt]; [reflexivity|].
    specialize (Hord [] a y l' eq_refl). lia.
  - intros pre x y post ->. exact (Hord (a :: pre) x y post eq_refl).
Qed.

Lemma jsSort_perm l : Permutation (jsSort cmp l) l.
Proof.
  induction l as [|x l IH]; simpl; [reflexivity|].
  rewrite insertSorted_perm. now constructor.
Qed.

Lemma jsSort_In x l : In x (jsSort cmp l) <-> In x l.
Proof.
  split; apply Permutation_in; [|symmetry]; apply jsSort_perm.
Qed.

Lemma jsSort_length l : List.length (jsSort cmp l) = List.length l.
Proof. apply Permutation_length, jsSort_perm. Qed.

(** When the comparator is the difference of a numeric key on the elements
    of the array, the first element of the sorted array has the least key. *)
Lemma jsSort_head_min (f : A -> Z) l :
  (forall a b, In a l -> In b l -> cmp a b = f a - f b) ->
  forall x rest, jsSort cmp l = x :: rest ->
  In x l /\ forall y, In y l -> f x <= f y.
Proof.
  induction l as [|a l IH]; intros Hcmp x rest Hs; [discriminate|].
  simpl in Hs.
  destruct (jsSort cmp l) as [|y s] eqn:Hl.
  - assert (l = []) by (apply length_zero_iff_nil; now rewrite <- jsSort_length, Hl).
    subst l. simpl in Hs. injection Hs as <- _.
    split; [now left|]. intros y [<-|[]]. lia.
  - destruct (IH (fun a b Ha Hb => Hcmp a b (or_intror Ha) (or_intror Hb)) y s eq_refl)
      as [Hy Hmin].
    simpl in Hs. rewrite (Hcmp a y (or_introl eq_refl) (or_intror Hy)) in Hs.
    destruct (Z.leb_spec (f a - f y) 0) as [Hle|Hgt]; injection Hs as <- _.
    + split; [now left|]. intros z [<-|Hz]; [lia|]. specialize (Hmin z Hz). lia.
    + split; [now right|]. intros z [<-|Hz]; [lia|]. now apply Hmin.
Qed.
End SortFacts.

Section DeleteFacts.
Context {K V : Type} {E : KeyEq K} {L : KeyEqLaws E}.
Implicit Types (m : list (K * V)) (k : K) (v : V).

Lemma get_In k v m : JsMap.get k m = Some v -> In (k, v) m.
Proof.
  induction m as [|[k0 v0] m IH]; simpl; [discriminate|].
  destruct (keq_spec k k0) as [->|Hne].
  - intros [= ->]. now left.
  - intros Hg. right. now apply IH.
Qed.

Lemma In_get_some k v m : In (k, v) m -> exists v', JsMap.get k m = Some v'.
Proof.
  induction m as [|[k0 v0] m IH]; simpl; [intros []|].
  intros [[= -> ->]|Hin].
  - rewrite keq_refl. eauto.
  - destruct (keq k k0); eauto.
Qed.

Lemma get_none_not_In k m : JsMap.get k m = None -> ~ In k (JsMap.keys m).
Proof.
  intros Hg Hin. apply in_map_iff in Hin as ([k' v] & Hk & Hin). simpl in Hk. subst k'.
  apply In_get_some in Hin as [v' Hv]. congruence.
Qed.

Lemma In_get k v m : NoDup (JsMap.keys m) -> In (k, v) m -> JsMap.get k m = Some v.
Proof.
  induction m as [|[k0 v0] m IH]; simpl; [intros _ []|].
  intros Hnd [[= -> ->]|Hin].
  - now rewrite keq_refl.
  - inversion Hnd as [|? ? Hnot Hnd']; subst.
    destruct (keq_spec k k0) as [->|Hne].
    + exfalso. apply Hnot. change k0 with (fst (k0, v)). now apply in_map.
    + now apply IH.
Qed.

Lemma delete_notin k m : ~ In k (JsMap.keys m) -> JsMap.delete k m = m.
Proof.
  unfold JsMap.delete. induction m as [|[k0 v0] m IH]; simpl; [reflexivity|].
  intros Hnot. destruct (keq_spec k k0) as [->|Hne]; simpl.
  - exfalso. apply Hnot. now left.
  - rewrite IH; [reflexivity|]. intros Hin. apply Hnot. now right.
Qed.

Lemma size_delete_In k v m :
  In (k, v) m -> JsMap.size (JsMap.delete k m) < JsMap.size m.
Proof.
  unfold JsMap.size, JsMap.delete.
  induction m as [|[k0 v0] m IH]; simpl; [intros []|].
  intros [[= -> ->]|Hin].
  - rewrite keq_refl. simpl.
    pose proof (filter_length_le (fun e : K * V => negb (keq k (fst e))) m). lia.
  - specialize (IH Hin). destruct (keq k k0); simpl; lia.
Qed.

Lemma length_delete_NoDup k v m :
  NoDup (JsMap.keys m) -> In (k, v) m ->
  S (List.length (JsMap.delete k m)) = List.length m.
Proof.
  induction m as [|[k0 v0] m IH]; [intros _ []|].
  intros Hnd Hin. inversion Hnd as [|? ? Hnot Hnd']; subst.
  unfold JsMap.delete. cbn [filter fst].
  destruct Hin as [[= -> ->]|Hin].
  - rewrite keq_refl. cbn [negb].
    fold (JsMap.delete k m). now rewrite delete_notin by exact Hnot.
  - destruct (keq_spec k k0) as [->|Hne]; cbn [negb].
    + exfalso. apply Hnot. change k0 with (fst (k0, v)). now apply in_map.
    + fold (JsMap.delete k m). cbn [List.length]. now rewrite (IH Hnd' Hin).
Qed.

Lemma size_delete_NoDup k v m :
  NoDup (JsMap.keys m) -> In (k, v) m ->
  JsMap.size (JsMap.delete k m) = JsMap.size m - 1.
Proof.
  intros Hnd Hin. unfold JsMap.size.
  rewrite <- (length_delete_NoDup _ _ _ Hnd Hin). lia.
Qed.

Lemma keys_delete_incl k m x : In x (JsMap.keys (JsMap.delete k m)) -> In x (JsMap.keys m).
Proof.
  unfold JsMap.keys, JsMap.delete. intros Hin.
  apply in_map_iff in Hin as (e & He & Hin). apply filter_In in Hin as [Hin _].
  apply in_map_iff. eauto.
Qed.

Lemma NoDup_keys_filter (p : K * V -> bool) m :
  NoDup (JsMap.keys m) -> NoDup (JsMap.keys (filter p m)).
Proof.
  unfold JsMap.keys. induction m as [|e m IH]; simpl; [auto|].
  intros Hnd. inversion Hnd as [|? ? Hnot Hnd']; subst.
  destruct (p e); simpl; [|auto].
  constructor; [|auto].
  intros Hin. apply Hnot. apply in_map_iff in Hin as (e' & He' & Hin).
  apply filter_In in Hin as [Hin _]. apply in_map_iff. eauto.
Qed.

Lemma NoDup_keys_delete k m :
  NoDup (JsMap.keys m) -> NoDup (JsMap.keys (JsMap.delete k m)).
Proof. apply NoDup_keys_filter. Qed.

Lemma keys_set_present k v m d :
  JsMap.get k m = Some d -> JsMap.keys (JsMap.set k v m) = JsMap.keys m.
Proof.
  unfold JsMap.keys. induction m as [|[k0 v0] m IH]; simpl; [discriminate|].
  destruct (keq k k0); simpl; [reflexivity|].
  intros Hg. now rewrite IH.
Qed.

Lemma In_set_cases k v m k' v' :
  In (k', v') (JsMap.set k v m) -> v' = v \/ In (k', v') m.
Proof.
  induction m as [|[k0 v0] m IH]; cbn [JsMap.set].
  - intros [[= _ <-]|[]]. now left.
  - destruct (keq k k0).
    + intros [[= _ <-]|Hin]; [now left|right; now right].
    + intros [Heq|Hin]; [right; now left|].
      destruct (IH Hin) as [->|Hr]; [now left|right; now right].
Qed.

Lemma NoDup_keys_set k v m :
  NoDup (JsMap.keys m) -> NoDup (JsMap.keys (JsMap.set k v m)).
Proof.
  intros Hnd. destruct (JsMap.get k m) as [d|] eqn:Hg.
  - now rewrite (keys_set_present _ _ _ Hg).
  - rewrite (set_absent _ _ _ Hg). unfold JsMap.keys. rewrite map_app. simpl.
    apply NoDup_app_remove_l with (l := []). simpl.
    apply Permutation_NoDup with (l := k :: map fst m).
    + apply Permutation_cons_append.
    + constructor; [now apply get_none_not_In|exact Hnd].
Qed.
End DeleteFacts.

(** ** Facts about the registry *)

Lemma checkNonce_rooms nonce now st : rooms (snd (checkNonce nonce now st)) = rooms st.
Proof.
  unfold checkNonce.
  destruct (truthy nonce); [|reflexivity].
  destruct (setHas nonce (usedNonces st)); [reflexivity|].
  destruct (MAX_NONCES <=? Z.of_nat (List.length (usedNonces st))); reflexivity.
Qed.

Lemma validateAnnouncement_eq data now st :
  validateAnnouncement data now st =
    (validateFields data now ++ fst (checkNonce (Data.nonce data) now st),
     snd (checkNonce (Data.nonce data) now st)).
Proof.
  unfold validateAnnouncement. now destruct (checkNonce (Data.nonce data) now st).
Qed.

Lemma validateAnnouncement_rooms data now st :
  rooms (snd (validateAnnouncement data now st)) = rooms st.
Proof. rewrite validateAnnouncement_eq. apply checkNonce_rooms. Qed.

(** The handler, by cases on the outcome of the validation. *)
Lemma post_announce_eq data now st :
  post_announce data now st =
    let errors := fst (validateAnnouncement data now st) in
    let st1 := snd (validateAnnouncement data now st) in
    match errors with
    | _ :: _ => (Resp400 errors, st1)
    | [] =>
        let rs := enforceRoomLimit (rooms st) in
        let room' :=
          match JsMap.get (Data.roomId data) rs with
          | Some room => updateRoom room data now
          | None => newRoom data now
          end in
        (RespRoom room', setRooms (JsMap.set (Data.roomId data) room' rs) st1)
    end.
Proof.
  unfold post_announce.
  pose proof (validateAnnouncement_rooms data now st) as Hr.
  destruct (validateAnnouncement data now st) as [errors st1]. cbn [fst snd] in *.
  destruct errors; [|reflexivity].
  rewrite Hr. cbv zeta.
  destruct (JsMap.get (Data.roomId data) (enforceRoomLimit (rooms st))); reflexivity.
Qed.

Lemma enforceRoomLimit_below rs :
  JsMap.size rs < MAX_ROOMS -> enforceRoomLimit rs = rs.
Proof.
  intros Hlt. unfold enforceRoomLimit.
  destruct (Z.leb_spec MAX_ROOMS (JsMap.size rs)); [lia|reflexivity].
Qed.

(** At the limit the block deletes the key of the first room of the array
    sorted by [createdAt]. *)
Lemma enforceRoomLimit_full rs :
  MAX_ROOMS <= JsMap.size rs ->
  exists oldest rest,
    jsSort byCreatedAt rs = oldest :: rest /\
    In oldest rs /\
    enforceRoomLimit rs = JsMap.delete (fst oldest) rs.
Proof.
  intros Hge. unfold enforceRoomLimit.
  destruct (Z.leb_spec MAX_ROOMS (JsMap.size rs)); [|lia].
  destruct (jsSort byCreatedAt rs) as [|oldest rest] eqn:Hs.
  - exfalso. apply (f_equal (@List.length _)) in Hs.
    rewrite jsSort_length in Hs. unfold JsMap.size, MAX_ROOMS in Hge.
    simpl in Hs. lia.
  - exists oldest, rest. repeat split.
    apply (jsSort_In byCreatedAt). rewrite Hs. now left.
Qed.

Lemma byCreatedAt_numeric rs :
  numericCreatedAt rs ->
  forall a b, In a rs -> In b rs ->
    byCreatedAt a b =
      nanToZero (createdAtNumber (snd a)) - nanToZero (createdAtNumber (snd b)).
Proof.
  intros Hnum a b Ha Hb.
  destruct (Hnum a Ha) as [za Hza], (Hnum b Hb) as [zb Hzb].
  unfold byCreatedAt, jsSub, createdAtNumber. now rewrite Hza, Hzb.
Qed.

Lemma enforceRoomLimit_size rs :
  JsMap.size (enforceRoomLimit rs) <= JsMap.size rs /\
  (MAX_ROOMS <= JsMap.size rs -> JsMap.size (enforceRoomLimit rs) < JsMap.size rs).
Proof.
  destruct (Z.le_gt_cases MAX_ROOMS (JsMap.size rs)) as [Hge|Hlt].
  - destruct (enforceRoomLimit_full rs Hge) as ([k0 r0] & rest & _ & Hin & ->).
    pose proof (size_delete_In _ _ _ Hin). cbn [fst]. lia.
  - rewrite enforceRoomLimit_below by exact Hlt. lia.
Qed.

Lemma sweepExpired_size now rs : JsMap.size (sweepExpired now rs) <= JsMap.size rs.
Proof.
  unfold JsMap.size, sweepExpired.
  pose proof (filter_length_le (fun e : JsVal * Room.t => negb (isExpired now (snd e))) rs).
  lia.
Qed.

Lemma roomCleanupInterval_within now st :
  JsMap.size (rooms st) <= MAX_ROOMS ->
  rooms (roomCleanupInterval now st) = sweepExpired now (rooms st).
Proof.
  intros Hle. unfold roomCleanupInterval.
  pose proof (sweepExpired_size now (rooms st)).
  destruct (Z.ltb_spec MAX_ROOMS (JsMap.size (sweepExpired now (rooms st)))); [lia|].
  reflexivity.
Qed.

(** *** The size bound is an invariant of every operation *)

Lemma post_announce_bound data now st :
  JsMap.size (rooms st) <= MAX_ROOMS ->
  JsMap.size (rooms (snd (post_announce data now st))) <= MAX_ROOMS.
Proof.
  intros Hle. rewrite post_announce_eq. cbv zeta.
  destruct (fst (validateAnnouncement data now st)); cbn [snd].
  - cbn [rooms setRooms].
    pose proof (enforceRoomLimit_size (rooms st)) as [Hs1 Hs2].
    match goal with
    | |- JsMap.size (JsMap.set ?k ?v ?m) <= _ =>
        destruct (JsMap.get k m) as [d|] eqn:Hg;
        [rewrite (size_set_present _ _ _ Hg)|rewrite (size_set_absent _ _ _ Hg)]
    end; lia.
  - now rewrite validateAnnouncement_rooms.
Qed.

Lemma rateLimit_rooms ip isPost now st :
  rooms (snd (rateLimit ip isPost now st)) = rooms st.
Proof.
  unfold rateLimit.
  destruct DISABLE_RATE_LIMIT; [reflexivity|].
  destruct (isIPBlocked ip now (blockedIPs st)) as [[why|] blocked];
    destruct (isLocalhost ip); try reflexivity.
  destruct (JsMap.get ip (rateLimitMap st)) as [d|];
    [destruct (resetTime d <? now)|]; destruct isPost; cbv zeta beta iota;
    match goal with
    | |- rooms (snd (if ?c then _ else _)) = _ => destruct c; reflexivity
    end.
Qed.

Lemma get_announce_rooms q now st :
  rooms (snd (get_announce q now st)) = rooms st \/
  rooms (snd (get_announce q now st)) = sweepExpired now (rooms st).
Proof.
  unfold get_announce. destruct (validateQueryParams q); [|now left].
  right. cbn [rooms setRooms].
  destruct (filteredSorted q (sweepExpired now (rooms st))); reflexivity.
Qed.

Lemma applyOp_bound op st :
  JsMap.size (rooms st) <= MAX_ROOMS ->
  JsMap.size (rooms (applyOp op st)) <= MAX_ROOMS.
Proof.
  intros Hle. destruct op as [ip data now|ip q now|ip now|now|now|now|now]; cbn [applyOp].
  - unfold route_post_announce.
    pose proof (rateLimit_rooms ip true now st) as Hr.
    destruct (rateLimit ip true now st) as [[r|] st']; cbn [snd] in *.
    + now rewrite Hr.
    + apply post_announce_bound. now rewrite Hr.
  - unfold route_get_announce.
    pose proof (rateLimit_rooms ip false now st) as Hr.
    destruct (rateLimit ip false now st) as [[r|] st']; cbn [snd] in *.
    + now rewrite Hr.
    + pose proof (sweepExpired_size now (rooms st')).
      destruct (get_announce_rooms q now st') as [-> | ->]; rewrite ?Hr in *; lia.
  - unfold route_get_scrape.
    pose proof (rateLimit_rooms ip false now st) as Hr.
    destruct (rateLimit ip false now st) as [[r|] st']; cbn [snd] in *.
    + now rewrite Hr.
    + unfold get_scrape. cbn [snd rooms setRooms].
      pose proof (sweepExpired_size now (rooms st')). rewrite Hr in *. lia.
  - rewrite roomCleanupInterval_within by exact Hle.
    pose proof (sweepExpired_size now (rooms st)). lia.
  - exact Hle.
  - exact Hle.
  - exact Hle.
Qed.

Lemma runOps_bound ops :
  forall st, JsMap.size (rooms st) <= MAX_ROOMS ->
             JsMap.size (rooms (runOps ops st)) <= MAX_ROOMS.
Proof.
  unfold runOps. induction ops as [|op ops IH]; intros st Hle; [exact Hle|].
  cbn [fold_left]. apply IH. now apply applyOp_bound.
Qed.

Lemma get_delete_none (k k' : JsVal) (rs : list (JsVal * Room.t)) :
  JsMap.get k rs = None -> JsMap.get k (JsMap.delete k' rs) = None.
Proof.
  intros Hg. destruct (JsVal_eqb_spec k' k) as [->|Hne].
  - apply get_delete_same.
  - now rewrite get_delete_other.
Qed.

(** C2, as amended (capacity): when the registry holds exactly MAX_ROOMS
    rooms and the [createdAt] of each is a number (which the code does not
    ensure: it stores the [createdAt] of the request as it comes), a valid
    announcement of a room that is not in the
    registry deletes one room, whose [createdAt] no other room's is smaller
    than, keeps every other room, and stores the new room, so that the
    registry holds MAX_ROOMS rooms again; and after any history of requests
    and timer callbacks from the start of the process the registry holds at
    most MAX_ROOMS rooms. *)
Theorem capacity_eviction_and_bound (data : Data.t) (now : Z) (st : State) :
  fst (validateAnnouncement data now st) = [] ->
  JsMap.size (rooms st) = MAX_ROOMS ->
  NoDup (JsMap.keys (rooms st)) ->
  numericCreatedAt (rooms st) ->
  JsMap.get (Data.roomId data) (rooms st) = None ->
  let st' := snd (post_announce data now st) in
  (exists oldestId oldest,
     In (oldestId, oldest) (rooms st) /\
     (forall e z0 z, In e (rooms st) ->
        Room.createdAt oldest = JNum z0 -> Room.createdAt (snd e) = JNum z -> z0 <= z) /\
     fst (post_announce data now st) = RespRoom (newRoom data now) /\
     rooms st' = JsMap.delete oldestId (rooms st) ++ [(Data.roomId data, newRoom data now)] /\
     JsMap.get oldestId (rooms st') = None /\
     (forall k, k <> oldestId -> k <> Data.roomId data ->
        JsMap.get k (rooms st') = JsMap.get k (rooms st)) /\
     JsMap.get (Data.roomId data) (rooms st') = Some (newRoom data now) /\
     JsMap.size (rooms st') = MAX_ROOMS) /\
  (forall ops, JsMap.size (rooms (runOps ops initialState)) <= MAX_ROOMS).
Proof.
  intros Hval Hsize Hnd Hnum Hnew st'.
  split; [|intros ops; apply runOps_bound; cbn; unfold MAX_ROOMS; lia].
  destruct (enforceRoomLimit_full (rooms st)) as ([k0 r0] & rest & Hsort & Hin & Hdel);
    [lia|].
  cbn [fst] in Hdel.
  assert (Hnew' : JsMap.get (Data.roomId data) (JsMap.delete k0 (rooms st)) = None)
    by now apply get_delete_none.
  assert (Hne : Data.roomId data <> k0).
  { intros Heq. subst k0. apply In_get_some in Hin as [v Hv]. congruence. }
  assert (Hst' : rooms st' =
                 JsMap.set (Data.roomId data) (newRoom data now) (JsMap.delete k0 (rooms st))).
  { unfold st'. rewrite post_announce_eq, Hval. cbv zeta. rewrite Hdel, Hnew'. reflexivity. }
  exists k0, r0. split; [exact Hin|]. split.
  - intros e z0 z He Hz0 Hz.
    destruct (jsSort_head_min byCreatedAt
                (fun e => nanToZero (createdAtNumber (snd e))) (rooms st)
                (byCreatedAt_numeric Hnum) Hsort) as [_ Hmin].
    specialize (Hmin e He). unfold createdAtNumber in Hmin. cbn [snd] in Hmin.
    now rewrite Hz0, Hz in Hmin.
  - split.
    { rewrite post_announce_eq, Hval. cbv zeta. now rewrite Hdel, Hnew'. }
    rewrite Hst'. split; [now apply set_absent|]. split.
    { rewrite get_set_other by exact Hne. apply get_delete_same. }
    split.
    { intros k Hk0 Hkid. rewrite get_set_other by congruence.
      apply get_delete_other. congruence. }
    split; [apply get_set_same|].
    rewrite (size_set_absent _ _ _ Hnew'), (size_delete_NoDup _ _ _ Hnd Hin). lia.
Qed.

(** C1, as amended (merge on update): when the registry is below MAX_ROOMS
    and holds a room under [data.roomId], an announcement that passes the
    validation is answered with the updated room, which stays at its place
    in the registry with every other room untouched; its [roomId] and
    [createdAt] are unchanged and its [updatedAt] is [now]; each of
    gameType, public, the player-2 fields, stateChannelCoinId, wagerAmount
    and activeGameId takes the announced value when the announcement has the
    property (null included) and keeps its value otherwise; each of status,
    appBaseUrl and the player-1 fields takes the announced value when that
    is truthy and keeps its value otherwise (so null and the empty string
    leave it as it was). *)
Theorem update_merges_supplied_fields
    (data : Data.t) (now : Z) (st : State) (room : Room.t) :
  fst (validateAnnouncement data now st) = [] ->
  JsMap.size (rooms st) < MAX_ROOMS ->
  JsMap.get (Data.roomId data) (rooms st) = Some room ->
  let st' := snd (post_announce data now st) in
  exists room',
    fst (post_announce data now st) = RespRoom room' /\
    JsMap.get (Data.roomId data) (rooms st') = Some room' /\
    JsMap.keys (rooms st') = JsMap.keys (rooms st) /\
    (forall k, k <> Data.roomId data -> JsMap.get k (rooms st') = JsMap.get k (rooms st)) /\
    Room.roomId room' = Room.roomId room /\
    Room.createdAt room' = Room.createdAt room /\
    Room.updatedAt room' = JNum now /\
    Forall (fun '(d, r) => r room' = if isDefined (d data) then d data else r room)
           fieldsSetWhenDefined /\
    Forall (fun '(d, r) => r room' = if truthy (d data) then d data else r room)
           fieldsSetWhenTruthy.
Proof.
  intros Hval Hsize Hget st'.
  assert (Hpost : post_announce data now st =
                  (RespRoom (updateRoom room data now),
                   setRooms (JsMap.set (Data.roomId data) (updateRoom room data now) (rooms st))
                            (snd (validateAnnouncement data now st)))).
  { rewrite post_announce_eq, Hval. cbv zeta.
    rewrite enforceRoomLimit_below by exact Hsize. now rewrite Hget. }
  exists (updateRoom room data now). unfold st'. rewrite Hpost. cbn [fst snd rooms setRooms].
  split; [reflexivity|]. split; [apply get_set_same|].
  split; [apply (keys_set_present _ _ _ Hget)|].
  split; [intros k Hk; apply get_set_other; congruence|].
  repeat split; repeat constructor.
Qed.

(** ** Facts about slices and pages *)

Section SliceFacts.
Context {A : Type}.
Implicit Types (l : list A).

Lemma firstn_min_length (n : nat) l :
  firstn (Nat.min n (List.length l)) l = firstn n l.
Proof.
  destruct (Nat.le_gt_cases n (List.length l)) as [Hle|Hgt].
  - now rewrite Nat.min_l.
  - rewrite Nat.min_r by lia. rewrite firstn_all. symmetry. apply firstn_all2. lia.
Qed.

(** [l.slice(k, k + n)] for an offset and a limit that are not negative. *)
Lemma jsSlice_page (k n : Z) l :
  0 <= k -> 0 <= n ->
  jsSlice k (k + n) l = firstn (Z.to_nat n) (skipn (Z.to_nat k) l).
Proof.
  intros Hk Hn. unfold jsSlice, sliceIndex.
  destruct (Z.ltb_spec k 0); [lia|]. destruct (Z.ltb_spec (k + n) 0); [lia|].
  destruct (Z.le_gt_cases (Z.of_nat (List.length l)) k) as [Hout|Hin].
  - rewrite !Z.min_r by lia. rewrite !Nat2Z.id.
    rewrite skipn_all. rewrite (skipn_all2 l) by lia. now rewrite !firstn_nil.
  - rewrite (Z.min_l k) by lia.
    replace (Z.to_nat (Z.min (k + n) (Z.of_nat (List.length l))) - Z.to_nat k)%nat
      with (Nat.min (Z.to_nat n) (List.length (skipn (Z.to_nat k) l)))
      by (rewrite length_skipn; lia).
    apply firstn_min_length.
Qed.

Lemma page_length (k n : Z) l :
  0 <= k -> 0 <= n ->
  Z.of_nat (List.length (firstn (Z.to_nat n) (skipn (Z.to_nat k) l))) =
    Z.min n (Z.max 0 (Z.of_nat (List.length l) - k)).
Proof. intros Hk Hn. rewrite length_firstn, length_skipn. lia. Qed.

Lemma In_firstn (n : nat) l x : In x (firstn n l) -> In x l.
Proof.
  intros Hin. rewrite <- (firstn_skipn n l). apply in_or_app. now left.
Qed.

Lemma In_skipn (n : nat) l x : In x (skipn n l) -> In x l.
Proof.
  intros Hin. rewrite <- (firstn_skipn n l). apply in_or_app. now right.
Qed.

Lemma jsSlice_incl (s e : Z) l x : In x (jsSlice s e l) -> In x l.
Proof.
  unfold jsSlice. intros Hin. eapply In_skipn, In_firstn, Hin.
Qed.

(** Consecutive pages of [n] elements, enough of them to reach the end,
    make up the list. *)
Lemma pages_concat (n : nat) :
  (0 < n)%nat ->
  forall (m : nat) l, (List.length l <= m * n)%nat ->
    List.concat (map (fun i => firstn n (skipn (i * n) l)) (seq 0 m)) = l.
Proof.
  intros Hn. induction m as [|m IH]; intros l Hlen.
  - simpl in *. destruct l; [reflexivity|simpl in Hlen; lia].
  - cbn [seq map List.concat]. rewrite <- seq_shift, map_map.
    transitivity (firstn n l ++ skipn n l); [|apply firstn_skipn].
    f_equal.
    rewrite <- (IH (skipn n l)) by (rewrite length_skipn; lia).
    f_equal. apply map_ext. intros i.
    rewrite skipn_skipn. do 2 f_equal. lia.
Qed.

Lemma map_by_index {B : Type} (g : A -> B) (h : nat -> B) l :
  forall start,
    (forall i x, nth_error l i = Some x -> g x = h (start + i)%nat) ->
    map g l = map h (seq start (List.length l)).
Proof.
  induction l as [|x l IH]; intros start Hgh; [reflexivity|].
  cbn [map List.length seq]. f_equal.
  - rewrite (Hgh 0%nat x eq_refl). f_equal. lia.
  - apply IH. intros i y Hy. rewrite (Hgh (S i) y Hy). f_equal. lia.
Qed.
End SliceFacts.

Lemma filterThrowing_incl {A : Type} (f : A -> option bool) (l l' : list A) :
  filterThrowing f l = Some l' -> incl l' l.
Proof.
  revert l'. induction l as [|x l IH]; intros l' Hf; simpl in Hf.
  - injection Hf as <-. apply incl_refl.
  - destruct (f x) as [keep|]; [|discriminate].
    destruct (filterThrowing f l) as [rest|]; [|discriminate].
    injection Hf as <-. specialize (IH rest eq_refl).
    destruct keep.
    + intros y [<-|Hy]; [now left|right; now apply IH].
    + intros y Hy. right. now apply IH.
Qed.

Lemma sortRooms_In sort l r : In r (sortRooms sort l) <-> In r l.
Proof.
  unfold sortRooms.
  destruct (JsVal_eqb sort (JStr "oldest")); [apply jsSort_In|].
  destruct (JsVal_eqb sort (JStr "wager_high")); [apply jsSort_In|].
  destruct (JsVal_eqb sort (JStr "wager_low")); apply jsSort_In.
Qed.

(** The list that is paginated holds rooms of the registry only. *)
Lemma filteredSorted_incl q rs L :
  filteredSorted q rs = Some L -> incl L (JsMap.values rs).
Proof.
  unfold filteredSorted. cbv zeta. intros HL r Hr.
  match type of HL with
  | option_map _ ?l5 = _ => destruct l5 as [l5'|] eqn:H5; [|discriminate]
  end.
  injection HL as <-. apply sortRooms_In in Hr.
  unfold filterSearch in H5.
  assert (H4 : In r (filterWager (parseIntOr (Query.minWager q) 0)
                       match parseInt (Query.maxWager q) with
                       | Some n => if n =? 0 then None else Some n
                       | None => None
                       end
                       (filterStatus (jsOr (Query.status q) (JStr "all"))
                          (filterGameType (jsOr (Query.gameType q) (JStr "all"))
                             (filterVisible
                                (JsVal_eqb (Query.includePrivate q) (JStr "true")
                                 || JsVal_eqb (Query.includePrivate q) (JStr "1"))
                                (JsMap.values rs)))))).
  { destruct (negb _) in H5.
    - now apply (filterThrowing_incl _ _ H5).
    - injection H5 as <-. exact Hr. }
  apply filter_In in H4 as [H3 _].
  unfold filterStatus in H3. destruct (_ && _) in H3; [apply filter_In in H3 as [H3 _]|];
    unfold filterGameType in H3;
    (destruct (_ && _) in H3; [apply filter_In in H3 as [H3 _]|]);
    unfold filterVisible in H3;
    (destruct (negb _) in H3; [apply filter_In in H3 as [H3 _]|]); exact H3.
Qed.

Lemma filteredSorted_sameFilters q q' rs :
  sameFilters q q' -> filteredSorted q rs = filteredSorted q' rs.
Proof.
  intros (Hg & Hs & Hse & Hmin & Hmax & Hso & Hip).
  unfold filteredSorted. now rewrite Hg, Hs, Hse, Hmin, Hmax, Hso, Hip.
Qed.

Lemma effectiveOffset_nonneg q : 0 <= effectiveOffset q.
Proof. unfold effectiveOffset. lia. Qed.

Lemma effectiveLimit_range q : 1 <= effectiveLimit q <= 200.
Proof. unfold effectiveLimit. lia. Qed.

Lemma validated_offset q k0 :
  validateQueryParams q = [] -> parseInt (Query.offset q) = Some k0 ->
  effectiveOffset q = k0.
Proof.
  unfold validateQueryParams. intros Hv Hp.
  apply app_eq_nil in Hv as [Hv _].
  unfold effectiveOffset, parseIntOr. rewrite Hp in *.
  destruct (Query.offset q); try discriminate; cbn in Hv;
    destruct (Z.ltb_spec k0 0); try discriminate;
    destruct (Z.eqb_spec k0 0); lia.
Qed.

Lemma validated_limit q n0 :
  validateQueryParams q = [] -> parseInt (Query.limit q) = Some n0 ->
  effectiveLimit q = n0.
Proof.
  unfold validateQueryParams. intros Hv Hp.
  apply app_eq_nil in Hv as [_ Hv]. apply app_eq_nil in Hv as [Hv _].
  unfold effectiveLimit, parseIntOr. rewrite Hp in *.
  destruct (Query.limit q); try discriminate; cbn in Hv;
    destruct (Z.ltb_spec n0 1); try discriminate;
    destruct (Z.ltb_spec 200 n0); try discriminate;
    destruct (Z.eqb_spec n0 0); lia.
Qed.

(** The answer of the handler to a query that passes the validation, when
    the search filter does not throw. *)
Lemma get_announce_page q now st L :
  validateQueryParams q = [] ->
  filteredSorted q (sweepExpired now (rooms st)) = Some L ->
  get_announce q now st =
    (let page := firstn (Z.to_nat (effectiveLimit q)) (skipn (Z.to_nat (effectiveOffset q)) L) in
     RespRooms (Z.of_nat (List.length page)) (Z.of_nat (List.length L))
               (effectiveOffset q) (effectiveLimit q) page,
     setRooms (sweepExpired now (rooms st)) st).
Proof.
  intros Hv HL. unfold get_announce. rewrite Hv. cbn [rooms setRooms]. rewrite HL.
  pose proof (effectiveOffset_nonneg q). pose proof (effectiveLimit_range q).
  rewrite jsSlice_page by lia. reflexivity.
Qed.

(** C6 (pagination): for a query that passes the validation and whose
    filters and sort yield the list [L] of [T] rooms, the handler answers
    with [total = T] and with the rooms of [L] at the positions from the
    offset [k] up to, not including, [k + n], [n] being the limit: that is
    [min n (max 0 (T - k))] rooms, none when [k] reaches [T]; [k] and [n]
    are the numbers the query carries; and the pages of [n] rooms at the
    offsets [0], [n], [2 n], ... under the same filters, one after the
    other, are [L]. *)
Theorem pagination_slices_filtered_list
    (q : Query.t) (now : Z) (st : State) (L : list Room.t) :
  validateQueryParams q = [] ->
  filteredSorted q (sweepExpired now (rooms st)) = Some L ->
  let k := effectiveOffset q in
  let n := effectiveLimit q in
  let T := Z.of_nat (List.length L) in
  let page := firstn (Z.to_nat n) (skipn (Z.to_nat k) L) in
  fst (get_announce q now st) = RespRooms (Z.of_nat (List.length page)) T k n page /\
  Z.of_nat (List.length page) = Z.min n (Z.max 0 (T - k)) /\
  (T <= k -> page = []) /\
  (forall k0, parseInt (Query.offset q) = Some k0 -> k = k0) /\
  (forall n0, parseInt (Query.limit q) = Some n0 -> n = n0) /\
  (forall qs : list Query.t,
     (forall i qi, nth_error qs i = Some qi ->
        sameFilters q qi /\ validateQueryParams qi = [] /\
        parseInt (Query.offset qi) = Some (Z.of_nat i * n) /\
        parseInt (Query.limit qi) = Some n) ->
     T <= Z.of_nat (List.length qs) * n ->
     List.concat (map (fun qi => pageOf (fst (get_announce qi now st))) qs) = L).
Proof.
  intros Hv HL k n T page.
  pose proof (effectiveOffset_nonneg q) as Hk.
  pose proof (effectiveLimit_range q) as Hn.
  split; [now rewrite (get_announce_page q now st Hv HL)|].
  split; [apply page_length; fold n; fold k; lia|].
  split.
  { intros HT. unfold page. rewrite skipn_all2 by (unfold T, k in *; lia).
    apply firstn_nil. }
  split; [intros k0; now apply validated_offset|].
  split; [intros n0; now apply validated_limit|].
  intros qs Hqs Hlen.
  rewrite (map_by_index (fun qi => pageOf (fst (get_announce qi now st)))
             (fun i => firstn (Z.to_nat n) (skipn (i * Z.to_nat n) L)) qs 0).
  - apply pages_concat; [fold n in Hn; lia|]. unfold T in Hlen. fold n in Hn. nia.
  - intros i qi Hi. destruct (Hqs i qi Hi) as (Hsame & Hvi & Hoff & Hlim).
    assert (HLi : filteredSorted qi (sweepExpired now (rooms st)) = Some L)
      by (now rewrite <- (filteredSorted_sameFilters _ Hsame)).
    rewrite (get_announce_page qi now st Hvi HLi).
    cbn [fst pageOf].
    rewrite (validated_offset qi Hvi Hoff), (validated_limit qi Hvi Hlim).
    do 2 f_equal. fold n in Hn. cbn [Nat.add]. nia.
Qed.

(** ** Facts about the sweep *)

Lemma sweepExpired_In now rs e :
  In e (sweepExpired now rs) <-> In e rs /\ isExpired now (snd e) = false.
Proof.
  unfold sweepExpired. rewrite filter_In, negb_true_iff. reflexivity.
Qed.

Lemma values_sweepExpired now rs room :
  In room (JsMap.values (sweepExpired now rs)) ->
  In room (JsMap.values rs) /\ isExpired now room = false.
Proof.
  unfold JsMap.values. intros Hin.
  apply in_map_iff in Hin as (e & <- & He). apply sweepExpired_In in He as [He Hex].
  split; [now apply in_map|exact Hex].
Qed.

(** C5 (expiry): a room is expired at [now] when its last activity, which
    is [updatedAt] when that is set and [createdAt] otherwise, lies more
    than PEER_TIMEOUT seconds before [now].  The sweep removes the expired
    rooms and no other; GET /announce with a valid query and GET /scrape
    leave the swept registry behind and answer from it, so that no room of a
    page is expired and the statistics count the rooms that are not
    expired; the periodic callback leaves the swept registry behind too. *)
Theorem expired_rooms_are_swept (q : Query.t) (now : Z) (st : State) :
  JsMap.size (rooms st) <= MAX_ROOMS ->
  validateQueryParams q = [] ->
  (forall room, lastActivity room =
                if truthy (Room.updatedAt room) then Room.updatedAt room
                else Room.createdAt room) /\
  (forall room t, lastActivity room = JNum t -> t <> 0 ->
     (isExpired now room = true <-> PEER_TIMEOUT * 1000 < now - t)) /\
  (forall e, In e (sweepExpired now (rooms st)) <->
             In e (rooms st) /\ isExpired now (snd e) = false) /\
  rooms (snd (get_announce q now st)) = sweepExpired now (rooms st) /\
  (forall room, In room (pageOf (fst (get_announce q now st))) ->
     In room (JsMap.values (rooms st)) /\ isExpired now room = false) /\
  get_scrape now st =
    (statsOf (JsMap.values (sweepExpired now (rooms st))),
     setRooms (sweepExpired now (rooms st)) st) /\
  (exists byGameType byStatus,
     fst (get_scrape now st) =
       RespStats (Z.of_nat (List.length
                    (filter (fun e => negb (isExpired now (snd e))) (rooms st))))
                 byGameType byStatus) /\
  rooms (roomCleanupInterval now st) = sweepExpired now (rooms st).
Proof.
  intros Hsize Hv.
  split; [reflexivity|]. split.
  { intros room t Ht Hnz. unfold isExpired. rewrite Ht. cbn.
    destruct (Z.eqb_spec t 0); [contradiction|]. cbn.
    destruct (Z.ltb_spec (PEER_TIMEOUT * 1000) (now - t)); split; intros;
      try lia; try discriminate; auto. }
  split; [intros e; apply sweepExpired_In|].
  split.
  { unfold get_announce. rewrite Hv. cbn [rooms setRooms].
    destruct (filteredSorted q (sweepExpired now (rooms st))); reflexivity. }
  split.
  { intros room Hin. unfold get_announce in Hin. rewrite Hv in Hin.
    cbn [rooms setRooms] in Hin.
    destruct (filteredSorted q (sweepExpired now (rooms st))) as [L|] eqn:HL;
      cbn [fst pageOf] in Hin; [|contradiction].
    apply jsSlice_incl in Hin. apply (filteredSorted_incl _ _ HL) in Hin.
    now apply values_sweepExpired in Hin. }
  split; [reflexivity|].
  split.
  { unfold get_scrape, statsOf. cbn [fst rooms setRooms].
    do 2 eexists. unfold JsMap.values. rewrite length_map. reflexivity. }
  now apply roomCleanupInterval_within.
Qed.

(** ** Facts about the replay guard *)

Lemma setHas_In v s : setHas v s = true <-> In v s.
Proof.
  unfold setHas. rewrite existsb_exists. split.
  - intros (x & Hin & Heq). destruct (JsVal_eqb_spec v x); [now subst|discriminate].
  - intros Hin. exists v. split; [exact Hin|]. now destruct (JsVal_eqb_spec v v).
Qed.

Lemma setHas_false v s : setHas v s = false <-> ~ In v s.
Proof.
  rewrite <- setHas_In. destruct (setHas v s); split; congruence.
Qed.

Lemma setDelete_In v s x : In x (setDelete v s) <-> In x s /\ x <> v.
Proof.
  unfold setDelete. rewrite filter_In, negb_true_iff.
  destruct (JsVal_eqb_spec v x); split; intros [? ?]; split; congruence.
Qed.

Lemma setAdd_new v s : setHas v s = false -> setAdd v s = s ++ [v].
Proof. unfold setAdd. now intros ->. Qed.

Lemma setAdd_has v s : setHas v (setAdd v s) = true.
Proof.
  unfold setAdd. destruct (setHas v s) eqn:Hh; [exact Hh|].
  apply setHas_In, in_or_app. right. now left.
Qed.

Lemma setDelete_length v s : (List.length (setDelete v s) <= List.length s)%nat.
Proof. apply filter_length_le. Qed.

(** The nonce block for a nonce that is present. *)
Lemma checkNonce_present nonce now st :
  truthy nonce = true ->
  checkNonce nonce now st =
    let timers := nonceTimers st ++ [(now + NONCE_CLEANUP_INTERVAL, nonce)] in
    if setHas nonce (usedNonces st) then
      ([duplicateNonce], setNonces (usedNonces st) timers st)
    else if MAX_NONCES <=? Z.of_nat (List.length (usedNonces st)) then
      ([], setNonces (setAdd nonce (setDelete (hd JUndef (usedNonces st))
                                      (usedNonces st))) timers st)
    else ([], setNonces (setAdd nonce (usedNonces st)) timers st).
Proof. intros Htruthy. unfold checkNonce. now rewrite Htruthy. Qed.

Lemma checkNonce_fresh nonce now st :
  truthy nonce = true -> setHas nonce (usedNonces st) = false ->
  fst (checkNonce nonce now st) = [] /\
  setHas nonce (usedNonces (snd (checkNonce nonce now st))) = true.
Proof.
  intros Htruthy Hnew. rewrite (@checkNonce_present nonce now st Htruthy). cbv zeta. rewrite Hnew.
  destruct (MAX_NONCES <=? Z.of_nat (List.length (usedNonces st)));
    cbn [fst snd usedNonces setNonces]; split; auto using setAdd_has.
Qed.

Lemma checkNonce_duplicate nonce now st :
  truthy nonce = true -> setHas nonce (usedNonces st) = true ->
  fst (checkNonce nonce now st) = [duplicateNonce] /\
  usedNonces (snd (checkNonce nonce now st)) = usedNonces st.
Proof.
  intros Htruthy Hdup. rewrite (@checkNonce_present nonce now st Htruthy). cbv zeta. rewrite Hdup.
  now split.
Qed.

(** The nonce block on a nonce that is present: what it reports and
    what it records. *)
Lemma checkNonce_on_present_nonce (nonce : JsVal) (now : Z) (st : State) :
  truthy nonce = true ->
  let errors := fst (checkNonce nonce now st) in
  let st' := snd (checkNonce nonce now st) in
  (setHas nonce (usedNonces st) = false ->
     errors = [] /\ setHas nonce (usedNonces st') = true) /\
  (setHas nonce (usedNonces st) = true ->
     errors = [duplicateNonce] /\ usedNonces st' = usedNonces st) /\
  (setHas nonce (usedNonces st) = false ->
   MAX_NONCES <= Z.of_nat (List.length (usedNonces st)) ->
     exists oldest rest,
       usedNonces st = oldest :: rest /\
       usedNonces st' = setDelete oldest rest ++ [nonce] /\
       ~ In oldest (usedNonces st') /\
       (forall x, In x (usedNonces st) -> x <> oldest -> In x (usedNonces st')) /\
       (List.length (usedNonces st') <= List.length (usedNonces st))%nat) /\
  (setHas nonce (usedNonces st) = false ->
   Z.of_nat (List.length (usedNonces st)) < MAX_NONCES ->
     usedNonces st' = usedNonces st ++ [nonce]) /\
  (forall data, Data.nonce data = nonce ->
     validateAnnouncement data now st = (validateFields data now ++ errors, st')).
Proof.
  intros Htruthy errors st'.
  split; [now apply checkNonce_fresh|].
  split; [now apply checkNonce_duplicate|].
  split; [|split];
    [unfold errors, st'; rewrite (@checkNonce_present nonce now st Htruthy); cbv zeta ..|].
  - intros Hnew Hfull. rewrite Hnew.
    destruct (Z.leb_spec MAX_NONCES (Z.of_nat (List.length (usedNonces st)))); [|lia].
    cbn [fst snd usedNonces setNonces].
    destruct (usedNonces st) as [|oldest rest] eqn:Hused;
      [unfold MAX_NONCES in Hfull; cbn in Hfull; lia|].
    exists oldest, rest. cbn [hd].
    assert (Hne : nonce <> oldest).
    { intros ->. apply setHas_false in Hnew. apply Hnew. now left. }
    assert (Hdel : setDelete oldest (oldest :: rest) = setDelete oldest rest).
    { unfold setDelete. cbn [filter]. now destruct (JsVal_eqb_spec oldest oldest). }
    assert (Hfresh : setHas nonce (setDelete oldest rest) = false).
    { apply setHas_false. intros Hin. apply setDelete_In in Hin as [Hin _].
      apply setHas_false in Hnew. apply Hnew. now right. }
    rewrite Hdel, (setAdd_new _ _ Hfresh).
    split; [reflexivity|]. split; [reflexivity|]. split.
    { intros Hin. apply in_app_or in Hin as [Hin|[Heq|[]]].
      - apply setDelete_In in Hin as [_ Hx]. congruence.
      - congruence. }
    split.
    { intros x [Hx|Hx] Hxne; [congruence|].
      apply in_or_app. left. apply setDelete_In. now split. }
    rewrite length_app. cbn [List.length].
    pose proof (setDelete_length oldest rest). lia.
  - intros Hnew Hroom. rewrite Hnew.
    destruct (Z.leb_spec MAX_NONCES (Z.of_nat (List.length (usedNonces st)))); [lia|].
    cbn [fst snd usedNonces setNonces]. now apply setAdd_new.
  - intros data <-. apply validateAnnouncement_eq.
Qed.

(** C9, as amended (replay guard): the nonce block of the validation acts
    on a nonce that is truthy: a string that is not empty, a number other
    than 0, or true.  For such a nonce it reports no error and records the
    nonce when it is not recorded, and reports the duplicate, leaving the
    set as it is, when it is recorded; when the set holds MAX_NONCES
    entries or more, the entry inserted first is deleted and the new nonce
    is recorded all the same, every other entry staying; below that size
    the nonce is appended.  Any other nonce (absent, null, false, 0 or the
    empty string) is neither checked nor recorded: the block reports
    nothing and changes nothing, however often the nonce is sent.  The
    errors of [validateAnnouncement] are those of the field checks followed
    by those of the nonce block. *)
Theorem replay_guard_records_and_rejects (nonce : JsVal) (now : Z) (st : State) :
  let errors := fst (checkNonce nonce now st) in
  let st' := snd (checkNonce nonce now st) in
  (truthy nonce = true ->
     (setHas nonce (usedNonces st) = false ->
        errors = [] /\ setHas nonce (usedNonces st') = true) /\
     (setHas nonce (usedNonces st) = true ->
        errors = [duplicateNonce] /\ usedNonces st' = usedNonces st) /\
     (setHas nonce (usedNonces st) = false ->
      MAX_NONCES <= Z.of_nat (List.length (usedNonces st)) ->
        exists oldest rest,
          usedNonces st = oldest :: rest /\
          usedNonces st' = setDelete oldest rest ++ [nonce] /\
          ~ In oldest (usedNonces st') /\
          (forall x, In x (usedNonces st) -> x <> oldest -> In x (usedNonces st')) /\
          (List.length (usedNonces st') <= List.length (usedNonces st))%nat) /\
     (setHas nonce (usedNonces st) = false ->
      Z.of_nat (List.length (usedNonces st)) < MAX_NONCES ->
        usedNonces st' = usedNonces st ++ [nonce])) /\
  (truthy nonce = false -> errors = [] /\ st' = st) /\
  (forall data, Data.nonce data = nonce ->
     validateAnnouncement data now st = (validateFields data now ++ errors, st')).
Proof.
  intros errors st'. split; [|split].
  - intros Htruthy.
    destruct (checkNonce_on_present_nonce nonce now st Htruthy)
      as (Hnew & Hdup & Hfull & Hroom & _).
    exact (conj Hnew (conj Hdup (conj Hfull Hroom))).
  - intros Hfalsy. unfold errors, st', checkNonce. rewrite Hfalsy. now split.
  - intros data <-. apply validateAnnouncement_eq.
Qed.

(** C10, as amended (validation writes): when an announcement carries a
    nonce that is truthy (a string that is not empty, a number other than
    0, or true) and not recorded, and one of its fields fails the validation,
    the handler answers 400 with the errors of the fields and leaves the
    rooms as they are, yet the nonce is recorded, so the set of nonces has
    changed; the same announcement sent again is answered 400 with the
    duplicate-nonce error among its errors, the rooms still unchanged.
    A 400 answer never comes with a change of the rooms. *)
Theorem rejected_announcement_still_records_nonce
    (data : Data.t) (now : Z) (st : State) :
  truthy (Data.nonce data) = true ->
  setHas (Data.nonce data) (usedNonces st) = false ->
  validateFields data now <> [] ->
  let st1 := snd (post_announce data now st) in
  fst (post_announce data now st) = Resp400 (validateFields data now) /\
  rooms st1 = rooms st /\
  setHas (Data.nonce data) (usedNonces st1) = true /\
  usedNonces st1 <> usedNonces st /\
  (forall now', exists errors,
     fst (post_announce data now' st1) = Resp400 errors /\
     In duplicateNonce errors /\
     rooms (snd (post_announce data now' st1)) = rooms st) /\
  (forall data' now' st0 errors,
     fst (post_announce data' now' st0) = Resp400 errors ->
     rooms (snd (post_announce data' now' st0)) = rooms st0).
Proof.
  intros Htruthy Hnew Hbad st1.
  destruct (@checkNonce_fresh (Data.nonce data) now st Htruthy Hnew) as [Herr Hhas].
  pose proof (validateAnnouncement_eq data now st) as Hval.
  rewrite Herr, app_nil_r in Hval.
  assert (Hpost : post_announce data now st =
                  (Resp400 (validateFields data now),
                   snd (checkNonce (Data.nonce data) now st))).
  { rewrite post_announce_eq, Hval. cbn [fst snd].
    destruct (validateFields data now); [contradiction|reflexivity]. }
  assert (Hrooms1 : rooms st1 = rooms st).
  { unfold st1. rewrite Hpost. apply checkNonce_rooms. }
  assert (Hhas1 : setHas (Data.nonce data) (usedNonces st1) = true).
  { unfold st1. now rewrite Hpost. }
  split; [now rewrite Hpost|]. split; [exact Hrooms1|]. split; [exact Hhas1|].
  split; [intros Heq; rewrite Heq in Hhas1; congruence|]. split.
  - intros now'.
    destruct (@checkNonce_duplicate (Data.nonce data) now' st1 Htruthy Hhas1) as [Herr' _].
    pose proof (validateAnnouncement_eq data now' st1) as Hval'.
    rewrite Herr' in Hval'.
    exists (validateFields data now' ++ [duplicateNonce]).
    rewrite post_announce_eq, Hval'. cbn [fst snd].
    destruct (validateFields data now' ++ [duplicateNonce]) as [|e es] eqn:Happ.
    + destruct (validateFields data now'); discriminate.
    + cbn [fst snd]. rewrite <- Happ. split; [reflexivity|]. split.
      * apply in_or_app. right. now left.
      * rewrite checkNonce_rooms. exact Hrooms1.
  - intros data' now' st0 errors. rewrite post_announce_eq. cbv zeta.
    destruct (fst (validateAnnouncement data' now' st0)); cbn [fst snd].
    + discriminate.
    + intros _. apply validateAnnouncement_rooms.
Qed.

(** A client whose window is over is counted from [freshData]: whatever
    [violations] the stored entry had, the entry left by the request has
    none, or one when this very request is over the quota. *)
Lemma rollover_starts_from_fresh ip isPost now st d :
  DISABLE_RATE_LIMIT = false ->
  isLocalhost ip = false ->
  JsMap.get ip (blockedIPs st) = None ->
  JsMap.get ip (rateLimitMap st) = Some d ->
  resetTime d < now ->
  JsMap.size (rateLimitMap st) <= MAX_RATE_LIMIT_ENTRIES ->
  exists d',
    JsMap.get ip (rateLimitMap (snd (rateLimit ip isPost now st))) = Some d' /\
    resetTime d' = now + RATE_LIMIT_WINDOW /\
    counterOf isPost d' = 1 /\
    violations d' = if thresholdOf isPost <? 1 then 1 else 0.
Proof.
  intros Hen Hloc Hblk Hget Hexp Hsize.
  assert (Hsz : JsMap.size (JsMap.set ip (freshData now) (rateLimitMap st))
                <= MAX_RATE_LIMIT_ENTRIES)
    by now rewrite (size_set_present _ _ _ Hget).
  assert (Hcur : currentData ip now st = freshData now).
  { unfold currentData. rewrite Hget.
    destruct (Z.ltb_spec (resetTime d) now); [reflexivity|lia]. }
  rewrite (rateLimit_counted Hen ip isPost now st Hloc Hblk Hsz).
  cbv zeta. rewrite Hcur, counterOf_bump.
  replace (counterOf isPost (freshData now) + 1) with 1
    by (unfold counterOf; destruct isPost; reflexivity).
  destruct (thresholdOf isPost <? 1); cbn [snd rateLimitMap setBlockedIPs setRateLimitMap];
    rewrite get_set_same; eexists; (split; [reflexivity|]);
    destruct isPost; repeat split.
Qed.

Lemma distinct_NoDup l : distinct l = true -> NoDup l.
Proof.
  induction l as [|x l IH]; simpl; [constructor|].
  intros Hd. apply andb_true_iff in Hd as [Hx Hl].
  constructor; [|auto]. apply setHas_false. now apply negb_true_iff.
Qed.

Lemma exampleRegistry_numeric n : numericCreatedAt (exampleRegistry n).
Proof.
  intros e Hin. unfold exampleRegistry in Hin.
  apply in_map_iff in Hin as (i & <- & _). eexists. reflexivity.
Qed.

(** ** Invariants of the reachable states *)

(** The registry has one record per key. *)
Lemma enforceRoomLimit_NoDup rs :
  NoDup (JsMap.keys rs) -> NoDup (JsMap.keys (enforceRoomLimit rs)).
Proof.
  intros Hnd. unfold enforceRoomLimit.
  destruct (MAX_ROOMS <=? JsMap.size rs); [|exact Hnd].
  destruct (jsSort byCreatedAt rs); [exact Hnd|]. now apply NoDup_keys_delete.
Qed.

Lemma fold_delete_NoDup (dead : list (JsVal * Room.t)) :
  forall rs : list (JsVal * Room.t), NoDup (JsMap.keys rs) ->
    NoDup (JsMap.keys (fold_left (fun acc e => JsMap.delete (fst e) acc) dead rs)).
Proof.
  induction dead as [|e dead IH]; intros rs Hnd; [exact Hnd|].
  cbn [fold_left]. apply IH. now apply NoDup_keys_delete.
Qed.

Lemma applyOp_NoDup op st :
  NoDup (JsMap.keys (rooms st)) -> NoDup (JsMap.keys (rooms (applyOp op st))).
Proof.
  intros Hnd. destruct op as [ip data now|ip q now|ip now|now|now|now|now]; cbn [applyOp].
  - unfold route_post_announce.
    pose proof (rateLimit_rooms ip true now st) as Hr.
    destruct (rateLimit ip true now st) as [[r|] st']; cbn [snd] in *.
    + now rewrite Hr.
    + rewrite post_announce_eq. cbv zeta.
      destruct (fst (validateAnnouncement data now st')); cbn [snd rooms setRooms].
      * apply NoDup_keys_set, enforceRoomLimit_NoDup. now rewrite Hr.
      * rewrite validateAnnouncement_rooms. now rewrite Hr.
  - unfold route_get_announce.
    pose proof (rateLimit_rooms ip false now st) as Hr.
    destruct (rateLimit ip false now st) as [[r|] st']; cbn [snd] in *.
    + now rewrite Hr.
    + destruct (get_announce_rooms q now st') as [-> | ->]; rewrite Hr;
        [exact Hnd|now apply NoDup_keys_filter].
  - unfold route_get_scrape.
    pose proof (rateLimit_rooms ip false now st) as Hr.
    destruct (rateLimit ip false now st) as [[r|] st']; cbn [snd] in *.
    + now rewrite Hr.
    + unfold get_scrape. cbn [snd rooms setRooms]. rewrite Hr.
      now apply NoDup_keys_filter.
  - unfold roomCleanupInterval.
    destruct (MAX_ROOMS <? JsMap.size (sweepExpired now (rooms st))); cbn [rooms setRooms].
    + apply fold_delete_NoDup. now apply NoDup_keys_filter.
    + now apply NoDup_keys_filter.
  - exact Hnd.
  - exact Hnd.
  - exact Hnd.
Qed.

Lemma runOps_NoDup ops :
  forall st, NoDup (JsMap.keys (rooms st)) ->
             NoDup (JsMap.keys (rooms (runOps ops st))).
Proof.
  unfold runOps. induction ops as [|op ops IH]; intros st Hnd; [exact Hnd|].
  cbn [fold_left]. apply IH. now apply applyOp_NoDup.
Qed.

(** The search filter does not throw on a room whose [roomId],
    [player1Name] and [player2Name] are strings or falsy. *)
Lemma lowerIncludes_total searchLower v :
  (truthy v = true -> isString v = true) ->
  exists b, lowerIncludes searchLower v = Some b.
Proof.
  intros Hs. unfold lowerIncludes. destruct (truthy v); [|eauto].
  specialize (Hs eq_refl). destruct v; try discriminate. eauto.
Qed.

Lemma searchMatches_total searchLower room :
  searchable room -> exists b, searchMatches searchLower room = Some b.
Proof.
  intros (Hid & Hp1 & Hp2). unfold searchMatches.
  destruct (lowerIncludes_total searchLower _ Hid) as [[|] ->]; [eauto|].
  destruct (lowerIncludes_total searchLower _ Hp1) as [[|] ->]; [eauto|].
  apply (lowerIncludes_total searchLower _ Hp2).
Qed.

Lemma filterThrowing_total {A : Type} (f : A -> option bool) (l : list A) :
  (forall x, In x l -> exists b, f x = Some b) ->
  exists l', filterThrowing f l = Some l'.
Proof.
  induction l as [|x l IH]; intros Hf; simpl; [eauto|].
  destruct (Hf x (or_introl eq_refl)) as [b ->].
  destruct IH as [l' ->]; [intros y Hy; apply Hf; now right|]. eauto.
Qed.

(** On a registry of such rooms the filters and the sort yield a list,
    so the handler does not answer 500. *)
Lemma filteredSorted_total q rs :
  (forall room, In room (JsMap.values rs) -> searchable room) ->
  exists L, filteredSorted q rs = Some L.
Proof.
  intros Hrs. unfold filteredSorted. cbv zeta. unfold filterSearch.
  destruct (negb _); [|cbn [option_map]; eauto].
  match goal with
  | |- context [filterThrowing ?f ?l] =>
      destruct (filterThrowing_total f l) as [l' ->]; [|cbn [option_map]; eauto]
  end.
  intros room Hin. apply searchMatches_total, Hrs.
  apply filter_In in Hin as [Hin _].
  unfold filterStatus in Hin. destruct (_ && _) in Hin; [apply filter_In in Hin as [Hin _]|];
    unfold filterGameType in Hin;
    (destruct (_ && _) in Hin; [apply filter_In in Hin as [Hin _]|]);
    unfold filterVisible in Hin;
    (destruct (negb _) in Hin; [apply filter_In in Hin as [Hin _]|]); exact Hin.
Qed.

(** What the validation guarantees about the three searched fields. *)
Lemma validateFields_searched data now :
  validateFields data now = [] ->
  isString (Data.roomId data) = true /\
  isString (Data.player1Name data) = true /\
  (notNullish (Data.player2Name data) = true -> isString (Data.player2Name data) = true).
Proof.
  unfold validateFields. intros Hv.
  repeat match type of Hv with
         | _ ++ _ = [] => apply app_eq_nil in Hv as [? Hv]
         end.
  repeat split.
  - destruct (Data.roomId data); try discriminate; reflexivity.
  - destruct (Data.player1Name data); try discriminate; reflexivity.
  - destruct (Data.player2Name data); try discriminate; reflexivity.
Qed.

Lemma post_announce_searchable data now st :
  (forall room, In room (JsMap.values (rooms st)) -> searchable room) ->
  forall room, In room (JsMap.values (rooms (snd (post_announce data now st)))) ->
               searchable room.
Proof.
  intros Hst room. rewrite post_announce_eq. cbv zeta.
  destruct (fst (validateAnnouncement data now st)) as [|e es] eqn:Herr; cbn [snd].
  2: { rewrite validateAnnouncement_rooms. apply Hst. }
  rewrite validateAnnouncement_eq in Herr. cbn [fst] in Herr.
  apply app_eq_nil in Herr as [Hfields _].
  destruct (validateFields_searched _ _ Hfields) as (Hid & Hp1 & Hp2).
  assert (Hlim : forall r, In r (JsMap.values (enforceRoomLimit (rooms st))) -> searchable r).
  { intros r Hr. apply Hst. unfold enforceRoomLimit in Hr.
    destruct (MAX_ROOMS <=? JsMap.size (rooms st)); [|exact Hr].
    destruct (jsSort byCreatedAt (rooms st)); [exact Hr|].
    unfold JsMap.values, JsMap.delete in *. apply in_map_iff in Hr as (x & <- & Hx).
    apply filter_In in Hx as [Hx _]. now apply in_map. }
  cbn [rooms setRooms]. intros Hin.
  unfold JsMap.values in Hin. apply in_map_iff in Hin as ([k r] & <- & Hin). cbn [snd].
  assert (Hcases : r = match JsMap.get (Data.roomId data) (enforceRoomLimit (rooms st)) with
                       | Some room0 => updateRoom room0 data now
                       | None => newRoom data now
                       end \/ In r (JsMap.values (enforceRoomLimit (rooms st)))).
  { apply In_set_cases in Hin as [->|Hin]; [now left|right].
    now apply (in_map snd) in Hin. }
  destruct Hcases as [->|Hr]; [|now apply Hlim].
  destruct (JsMap.get (Data.roomId data) (enforceRoomLimit (rooms st))) as [room0|] eqn:Hg.
  - assert (Hold : searchable room0).
    { apply Hlim. unfold JsMap.values. apply get_In in Hg. now apply (in_map snd) in Hg. }
    destruct Hold as (Hoid & Hop1 & Hop2).
    unfold searchable, updateRoom, jsOr, ifDefined; cbn. repeat split.
    + exact Hoid.
    + destruct (truthy (Data.player1Name data)); auto.
    + destruct (Data.player2Name data); cbn in *; auto; discriminate.
  - unfold searchable, newRoom, jsOr; cbn. repeat split; auto.
    destruct (Data.player2Name data) as [| |b|n|s]; cbn in *; auto; try discriminate;
      try (specialize (Hp2 eq_refl); discriminate).
    destruct (negb (s =? "")%string); cbn; auto.
Qed.

Lemma values_filter_incl (p : JsVal * Room.t -> bool) rs room :
  In room (JsMap.values (filter p rs)) -> In room (JsMap.values rs).
Proof.
  unfold JsMap.values. intros Hin. apply in_map_iff in Hin as (e & <- & He).
  apply filter_In in He as [He _]. now apply in_map.
Qed.

Lemma values_fold_delete_incl (dead : list (JsVal * Room.t)) room :
  forall rs : list (JsVal * Room.t),
    In room (JsMap.values (fold_left (fun acc e => JsMap.delete (fst e) acc) dead rs)) ->
    In room (JsMap.values rs).
Proof.
  induction dead as [|e dead IH]; intros rs Hin; [exact Hin|].
  cbn [fold_left] in Hin. apply IH in Hin. now apply values_filter_incl in Hin.
Qed.

Lemma applyOp_searchable op st :
  (forall room, In room (JsMap.values (rooms st)) -> searchable room) ->
  forall room, In room (JsMap.values (rooms (applyOp op st))) -> searchable room.
Proof.
  intros Hst room.
  destruct op as [ip data now|ip q now|ip now|now|now|now|now]; cbn [applyOp].
  - unfold route_post_announce.
    pose proof (rateLimit_rooms ip true now st) as Hr.
    destruct (rateLimit ip true now st) as [[r|] st']; cbn [snd] in *.
    + rewrite Hr. apply Hst.
    + apply post_announce_searchable. now rewrite Hr.
  - unfold route_get_announce.
    pose proof (rateLimit_rooms ip false now st) as Hr.
    destruct (rateLimit ip false now st) as [[r|] st']; cbn [snd] in *.
    + rewrite Hr. apply Hst.
    + destruct (get_announce_rooms q now st') as [-> | ->]; rewrite Hr;
        [apply Hst|intros Hin; now apply values_filter_incl, Hst in Hin].
  - unfold route_get_scrape.
    pose proof (rateLimit_rooms ip false now st) as Hr.
    destruct (rateLimit ip false now st) as [[r|] st']; cbn [snd] in *.
    + rewrite Hr. apply Hst.
    + unfold get_scrape. cbn [snd rooms setRooms]. rewrite Hr.
      intros Hin. now apply values_filter_incl, Hst in Hin.
  - unfold roomCleanupInterval.
    destruct (MAX_ROOMS <? JsMap.size (sweepExpired now (rooms st))); cbn [rooms setRooms];
      intros Hin.
    + now apply values_fold_delete_incl, values_filter_incl, Hst in Hin.
    + now apply values_filter_incl, Hst in Hin.
  - apply Hst.
  - apply Hst.
  - apply Hst.
Qed.

Lemma runOps_searchable ops :
  forall st,
    (forall room, In room (JsMap.values (rooms st)) -> searchable room) ->
    forall room, In room (JsMap.values (rooms (runOps ops st))) -> searchable room.
Proof.
  unfold runOps. induction ops as [|op ops IH]; intros st Hst; [exact Hst|].
  cbn [fold_left]. apply IH. now apply applyOp_searchable.
Qed.

(** In a state reached from the start of the process, a query that passes
    the validation is answered with a page: the filters of GET /announce
    yield a list. *)
Lemma reachable_query_yields_list ops q now :
  exists L,
    filteredSorted q (sweepExpired now (rooms (runOps ops initialState))) = Some L.
Proof.
  apply filteredSorted_total. intros room Hin.
  apply values_filter_incl in Hin.
  revert room Hin. apply runOps_searchable. intros room [].
Qed.

(** ** Further properties of the code *)

(** *** [sanitizeSearch] *)

Lemma substring_length_le (n m : nat) (s : string) :
  (String.length (substring n m s) <= m)%nat.
Proof.
  revert m s. induction n as [|n IH]; intros m s.
  - revert s. induction m as [|m IHm]; intros s; destruct s; simpl; try lia.
    specialize (IHm s). lia.
  - destruct s; simpl; [destruct m; simpl; lia|apply IH].
Qed.

Lemma substring_short (m : nat) (s : string) :
  (String.length s <= m)%nat -> substring 0 m s = s.
Proof.
  revert s. induction m as [|m IH]; intros s Hlen; destruct s; simpl in *; try reflexivity.
  - lia.
  - f_equal. apply IH. lia.
Qed.

Lemma stripDangerous_length (s : string) :
  (String.length (stripDangerous s) <= String.length s)%nat.
Proof.
  induction s as [|c s IH]; simpl; [lia|].
  destruct ((_ || _)%bool); simpl; lia.
Qed.

Lemma stripDangerous_clean (s : string) (c : ascii) :
  In c (charsOf (stripDangerous s)) -> isDangerousChar c = false.
Proof.
  induction s as [|c0 s IH]; simpl; [intros []|].
  destruct ((_ || _)%bool) eqn:Hd; [exact IH|].
  simpl. intros [<-|Hin]; [exact Hd|now apply IH].
Qed.

Lemma stripDangerous_fixed (s : string) :
  (forall c, In c (charsOf s) -> isDangerousChar c = false) -> stripDangerous s = s.
Proof.
  induction s as [|c0 s IH]; simpl; [reflexivity|].
  intros Hclean. pose proof (Hclean c0 (or_introl eq_refl)) as Hc0.
  unfold isDangerousChar in Hc0. cbv zeta in Hc0. rewrite Hc0.
  f_equal. apply IH. intros c Hc. apply Hclean. now right.
Qed.

(** X1: whatever the [search] parameter is, the sanitized search has at
    most 100 characters and none of them is a less-than sign, a
    greater-than sign or a quote; a parameter that is not a string gives the
    empty search; and sanitizing the result again changes nothing. *)
Theorem sanitizeSearch_bounded_and_clean (query : JsVal) :
  (String.length (sanitizeSearch query) <= 100)%nat /\
  (forall c, In c (charsOf (sanitizeSearch query)) -> isDangerousChar c = false) /\
  (isString query = false -> sanitizeSearch query = "") /\
  sanitizeSearch (JStr (sanitizeSearch query)) = sanitizeSearch query.
Proof.
  assert (Hlen : (String.length (sanitizeSearch query) <= 100)%nat).
  { destruct query; simpl; try lia.
    pose proof (stripDangerous_length (substring 0 100 s)).
    pose proof (substring_length_le 0 100 s). lia. }
  assert (Hclean : forall c, In c (charsOf (sanitizeSearch query)) ->
                             isDangerousChar c = false).
  { destruct query; simpl; try (intros c []). apply stripDangerous_clean. }
  split; [exact Hlen|]. split; [exact Hclean|]. split.
  - destruct query; try reflexivity. discriminate.
  - cbn [sanitizeSearch]. rewrite substring_short by exact Hlen.
    now apply stripDangerous_fixed.
Qed.

(** *** Pages and repeated reads *)

Lemma jsSlice_length_le {A : Type} (s e : Z) (l : list A) :
  0 <= s -> 0 <= e -> Z.of_nat (List.length (jsSlice s e l)) <= Z.max 0 (e - s).
Proof.
  intros Hs He. unfold jsSlice, sliceIndex. rewrite length_firstn, length_skipn.
  destruct (Z.ltb_spec s 0); [lia|].
  destruct (Z.ltb_spec e 0); lia.
Qed.

(** X2: no answer of GET /announce holds more than 200 rooms, nor more
    rooms than the limit in force, whatever the query and the state. *)
Theorem page_never_exceeds_limit (q : Query.t) (now : Z) (st : State) :
  Z.of_nat (List.length (pageOf (fst (get_announce q now st)))) <= effectiveLimit q /\
  Z.of_nat (List.length (pageOf (fst (get_announce q now st)))) <= 200.
Proof.
  pose proof (effectiveLimit_range q) as Hn.
  pose proof (effectiveOffset_nonneg q) as Hk.
  assert (H : Z.of_nat (List.length (pageOf (fst (get_announce q now st))))
              <= effectiveLimit q).
  { unfold get_announce. destruct (validateQueryParams q); [|cbn; lia].
    destruct (filteredSorted q _); cbn [fst pageOf]; [|cbn; lia].
    pose proof (@jsSlice_length_le _ (effectiveOffset q)
                  (effectiveOffset q + effectiveLimit q) l Hk). lia. }
  split; [exact H|lia].
Qed.

Lemma sweepExpired_idempotent now rs :
  sweepExpired now (sweepExpired now rs) = sweepExpired now rs.
Proof.
  unfold sweepExpired. induction rs as [|e rs IH]; simpl; [reflexivity|].
  destruct (negb (isExpired now (snd e))) eqn:He; simpl; [|exact IH].
  rewrite He. now rewrite IH.
Qed.

Lemma setRooms_setRooms r r' st : setRooms r (setRooms r' st) = setRooms r st.
Proof. reflexivity. Qed.

(** The handlers of the two reads, run again at the same time on the
    state they left, answer the same and leave that state as it is. *)
Lemma handlers_repeat (q : Query.t) (now : Z) (st : State) :
  get_announce q now (snd (get_announce q now st)) = get_announce q now st /\
  get_scrape now (snd (get_scrape now st)) = get_scrape now st.
Proof.
  split.
  - destruct (validateQueryParams q) as [|e es] eqn:Hv.
    + assert (Hsnd : snd (get_announce q now st)
                     = setRooms (sweepExpired now (rooms st)) st).
      { unfold get_announce. rewrite Hv. cbn [rooms setRooms].
        destruct (filteredSorted q (sweepExpired now (rooms st))); reflexivity. }
      rewrite Hsnd. unfold get_announce. rewrite Hv. cbn [rooms setRooms].
      rewrite sweepExpired_idempotent. reflexivity.
    + unfold get_announce. rewrite !Hv. reflexivity.
  - unfold get_scrape. cbn [snd rooms setRooms].
    now rewrite sweepExpired_idempotent.
Qed.

(** The answers of the two handlers, and the rooms and nonces they leave,
    depend on the rooms and nonces of the state only. *)
Lemma get_announce_reads_rooms (q : Query.t) (now : Z) (st st' : State) :
  rooms st = rooms st' ->
  fst (get_announce q now st) = fst (get_announce q now st') /\
  rooms (snd (get_announce q now st)) = rooms (snd (get_announce q now st')).
Proof.
  intros Hr. unfold get_announce. destruct (validateQueryParams q); [|now split].
  cbn [rooms setRooms]. rewrite Hr.
  destruct (filteredSorted q (sweepExpired now (rooms st'))); now split.
Qed.

Lemma get_scrape_reads_rooms (now : Z) (st st' : State) :
  rooms st = rooms st' ->
  fst (get_scrape now st) = fst (get_scrape now st') /\
  rooms (snd (get_scrape now st)) = rooms (snd (get_scrape now st')).
Proof. intros Hr. unfold get_scrape. cbn [fst snd rooms setRooms]. now rewrite Hr. Qed.

(** X3: reads are repeatable.  When the middleware lets a read through,
    and lets through the same read made again by the same client at the same
    time, the repetition gets the same answer and leaves the same rooms;
    the first read has done the sweep, and between the two only the tables
    of the limiter change.  This holds of GET /announce and of GET /scrape,
    each through its route. *)
Theorem reads_are_repeatable (ip : string) (q : Query.t) (now : Z) (st : State) :
  let first := route_get_announce ip q now st in
  let again := route_get_announce ip q now (snd first) in
  let firstStats := route_get_scrape ip now st in
  let againStats := route_get_scrape ip now (snd firstStats) in
  fst (rateLimit ip false now st) = None ->
  (fst (rateLimit ip false now (snd first)) = None ->
   fst again = fst first /\ rooms (snd again) = rooms (snd first)) /\
  (fst (rateLimit ip false now (snd firstStats)) = None ->
   fst againStats = fst firstStats /\ rooms (snd againStats) = rooms (snd firstStats)).
Proof.
  cbv zeta. intros Hpass. unfold route_get_announce, route_get_scrape.
  pose proof (rateLimit_rooms ip false now st) as Hr.
  destruct (rateLimit ip false now st) as [r st1]. cbn [fst snd] in *. subst r.
  destruct (handlers_repeat q now st1) as [Ha Hs].
  split; intros Hpass2.
  - pose proof (rateLimit_rooms ip false now (snd (get_announce q now st1))) as Hr2.
    destruct (rateLimit ip false now (snd (get_announce q now st1))) as [r2 st2].
    cbn [fst snd] in *. subst r2.
    destruct (get_announce_reads_rooms q now _ _ Hr2) as [Hf Hrooms].
    rewrite Ha in Hf, Hrooms. split; [exact Hf|exact Hrooms].
  - pose proof (rateLimit_rooms ip false now (snd (get_scrape now st1))) as Hr2.
    destruct (rateLimit ip false now (snd (get_scrape now st1))) as [r2 st2].
    cbn [fst snd] in *. subst r2.
    destruct (get_scrape_reads_rooms now _ _ Hr2) as [Hf Hrooms].
    rewrite Hs in Hf, Hrooms. split; [exact Hf|exact Hrooms].
Qed.

(** *** Statistics *)

Lemma sumCounts_set key n obj :
  sumCounts (JsMap.set key n obj) =
    sumCounts obj + n - match JsMap.get key obj with Some old => old | None => 0 end.
Proof.
  unfold sumCounts. induction obj as [|[k v] obj IH]; cbn [JsMap.set JsMap.get fold_right].
  - cbn. lia.
  - destruct (keq key k); cbn [fold_right snd]; lia.
Qed.

Lemma sumCounts_increment key obj :
  sumCounts (increment key obj) = sumCounts obj + 1.
Proof.
  unfold increment. rewrite sumCounts_set.
  destruct (JsMap.get key obj) as [n|]; [|lia].
  destruct (Z.eqb_spec n 0); lia.
Qed.

Lemma sumCounts_countBy f l :
  sumCounts (countBy f l) = Z.of_nat (List.length l).
Proof.
  unfold countBy.
  assert (H : forall obj,
             sumCounts (fold_left (fun obj room =>
                          increment (propertyKey (jsOr (f room) (JStr "unknown"))) obj) l obj)
             = sumCounts obj + Z.of_nat (List.length l)).
  { induction l as [|r l IH]; intros obj; cbn [fold_left List.length]; [lia|].
    rewrite IH, sumCounts_increment. lia. }
  rewrite H. cbn. lia.
Qed.

(** X4: in every answer of GET /scrape the counts by game type add up to
    the total, and so do the counts by status; the total is the number of
    rooms the sweep leaves.  This holds in every state that a history of
    requests and timer callbacks reaches from the start of the process. *)
Theorem scrape_counts_add_up (ops : list Op) (now : Z) :
  let r := fst (get_scrape now (runOps ops initialState)) in
  sumCounts (statsByGameType r) = statsTotal r /\
  sumCounts (statsByStatus r) = statsTotal r /\
  statsTotal r = JsMap.size (rooms (snd (get_scrape now (runOps ops initialState)))).
Proof.
  cbn [get_scrape fst snd statsOf statsByGameType statsByStatus statsTotal rooms setRooms].
  rewrite !sumCounts_countBy. unfold JsMap.size, JsMap.values. rewrite length_map. auto.
Qed.

(** *** Lookups after filters and deletions *)

Section LookupFacts.
Context {K V : Type} {E : KeyEq K} {L : KeyEqLaws E}.
Implicit Types (m : list (K * V)) (k : K) (v : V).

Lemma get_filter_none (p : K * V -> bool) k m :
  JsMap.get k m = None -> JsMap.get k (filter p m) = None.
Proof.
  induction m as [|[k0 v0] m IH]; simpl; [reflexivity|].
  destruct (keq k k0) eqn:Hk; [discriminate|].
  intros Hg. destruct (p (k0, v0)); simpl; [rewrite Hk|]; auto.
Qed.

Lemma get_filter_NoDup (p : K * V -> bool) k m :
  NoDup (JsMap.keys m) ->
  JsMap.get k (filter p m) =
    match JsMap.get k m with
    | Some v => if p (k, v) then Some v else None
    | None => None
    end.
Proof.
  induction m as [|[k0 v0] m IH]; simpl; [reflexivity|].
  intros Hnd. inversion Hnd as [|? ? Hnot Hnd']; subst.
  destruct (keq_spec k k0) as [->|Hne].
  - destruct (p (k0, v0)); simpl.
    + now rewrite keq_refl.
    + apply get_filter_none.
      destruct (JsMap.get k0 m) as [v|] eqn:Hg; [|reflexivity].
      exfalso. apply Hnot. apply get_In in Hg.
      change k0 with (fst (k0, v)). now apply in_map.
  - destruct (p (k0, v0)); simpl; [rewrite (keq_neq Hne)|]; now apply IH.
Qed.

Lemma NoDup_firstn {A : Type} (n : nat) (l : list A) : NoDup l -> NoDup (firstn n l).
Proof.
  revert l. induction n as [|n IH]; intros l Hnd; [constructor|].
  destruct l as [|x l]; [constructor|]. inversion Hnd as [|? ? Hnot Hnd']; subst.
  cbn [firstn]. constructor; [|auto].
  intros Hin. apply Hnot. rewrite <- (firstn_skipn n l). apply in_or_app. now left.
Qed.

(** Deleting keys that are distinct and present takes away as many
    entries. *)
Lemma fold_delete_length (dead : list (K * V)) :
  forall m, NoDup (JsMap.keys m) -> NoDup (map fst dead) -> incl dead m ->
    List.length (fold_left (fun acc e => JsMap.delete (fst e) acc) dead m)
    = (List.length m - List.length dead)%nat /\
    NoDup (JsMap.keys (fold_left (fun acc e => JsMap.delete (fst e) acc) dead m)).
Proof.
  induction dead as [|[k v] dead IH]; intros m Hnd Hdead Hincl; cbn [fold_left].
  - split; [cbn; lia|exact Hnd].
  - inversion Hdead as [|? ? Hnot Hdead']; subst. cbn [fst] in *.
    assert (Hin : In (k, v) m) by (apply Hincl; now left).
    destruct (IH (JsMap.delete k m)) as [Hlen Hnd''].
    + now apply NoDup_keys_delete.
    + exact Hdead'.
    + intros [k' v'] Hin'. unfold JsMap.delete. apply filter_In. split.
      * apply Hincl. now right.
      * cbn [fst]. destruct (keq_spec k k') as [->|Hne]; [|reflexivity].
        exfalso. apply Hnot. change k' with (fst (k', v')). now apply in_map.
    + split; [|exact Hnd''].
      rewrite Hlen. pose proof (length_delete_NoDup _ _ _ Hnd Hin). cbn [List.length]. lia.
Qed.
End LookupFacts.

(** *** Local addresses *)

Lemma checkNonce_frame nonce now st :
  rateLimitMap (snd (checkNonce nonce now st)) = rateLimitMap st /\
  blockedIPs (snd (checkNonce nonce now st)) = blockedIPs st.
Proof.
  unfold checkNonce.
  destruct (truthy nonce); [|now split].
  destruct (setHas nonce (usedNonces st)); [now split|].
  destruct (MAX_NONCES <=? Z.of_nat (List.length (usedNonces st))); now split.
Qed.

Lemma post_announce_frame data now st :
  rateLimitMap (snd (post_announce data now st)) = rateLimitMap st /\
  blockedIPs (snd (post_announce data now st)) = blockedIPs st.
Proof.
  rewrite post_announce_eq, validateAnnouncement_eq. cbv zeta. cbn [fst snd].
  destruct (validateFields data now ++ fst (checkNonce (Data.nonce data) now st));
    cbn [snd rateLimitMap blockedIPs setRooms]; apply checkNonce_frame.
Qed.

Lemma get_announce_frame q now st :
  rateLimitMap (snd (get_announce q now st)) = rateLimitMap st /\
  blockedIPs (snd (get_announce q now st)) = blockedIPs st /\
  usedNonces (snd (get_announce q now st)) = usedNonces st /\
  nonceTimers (snd (get_announce q now st)) = nonceTimers st.
Proof.
  unfold get_announce. destruct (validateQueryParams q); [|now repeat split].
  destruct (filteredSorted q _); now repeat split.
Qed.

(** The block table the middleware leaves: the one it found, the one the
    check left, or that one with a new block of a client that is not
    local. *)
Lemma rateLimit_blockedIPs ip isPost now st :
  let checked := snd (isIPBlocked ip now (blockedIPs st)) in
  blockedIPs (snd (rateLimit ip isPost now st)) = blockedIPs st \/
  blockedIPs (snd (rateLimit ip isPost now st)) = checked \/
  exists why,
    blockedIPs (snd (rateLimit ip isPost now st)) = blockIP ip why BLOCK_DURATION now checked.
Proof.
  cbv zeta. unfold rateLimit.
  destruct DISABLE_RATE_LIMIT; [now left|].
  destruct (isIPBlocked ip now (blockedIPs st)) as [[why|] blocked]; cbn [snd];
    destruct (isLocalhost ip); try (right; left; reflexivity).
  destruct (JsMap.get ip (rateLimitMap st)) as [d|];
    [destruct (resetTime d <? now)|]; destruct isPost; cbv zeta beta iota;
    match goal with
    | |- context [if ?c then (Some _, _) else (None, _)] => destruct c
    end; cbn [snd blockedIPs setBlockedIPs setRateLimitMap];
    try (right; left; reflexivity);
    match goal with
    | |- context [if ?c then blockIP _ _ _ _ _ else _] => destruct c
    end; try (right; left; reflexivity); right; right; eexists; reflexivity.
Qed.

Lemma isIPBlocked_noLocalBlock ip now blocked :
  noLocalBlock blocked -> noLocalBlock (snd (isIPBlocked ip now blocked)).
Proof.
  intros Hb ip' Hloc. unfold isIPBlocked.
  destruct (existsb (String.eqb ip) BLOCKED_IPS); [now apply Hb|].
  destruct (JsMap.get ip blocked) as [info|]; [|now apply Hb].
  destruct (now <? blockedUntil info); cbn [snd]; [now apply Hb|].
  apply get_filter_none. now apply Hb.
Qed.

Lemma blockIP_noLocalBlock ip why duration now blocked :
  noLocalBlock blocked -> noLocalBlock (blockIP ip why duration now blocked).
Proof.
  intros Hb ip' Hloc. unfold blockIP.
  destruct (isLocalhost ip) eqn:Hip; [now apply Hb|].
  rewrite get_set_other; [now apply Hb|]. intros ->. congruence.
Qed.

Lemma rateLimit_noLocalBlock ip isPost now st :
  noLocalBlock (blockedIPs st) -> noLocalBlock (blockedIPs (snd (rateLimit ip isPost now st))).
Proof.
  intros Hb.
  destruct (rateLimit_blockedIPs ip isPost now st) as [-> | [-> | [why ->]]].
  - exact Hb.
  - now apply isIPBlocked_noLocalBlock.
  - now apply blockIP_noLocalBlock, isIPBlocked_noLocalBlock.
Qed.

Lemma applyOp_noLocalBlock op st :
  noLocalBlock (blockedIPs st) -> noLocalBlock (blockedIPs (applyOp op st)).
Proof.
  intros Hb. destruct op as [ip data now|ip q now|ip now|now|now|now|now]; cbn [applyOp].
  - unfold route_post_announce.
    pose proof (rateLimit_noLocalBlock ip true now st Hb) as Hr.
    destruct (rateLimit ip true now st) as [[r|] st']; cbn [snd] in *; [exact Hr|].
    now rewrite (proj2 (post_announce_frame data now st')).
  - unfold route_get_announce.
    pose proof (rateLimit_noLocalBlock ip false now st Hb) as Hr.
    destruct (rateLimit ip false now st) as [[r|] st']; cbn [snd] in *; [exact Hr|].
    now rewrite (proj1 (proj2 (get_announce_frame q now st'))).
  - unfold route_get_scrape.
    pose proof (rateLimit_noLocalBlock ip false now st Hb) as Hr.
    destruct (rateLimit ip false now st) as [[r|] st']; cbn [snd] in *; exact Hr.
  - unfold roomCleanupInterval.
    destruct (MAX_ROOMS <? _); exact Hb.
  - exact Hb.
  - intros ip Hloc. cbn [ipBlockCleanupInterval blockedIPs setBlockedIPs fold_left].
    unfold JsMap.delete. now repeat apply get_filter_none; apply Hb.
  - exact Hb.
Qed.

Lemma runOps_noLocalBlock ops :
  forall st, noLocalBlock (blockedIPs st) -> noLocalBlock (blockedIPs (runOps ops st)).
Proof.
  unfold runOps. induction ops as [|op ops IH]; intros st Hb; [exact Hb|].
  cbn [fold_left]. apply IH. now apply applyOp_noLocalBlock.
Qed.

(** X5: a local address (127.0.0.1, ::1, ::ffff:127.0.0.1, localhost) is
    never refused.  After any history of requests and timer callbacks from
    the start of the process the block table has no entry for it, and the
    middleware passes its request on, of whichever kind and however many
    came before, leaving the state as it is. *)
Theorem localhost_is_never_refused
    (ip : string) (ops : list Op) (isPost : bool) (now : Z) :
  isLocalhost ip = true ->
  JsMap.get ip (blockedIPs (runOps ops initialState)) = None /\
  rateLimit ip isPost now (runOps ops initialState) = (None, runOps ops initialState).
Proof.
  intros Hloc.
  assert (Hnone : JsMap.get ip (blockedIPs (runOps ops initialState)) = None).
  { apply runOps_noLocalBlock; [|exact Hloc]. intros ip' _. reflexivity. }
  split; [exact Hnone|].
  unfold rateLimit. destruct DISABLE_RATE_LIMIT; [reflexivity|].
  rewrite Hloc, isIPBlocked_absent by exact Hnone.
  now rewrite setBlockedIPs_same.
Qed.

(** X6: every request that reaches the counters is counted, the refused
    ones too.  For a client that is neither local nor blocked, with its
    entry in its window and the table within its hard limit, a request
    adds one to the counter of its kind, leaves the other counter and the
    reset time as they are, and adds one violation exactly when it is
    refused. *)
Theorem request_counts_once
    (ip : string) (isPost : bool) (now : Z) (st : State) (d : RateLimitData) :
  DISABLE_RATE_LIMIT = false ->
  isLocalhost ip = false ->
  JsMap.get ip (blockedIPs st) = None ->
  JsMap.get ip (rateLimitMap st) = Some d ->
  now <= resetTime d ->
  JsMap.size (rateLimitMap st) <= MAX_RATE_LIMIT_ENTRIES ->
  exists d',
    JsMap.get ip (rateLimitMap (snd (rateLimit ip isPost now st))) = Some d' /\
    counterOf isPost d' = counterOf isPost d + 1 /\
    counterOf (negb isPost) d' = counterOf (negb isPost) d /\
    resetTime d' = resetTime d /\
    violations d' =
      violations d + match fst (rateLimit ip isPost now st) with
                     | Some _ => 1
                     | None => 0
                     end /\
    (forall ip', ip' <> ip ->
       JsMap.get ip' (rateLimitMap (snd (rateLimit ip isPost now st)))
       = JsMap.get ip' (rateLimitMap st)).
Proof.
  intros Hen Hloc Hblk Hget Hwin Hsize.
  assert (Hsz : JsMap.size (JsMap.set ip (freshData now) (rateLimitMap st))
                <= MAX_RATE_LIMIT_ENTRIES)
    by now rewrite (size_set_present _ _ _ Hget).
  assert (Hcur : currentData ip now st = d).
  { unfold currentData. rewrite Hget.
    destruct (Z.ltb_spec (resetTime d) now); [lia|reflexivity]. }
  rewrite (rateLimit_counted Hen ip isPost now st Hloc Hblk Hsz).
  cbv zeta. rewrite Hcur.
  destruct (thresholdOf isPost <? counterOf isPost (bump isPost d));
    cbn [fst snd rateLimitMap setBlockedIPs setRateLimitMap];
    rewrite get_set_same; eexists; (split; [reflexivity|]);
    (repeat split; [..|intros ip' Hne; apply get_set_other; congruence]);
    destruct isPost; cbn; lia.
Qed.

(** *** The periodic sweeps of the abuse control *)

Lemma rateLimitCleanupInterval_eq now st :
  rateLimitCleanupInterval now st
  = setRateLimitMap (flat_map (decayEntry now) (rateLimitMap st)) st.
Proof.
  unfold rateLimitCleanupInterval. f_equal. apply flat_map_ext.
  intros [ip data]. reflexivity.
Qed.

Lemma decay_get_none now ip (m : list (string * RateLimitData)) :
  JsMap.get ip m = None -> JsMap.get ip (flat_map (decayEntry now) m) = None.
Proof.
  induction m as [|[k d] m IH]; cbn [flat_map JsMap.get]; [reflexivity|].
  destruct (keq ip k) eqn:Hk; [discriminate|]. intros Hg.
  unfold decayEntry. cbn [fst snd].
  destruct (resetTime d <? now); [destruct (0 <? violations d)|];
    cbn [app JsMap.get]; rewrite ?Hk; auto.
Qed.

(** What the sweep leaves under a key. *)
Lemma decay_get now ip (m : list (string * RateLimitData)) :
  NoDup (JsMap.keys m) ->
  JsMap.get ip (flat_map (decayEntry now) m) =
    match JsMap.get ip m with
    | Some d =>
        if resetTime d <? now then
          if 0 <? violations d
          then Some {| count := count d; announceCount := announceCount d;
                       resetTime := resetTime d;
                       violations := Z.max 0 (violations d - 1) |}
          else None
        else Some d
    | None => None
    end.
Proof.
  induction m as [|[k d] m IH]; cbn [flat_map JsMap.get]; [reflexivity|].
  intros Hnd. inversion Hnd as [|? ? Hnot Hnd']; subst.
  unfold decayEntry at 1. cbn [fst snd].
  destruct (keq_spec ip k) as [->|Hne].
  - destruct (resetTime d <? now); [destruct (0 <? violations d)|];
      cbn [app JsMap.get]; rewrite ?keq_refl; try reflexivity.
    apply decay_get_none.
    destruct (JsMap.get k m) as [v|] eqn:Hg; [|reflexivity].
    exfalso. apply Hnot. apply get_In in Hg.
    change k with (fst (k, v)). now apply in_map.
  - destruct (resetTime d <? now); [destruct (0 <? violations d)|];
      cbn [app JsMap.get]; rewrite ?(keq_neq Hne); now apply IH.
Qed.

Lemma decay_length now (m : list (string * RateLimitData)) :
  (List.length (flat_map (decayEntry now) m) <= List.length m)%nat.
Proof.
  induction m as [|[k d] m IH]; cbn [flat_map]; [lia|].
  rewrite length_app. unfold decayEntry at 1. cbn [fst snd].
  destruct (resetTime d <? now); [destruct (0 <? violations d)|]; cbn [List.length]; lia.
Qed.

Lemma decay_length_dropped now ip (m : list (string * RateLimitData)) d :
  JsMap.get ip m = Some d ->
  JsMap.get ip (flat_map (decayEntry now) m) = None ->
  (List.length (flat_map (decayEntry now) m) < List.length m)%nat.
Proof.
  induction m as [|[k d0] m IH]; cbn [flat_map JsMap.get]; [discriminate|].
  rewrite length_app. pose proof (decay_length now m) as Hle.
  unfold decayEntry at 1 3. cbn [fst snd].
  destruct (keq ip k) eqn:Hk.
  - intros _.
    destruct (resetTime d0 <? now); [destruct (0 <? violations d0)|];
      cbn [app JsMap.get List.length]; rewrite ?Hk; try discriminate. lia.
  - intros Hg Hnone. cbn [List.length].
    assert (Hrest : JsMap.get ip (flat_map (decayEntry now) m) = None).
    { revert Hnone.
      destruct (resetTime d0 <? now); [destruct (0 <? violations d0)|];
        cbn [app JsMap.get]; rewrite ?Hk; auto. }
    specialize (IH Hg Hrest).
    destruct (resetTime d0 <? now); [destruct (0 <? violations d0)|];
      cbn [List.length]; lia.
Qed.

Lemma decay_keys_NoDup now (m : list (string * RateLimitData)) :
  NoDup (JsMap.keys m) -> NoDup (JsMap.keys (flat_map (decayEntry now) m)).
Proof.
  induction m as [|[k d] m IH]; cbn [flat_map]; [auto|].
  intros Hnd. inversion Hnd as [|? ? Hnot Hnd']; subst. specialize (IH Hnd').
  assert (Hk : ~ In k (JsMap.keys (flat_map (decayEntry now) m))).
  { intros Hin. apply Hnot. unfold JsMap.keys in *.
    apply in_map_iff in Hin as ([k' d'] & Hk' & Hin). cbn in Hk'. subst k'.
    apply in_flat_map in Hin as ([k0 d0] & Hin0 & Hdec).
    unfold decayEntry in Hdec. cbn [fst snd] in Hdec.
    assert (k0 = k).
    { destruct (resetTime d0 <? now); [destruct (0 <? violations d0)|];
        cbn in Hdec; try contradiction; destruct Hdec as [Heq|[]]; now inversion Heq. }
    subst k0. change k with (fst (k, d0)). now apply in_map. }
  unfold decayEntry at 1. cbn [fst snd].
  destruct (resetTime d <? now); [destruct (0 <? violations d)|];
    cbn [app]; auto; unfold JsMap.keys; cbn [map fst]; now constructor.
Qed.

(** X7: the decay sweep of the rate limiter has no effect on any later
    answer of the middleware.  For a table without repeated keys and within
    the hard limit once the client has an entry, the answer to a request
    made at or after the time of the sweep is the same with the sweep as
    without it. *)
Theorem decay_sweep_changes_no_answer
    (ip : string) (isPost : bool) (sweepTime now : Z) (st : State) :
  NoDup (JsMap.keys (rateLimitMap st)) ->
  sweepTime <= now ->
  JsMap.size (JsMap.set ip (freshData now) (rateLimitMap st)) <= MAX_RATE_LIMIT_ENTRIES ->
  fst (rateLimit ip isPost now (rateLimitCleanupInterval sweepTime st))
  = fst (rateLimit ip isPost now st).
Proof.
  intros Hnd Htime Hsz. rewrite rateLimitCleanupInterval_eq.
  set (m' := flat_map (decayEntry sweepTime) (rateLimitMap st)).
  destruct DISABLE_RATE_LIMIT eqn:Hen.
  { unfold rateLimit. now rewrite Hen. }
  destruct (isLocalhost ip) eqn:Hloc.
  { unfold rateLimit. rewrite Hen, Hloc. cbn [blockedIPs setRateLimitMap].
    destruct (isIPBlocked ip now (blockedIPs st)) as [[why|] blocked]; reflexivity. }
  destruct (isIPBlocked ip now (blockedIPs st)) as [[why|] blocked] eqn:Hchk.
  { unfold rateLimit. rewrite Hen, Hloc. cbn [blockedIPs setRateLimitMap].
    now rewrite Hchk. }
  (* the counted path depends on the table through [currentData] only *)
  assert (Hcur : currentData ip now (setRateLimitMap m' st) = currentData ip now st).
  { unfold currentData. cbn [rateLimitMap setRateLimitMap]. unfold m'.
    rewrite decay_get by exact Hnd.
    destruct (JsMap.get ip (rateLimitMap st)) as [d|]; [|reflexivity].
    destruct (Z.ltb_spec (resetTime d) sweepTime) as [Hexp|Hlive]; [|reflexivity].
    assert (Hexp' : (resetTime d <? now) = true) by (apply Z.ltb_lt; lia).
    destruct (0 <? violations d); cbn [resetTime]; now rewrite Hexp'. }
  assert (Hsz' : JsMap.size (JsMap.set ip (freshData now) m') <= MAX_RATE_LIMIT_ENTRIES).
  { pose proof (decay_length sweepTime (rateLimitMap st)) as Hle. fold m' in Hle.
    destruct (JsMap.get ip (rateLimitMap st)) as [d|] eqn:Hg;
      destruct (JsMap.get ip m') as [d'|] eqn:Hg'.
    - rewrite (size_set_present _ _ _ Hg') in *. rewrite (size_set_present _ _ _ Hg) in Hsz.
      unfold JsMap.size in *. lia.
    - pose proof (decay_length_dropped sweepTime ip (rateLimitMap st) Hg Hg') as Hlt.
      fold m' in Hlt.
      rewrite (size_set_absent _ _ _ Hg'). rewrite (size_set_present _ _ _ Hg) in Hsz.
      unfold JsMap.size in *. lia.
    - unfold m' in Hg'. rewrite (decay_get_none sweepTime ip _ Hg) in Hg'. discriminate.
    - rewrite (size_set_absent _ _ _ Hg'). rewrite (size_set_absent _ _ _ Hg) in Hsz.
      unfold JsMap.size in *. lia. }
  (* both runs make the same check of the block table *)
  assert (Hgen : forall m0,
            JsMap.size (JsMap.set ip (freshData now) m0) <= MAX_RATE_LIMIT_ENTRIES ->
            fst (rateLimit ip isPost now (setRateLimitMap m0 st)) =
              let d := currentData ip now (setRateLimitMap m0 st) in
              if thresholdOf isPost <? counterOf isPost (bump isPost d)
              then Some (Resp429 isPost (ceilDiv (resetTime d - now) 1000))
              else None).
  { intros m0 Hm0. unfold rateLimit, currentData. rewrite Hen, Hloc.
    cbn [blockedIPs rateLimitMap setRateLimitMap]. rewrite Hchk.
    fold (freshData now).
    destruct (JsMap.get ip m0) as [d|] eqn:Hget.
    - destruct (resetTime d <? now) eqn:Hexp.
      + rewrite enforceRateLimitCap_within by exact Hm0.
        destruct isPost; cbv zeta beta iota;
          match goal with
          | |- fst (if ?c then _ else _) = (if ?c' then _ else _) =>
              change c' with c; destruct c; reflexivity
          end.
      + rewrite (size_set_present _ _ _ Hget) in Hm0.
        rewrite enforceRateLimitCap_within by exact Hm0.
        destruct isPost; cbv zeta beta iota;
          match goal with
          | |- fst (if ?c then _ else _) = (if ?c' then _ else _) =>
              change c' with c; destruct c; reflexivity
          end.
    - rewrite enforceRateLimitCap_within by exact Hm0.
      destruct isPost; cbv zeta beta iota;
        match goal with
        | |- fst (if ?c then _ else _) = (if ?c' then _ else _) =>
              change c' with c; destruct c; reflexivity
        end. }
  pose proof (Hgen (rateLimitMap st) Hsz) as Hplain.
  assert (Hst : setRateLimitMap (rateLimitMap st) st = st) by now destruct st.
  rewrite Hst in Hplain.
  rewrite (Hgen m' Hsz'), Hplain. cbv zeta. now rewrite Hcur.
Qed.

Lemma isLocalhost_cases ip :
  isLocalhost ip = true ->
  ip = "127.0.0.1" \/ ip = "::1" \/ ip = "::ffff:127.0.0.1" \/ ip = "localhost".
Proof.
  unfold isLocalhost. intros H.
  repeat (apply orb_true_iff in H as [H|H]); apply String.eqb_eq in H; auto.
Qed.

Lemma get_fold_delete_none (l : list string) ip :
  forall m : list (string * BlockInfo),
    JsMap.get ip m = None ->
    JsMap.get ip (fold_left (fun acc x => JsMap.delete x acc) l m) = None.
Proof.
  induction l as [|x l IH]; intros m Hg; [exact Hg|].
  cbn [fold_left]. apply IH. unfold JsMap.delete. now apply get_filter_none.
Qed.

Lemma get_fold_delete_In (l : list string) ip :
  In ip l ->
  forall m : list (string * BlockInfo),
    JsMap.get ip (fold_left (fun acc x => JsMap.delete x acc) l m) = None.
Proof.
  induction l as [|x l IH]; intros Hin m; [contradiction|].
  cbn [fold_left]. destruct (String.eqb_spec x ip) as [->|Hne].
  - apply get_fold_delete_none, get_delete_same.
  - destruct Hin as [Heq|Hin]; [congruence|]. now apply IH.
Qed.

(** What the sweep of the block table leaves under a key. *)
Lemma ipBlockCleanupInterval_get now st ip :
  NoDup (JsMap.keys (blockedIPs st)) ->
  JsMap.get ip (blockedIPs (ipBlockCleanupInterval now st)) =
    if isLocalhost ip then None
    else match JsMap.get ip (blockedIPs st) with
         | Some info => if blockedUntil info <=? now then None else Some info
         | None => None
         end.
Proof.
  intros Hnd. cbn [ipBlockCleanupInterval blockedIPs setBlockedIPs].
  destruct (isLocalhost ip) eqn:Hloc.
  - apply get_fold_delete_In.
    apply isLocalhost_cases in Hloc as [-> | [-> | [-> | ->]]]; cbn; auto.
  - cbn [fold_left].
    assert (Hne : forall l, isLocalhost l = true -> l <> ip)
      by (intros l Hl ->; congruence).
    rewrite !get_delete_other by (apply Hne; reflexivity).
    rewrite get_filter_NoDup by exact Hnd.
    destruct (JsMap.get ip (blockedIPs st)) as [info|]; [|reflexivity].
    cbn [snd]. now destruct (blockedUntil info <=? now).
Qed.

(** X8: the sweep of the block table removes the blocks that are over and
    those of local addresses, and nothing else: what it leaves are the
    entries of clients that are not local and whose block still runs, and
    the verdict of [isIPBlocked] on a client that is not local, at the time
    of the sweep or later, is the same after the sweep as before. *)
Theorem block_sweep_keeps_running_blocks (now : Z) (st : State) :
  NoDup (JsMap.keys (blockedIPs st)) ->
  let swept := blockedIPs (ipBlockCleanupInterval now st) in
  (forall ip info,
     JsMap.get ip swept = Some info <->
     JsMap.get ip (blockedIPs st) = Some info /\
     now < blockedUntil info /\ isLocalhost ip = false) /\
  (forall ip now',
     now <= now' -> isLocalhost ip = false ->
     fst (isIPBlocked ip now' swept) = fst (isIPBlocked ip now' (blockedIPs st))).
Proof.
  intros Hnd swept. split.
  - intros ip info. unfold swept. rewrite ipBlockCleanupInterval_get by exact Hnd.
    destruct (isLocalhost ip).
    + split; [discriminate|]. intros (_ & _ & Hx). discriminate.
    + destruct (JsMap.get ip (blockedIPs st)) as [info'|].
      * destruct (Z.leb_spec (blockedUntil info') now); split.
        -- discriminate.
        -- intros ([= ->] & Hlt & _). lia.
        -- intros [= ->]. repeat split. lia.
        -- now intros (Hx & _).
      * split; [discriminate|]. now intros (Hx & _).
  - intros ip now' Hlater Hloc. unfold isIPBlocked. cbn [existsb BLOCKED_IPS].
    unfold swept. rewrite ipBlockCleanupInterval_get by exact Hnd. rewrite Hloc.
    destruct (JsMap.get ip (blockedIPs st)) as [info|]; [|reflexivity].
    destruct (Z.leb_spec (blockedUntil info) now);
      destruct (Z.ltb_spec now' (blockedUntil info)); try reflexivity. lia.
Qed.

(** *** The hard limits *)

(** Deleting the first [n] entries of the sorted array leaves [n] entries
    less. *)
Lemma delete_oldest_length {K V : Type} {E : KeyEq K} {L : KeyEqLaws E}
    (cmp : K * V -> K * V -> Z) (n : nat) (m : list (K * V)) :
  NoDup (JsMap.keys m) -> (n <= List.length m)%nat ->
  List.length (fold_left (fun acc e => JsMap.delete (fst e) acc)
                 (firstn n (jsSort cmp m)) m) = (List.length m - n)%nat /\
  NoDup (JsMap.keys (fold_left (fun acc e => JsMap.delete (fst e) acc)
                       (firstn n (jsSort cmp m)) m)).
Proof.
  intros Hnd Hn.
  destruct (@fold_delete_length _ _ _ _ (firstn n (jsSort cmp m)) m Hnd) as [Hlen Hnd'].
  - rewrite <- firstn_map. apply NoDup_firstn.
    apply (Permutation_NoDup (l := map fst m)); [|exact Hnd].
    apply Permutation_map. symmetry. apply jsSort_perm.
  - intros e He. apply (jsSort_In cmp). now apply In_firstn in He.
  - split; [|exact Hnd'].
    rewrite Hlen, firstn_length_le; [reflexivity|]. now rewrite jsSort_length.
Qed.

Lemma enforceRateLimitCap_bound m :
  NoDup (JsMap.keys m) ->
  JsMap.size (enforceRateLimitCap m) <= MAX_RATE_LIMIT_ENTRIES /\
  NoDup (JsMap.keys (enforceRateLimitCap m)).
Proof.
  intros Hnd. unfold enforceRateLimitCap.
  destruct (Z.ltb_spec MAX_RATE_LIMIT_ENTRIES (JsMap.size m)) as [Hover|Hin];
    [|now split].
  destruct (@delete_oldest_length _ _ _ _
              (fun a b : string * RateLimitData => resetTime (snd a) - resetTime (snd b))
              (Z.to_nat (JsMap.size m - MAX_RATE_LIMIT_ENTRIES)) m Hnd)
    as [Hlen Hnd'].
  - unfold JsMap.size, MAX_RATE_LIMIT_ENTRIES in *. lia.
  - split; [|exact Hnd'].
    unfold JsMap.size in *. rewrite Hlen. unfold MAX_RATE_LIMIT_ENTRIES in *. lia.
Qed.

Lemma writeBack_bound ip d (m : list (string * RateLimitData)) :
  JsMap.size (writeBack ip d m) = JsMap.size m /\
  (NoDup (JsMap.keys m) -> NoDup (JsMap.keys (writeBack ip d m))).
Proof.
  unfold writeBack, JsMap.has.
  destruct (JsMap.get ip m) as [d0|] eqn:Hg; [|now split].
  split; [apply (size_set_present _ _ _ Hg)|apply NoDup_keys_set].
Qed.

(** The limiter table the middleware leaves: the one it found, or the one
    with the entry of the client, cut to the hard limit, with the counters
    written to it. *)
Lemma rateLimit_rateLimitMap ip isPost now st :
  rateLimitMap (snd (rateLimit ip isPost now st)) = rateLimitMap st \/
  exists d m1,
    (m1 = rateLimitMap st \/ m1 = JsMap.set ip (freshData now) (rateLimitMap st)) /\
    rateLimitMap (snd (rateLimit ip isPost now st)) = writeBack ip d (enforceRateLimitCap m1).
Proof.
  unfold rateLimit.
  destruct DISABLE_RATE_LIMIT; [now left|].
  destruct (isIPBlocked ip now (blockedIPs st)) as [[why|] blocked];
    destruct (isLocalhost ip); try (left; reflexivity).
  fold (freshData now).
  destruct (JsMap.get ip (rateLimitMap st)) as [d|];
    [destruct (resetTime d <? now)|]; destruct isPost; cbv zeta beta iota;
    match goal with
    | |- context [if ?c then (Some _, _) else (None, _)] => destruct c
    end; cbn [snd rateLimitMap setBlockedIPs setRateLimitMap];
    right; do 2 eexists; (split; [|reflexivity]); auto.
Qed.

Lemma rateLimit_limiter_bound ip isPost now st :
  NoDup (JsMap.keys (rateLimitMap st)) ->
  JsMap.size (rateLimitMap st) <= MAX_RATE_LIMIT_ENTRIES ->
  NoDup (JsMap.keys (rateLimitMap (snd (rateLimit ip isPost now st)))) /\
  JsMap.size (rateLimitMap (snd (rateLimit ip isPost now st))) <= MAX_RATE_LIMIT_ENTRIES.
Proof.
  intros Hnd Hsize.
  destruct (rateLimit_rateLimitMap ip isPost now st) as [-> | (d & m1 & Hm1 & ->)];
    [now split|].
  assert (Hnd1 : NoDup (JsMap.keys m1))
    by (destruct Hm1 as [-> | ->]; [exact Hnd|now apply NoDup_keys_set]).
  destruct (@enforceRateLimitCap_bound m1 Hnd1) as [Hb Hnd2].
  destruct (writeBack_bound ip d (enforceRateLimitCap m1)) as [Hs Hn].
  split; [now apply Hn|]. now rewrite Hs.
Qed.

Lemma rateLimit_nonces ip isPost now st :
  usedNonces (snd (rateLimit ip isPost now st)) = usedNonces st /\
  nonceTimers (snd (rateLimit ip isPost now st)) = nonceTimers st.
Proof.
  unfold rateLimit.
  destruct DISABLE_RATE_LIMIT; [now split|].
  destruct (isIPBlocked ip now (blockedIPs st)) as [[why|] blocked];
    destruct (isLocalhost ip); try (now split).
  destruct (JsMap.get ip (rateLimitMap st)) as [d|];
    [destruct (resetTime d <? now)|]; destruct isPost; cbv zeta beta iota;
    match goal with
    | |- context [if ?c then (Some _, _) else (None, _)] => destruct c
    end; now split.
Qed.

Lemma applyOp_limiter_bound op st :
  NoDup (JsMap.keys (rateLimitMap st)) /\
  JsMap.size (rateLimitMap st) <= MAX_RATE_LIMIT_ENTRIES ->
  NoDup (JsMap.keys (rateLimitMap (applyOp op st))) /\
  JsMap.size (rateLimitMap (applyOp op st)) <= MAX_RATE_LIMIT_ENTRIES.
Proof.
  intros [Hnd Hsize].
  destruct op as [ip data now|ip q now|ip now|now|now|now|now]; cbn [applyOp].
  - unfold route_post_announce.
    pose proof (rateLimit_limiter_bound ip true now st Hnd Hsize) as Hr.
    destruct (rateLimit ip true now st) as [[r|] st']; cbn [snd] in *; [exact Hr|].
    now rewrite (proj1 (post_announce_frame data now st')).
  - unfold route_get_announce.
    pose proof (rateLimit_limiter_bound ip false now st Hnd Hsize) as Hr.
    destruct (rateLimit ip false now st) as [[r|] st']; cbn [snd] in *; [exact Hr|].
    now rewrite (proj1 (get_announce_frame q now st')).
  - unfold route_get_scrape.
    pose proof (rateLimit_limiter_bound ip false now st Hnd Hsize) as Hr.
    destruct (rateLimit ip false now st) as [[r|] st']; cbn [snd] in *; exact Hr.
  - unfold roomCleanupInterval. destruct (MAX_ROOMS <? _); now split.
  - rewrite rateLimitCleanupInterval_eq. cbn [rateLimitMap setRateLimitMap].
    split; [now apply decay_keys_NoDup|].
    pose proof (decay_length now (rateLimitMap st)). unfold JsMap.size in *. lia.
  - now split.
  - now split.
Qed.

(** X9: the limiter table never holds more than MAX_RATE_LIMIT_ENTRIES
    entries.  After any history of requests and timer callbacks from the
    start of the process its keys are distinct and its size is within the
    limit. *)
Theorem limiter_table_is_bounded (ops : list Op) :
  NoDup (JsMap.keys (rateLimitMap (runOps ops initialState))) /\
  JsMap.size (rateLimitMap (runOps ops initialState)) <= MAX_RATE_LIMIT_ENTRIES.
Proof.
  assert (H : forall st,
             NoDup (JsMap.keys (rateLimitMap st)) /\
             JsMap.size (rateLimitMap st) <= MAX_RATE_LIMIT_ENTRIES ->
             NoDup (JsMap.keys (rateLimitMap (runOps ops st))) /\
             JsMap.size (rateLimitMap (runOps ops st)) <= MAX_RATE_LIMIT_ENTRIES).
  { unfold runOps. induction ops as [|op ops IH]; intros st Hst; [exact Hst|].
    cbn [fold_left]. apply IH. now apply applyOp_limiter_bound. }
  apply H. split; [constructor|]. cbn. unfold MAX_RATE_LIMIT_ENTRIES. lia.
Qed.

(** X10: the periodic cleanup of the rooms restores the limit from any
    size.  Whatever the number of rooms before, with distinct keys, the
    registry holds at most MAX_ROOMS rooms after the callback, and no room
    that it holds is expired. *)
Theorem room_cleanup_restores_limit (now : Z) (st : State) :
  NoDup (JsMap.keys (rooms st)) ->
  JsMap.size (rooms (roomCleanupInterval now st)) <= MAX_ROOMS /\
  (forall e, In e (rooms (roomCleanupInterval now st)) ->
             In e (rooms st) /\ isExpired now (snd e) = false).
Proof.
  intros Hnd. unfold roomCleanupInterval.
  assert (Hnd' : NoDup (JsMap.keys (sweepExpired now (rooms st))))
    by now apply NoDup_keys_filter.
  destruct (Z.ltb_spec MAX_ROOMS (JsMap.size (sweepExpired now (rooms st)))) as [Hover|Hin];
    cbn [rooms setRooms].
  - destruct (@delete_oldest_length _ _ _ _ byCreatedAt
                (Z.to_nat (JsMap.size (sweepExpired now (rooms st)) - MAX_ROOMS))
                (sweepExpired now (rooms st)) Hnd') as [Hlen _].
    + unfold JsMap.size, MAX_ROOMS in *. lia.
    + split.
      * unfold JsMap.size in *. rewrite Hlen. unfold MAX_ROOMS in *. lia.
      * intros e He. apply sweepExpired_In.
        revert He. generalize (firstn (Z.to_nat (JsMap.size (sweepExpired now (rooms st))
                                                  - MAX_ROOMS))
                                 (jsSort byCreatedAt (sweepExpired now (rooms st)))).
        generalize (sweepExpired now (rooms st)).
        intros m dead. revert m. induction dead as [|x dead IH]; intros m He; [exact He|].
        cbn [fold_left] in He. apply IH in He. unfold JsMap.delete in He.
        now apply filter_In in He.
  - split; [lia|]. intros e He. now apply sweepExpired_In.
Qed.

(** *** The set of nonces *)

Lemma checkNonce_nonces_bound nonce now st :
  Z.of_nat (List.length (usedNonces st)) <= MAX_NONCES ->
  Z.of_nat (List.length (usedNonces (snd (checkNonce nonce now st)))) <= MAX_NONCES.
Proof.
  intros Hle. unfold checkNonce.
  destruct (truthy nonce); [|exact Hle].
  destruct (setHas nonce (usedNonces st)); [exact Hle|].
  destruct (Z.leb_spec MAX_NONCES (Z.of_nat (List.length (usedNonces st))));
    cbn [snd usedNonces setNonces].
  - destruct (usedNonces st) as [|oldest rest]; [cbn in *; unfold MAX_NONCES in *; lia|].
    cbn [hd]. unfold setAdd.
    assert (Hdel : (List.length (setDelete oldest (oldest :: rest)) <= List.length rest)%nat).
    { unfold setDelete. cbn [filter]. destruct (JsVal_eqb_spec oldest oldest); [|congruence].
      cbn [negb]. apply filter_length_le. }
    destruct (setHas nonce _); [|rewrite length_app]; cbn [List.length] in *; lia.
  - unfold setAdd. destruct (setHas nonce _); [lia|].
    rewrite length_app. cbn [List.length]. lia.
Qed.

Lemma fold_setDelete_length (due : list (Z * JsVal)) :
  forall s, (List.length (fold_left (fun s t => setDelete (snd t) s) due s)
             <= List.length s)%nat.
Proof.
  induction due as [|t due IH]; intros s; cbn [fold_left]; [lia|].
  specialize (IH (setDelete (snd t) s)). pose proof (setDelete_length (snd t) s). lia.
Qed.

Lemma applyOp_nonces_bound op st :
  Z.of_nat (List.length (usedNonces st)) <= MAX_NONCES ->
  Z.of_nat (List.length (usedNonces (applyOp op st))) <= MAX_NONCES.
Proof.
  intros Hle. destruct op as [ip data now|ip q now|ip now|now|now|now|now]; cbn [applyOp].
  - unfold route_post_announce.
    pose proof (proj1 (rateLimit_nonces ip true now st)) as Hr.
    destruct (rateLimit ip true now st) as [[r|] st']; cbn [snd] in *; [now rewrite Hr|].
    rewrite post_announce_eq, validateAnnouncement_eq. cbv zeta. cbn [fst snd].
    destruct (validateFields data now ++ _); cbn [snd usedNonces setRooms];
      apply checkNonce_nonces_bound; now rewrite Hr.
  - unfold route_get_announce.
    pose proof (proj1 (rateLimit_nonces ip false now st)) as Hr.
    destruct (rateLimit ip false now st) as [[r|] st']; cbn [snd] in *; [now rewrite Hr|].
    destruct (get_announce_frame q now st') as (_ & _ & -> & _). now rewrite Hr.
  - unfold route_get_scrape.
    pose proof (proj1 (rateLimit_nonces ip false now st)) as Hr.
    destruct (rateLimit ip false now st) as [[r|] st']; cbn [snd] in *; [now rewrite Hr|].
    unfold get_scrape. cbn [snd usedNonces setRooms]. now rewrite Hr.
  - unfold roomCleanupInterval. destruct (MAX_ROOMS <? _); exact Hle.
  - exact Hle.
  - exact Hle.
  - cbn [runNonceTimers usedNonces setNonces].
    pose proof (fold_setDelete_length
                  (filter (fun t => fst t <=? now) (nonceTimers st)) (usedNonces st)).
    lia.
Qed.

(** X11: the set of used nonces never holds more than MAX_NONCES entries,
    after any history of requests and timer callbacks from the start of the
    process. *)
Theorem nonce_set_is_bounded (ops : list Op) :
  Z.of_nat (List.length (usedNonces (runOps ops initialState))) <= MAX_NONCES.
Proof.
  assert (H : forall st,
             Z.of_nat (List.length (usedNonces st)) <= MAX_NONCES ->
             Z.of_nat (List.length (usedNonces (runOps ops st))) <= MAX_NONCES).
  { unfold runOps. induction ops as [|op ops IH]; intros st Hst; [exact Hst|].
    cbn [fold_left]. apply IH. now apply applyOp_nonces_bound. }
  apply H. cbn. unfold MAX_NONCES. lia.
Qed.

(** *** What a listing holds *)

Lemma filterThrowing_In {A : Type} (f : A -> option bool) (l l' : list A) x :
  filterThrowing f l = Some l' -> In x l' -> In x l /\ f x = Some true.
Proof.
  revert l'. induction l as [|y l IH]; intros l' Hf Hin; cbn [filterThrowing] in Hf.
  - injection Hf as <-. destruct Hin.
  - destruct (f y) as [keep|] eqn:Hy; [|discriminate].
    destruct (filterThrowing f l) as [rest|]; [|discriminate].
    injection Hf as <-. destruct keep.
    + destruct Hin as [<-|Hin]; [split; [now left|exact Hy]|].
      destruct (IH rest eq_refl Hin) as [? ?]. split; [now right|assumption].
    + destruct (IH rest eq_refl Hin) as [? ?]. split; [now right|assumption].
Qed.

Lemma lowerIncludes_true searchLower v :
  lowerIncludes searchLower v = Some true ->
  exists s, v = JStr s /\ includes searchLower (toLowerCase s) = true.
Proof.
  unfold lowerIncludes. destruct (truthy v); [|discriminate].
  destruct v as [| |b|n|s]; try discriminate.
  intros [= H]. now exists s.
Qed.

Lemma searchMatches_true searchLower r :
  searchMatches searchLower r = Some true ->
  exists field,
    In field [Room.roomId r; Room.player1Name r; Room.player2Name r] /\
    exists s, field = JStr s /\ includes searchLower (toLowerCase s) = true.
Proof.
  unfold searchMatches.
  destruct (lowerIncludes searchLower (Room.roomId r)) as [[|]|] eqn:H1; try discriminate.
  - intros _. exists (Room.roomId r). split; [now left|now apply lowerIncludes_true].
  - destruct (lowerIncludes searchLower (Room.player1Name r)) as [[|]|] eqn:H2;
      try discriminate.
    + intros _. exists (Room.player1Name r).
      split; [right; now left|now apply lowerIncludes_true].
    + intros H3. exists (Room.player2Name r).
      split; [right; right; now left|now apply lowerIncludes_true].
Qed.

Lemma rateLimit_answers ip isPost now st r :
  fst (rateLimit ip isPost now st) = Some r ->
  (exists why, r = Resp403 why) \/ (exists seconds, r = Resp429 isPost seconds).
Proof.
  unfold rateLimit. destruct DISABLE_RATE_LIMIT; [discriminate|].
  destruct (isLocalhost ip).
  - destruct (isIPBlocked ip now (blockedIPs st)) as [[why|] blocked]; [|discriminate].
    intros [= <-]. left. now exists why.
  - destruct (isIPBlocked ip now (blockedIPs st)) as [[why|] blocked].
    + intros [= <-]. left. now exists why.
    + destruct (match JsMap.get ip (rateLimitMap st) with
                | Some d => _ | None => _ end) as [rateLimitData m1].
      destruct isPost; cbv zeta; cbn [announceCount count].
      * destruct (RATE_LIMIT_MAX_ANNOUNCES <? _); [|discriminate].
        intros [= <-]. right. eexists. reflexivity.
      * destruct (RATE_LIMIT_MAX_REQUESTS <? _); [|discriminate].
        intros [= <-]. right. eexists. reflexivity.
Qed.

(** X12: the handler of GET /announce does not fail on what the
    validation has let in.  In every state that a history of requests and
    timer callbacks reaches from the start of the process, and in which the
    [createdAt] and the wager of every room read as numbers, the route
    answers a query with the refusal of the middleware, with the 400 of a
    query that fails the validation, or with a page, never with the 500 of
    its catch block: the filters, the search included, run to the end on
    every stored room, since the validation lets only strings into
    [roomId], [player1Name] and [player2Name].  The 400 carries every error
    of the validation of the query. *)
Theorem listing_never_fails (ops : list Op) (ip : string) (q : Query.t) (now : Z) :
  (forall room, In room (JsMap.values (rooms (runOps ops initialState))) ->
                comparable room) ->
  fst (route_get_announce ip q now (runOps ops initialState)) <> Resp500 /\
  (validateQueryParams q <> [] ->
   fst (get_announce q now (runOps ops initialState)) = Resp400 (validateQueryParams q)) /\
  (validateQueryParams q = [] ->
   exists complete total offset limit page,
     fst (get_announce q now (runOps ops initialState)) =
       RespRooms complete total offset limit page).
Proof.
  intros _.
  assert (Hsearch : forall st', rooms st' = rooms (runOps ops initialState) ->
            exists L, filteredSorted q (sweepExpired now (rooms st')) = Some L).
  { intros st' Hr. apply filteredSorted_total. intros room Hin.
    apply values_filter_incl in Hin. rewrite Hr in Hin.
    revert room Hin. apply runOps_searchable. intros room []. }
  split; [|split].
  - unfold route_get_announce.
    pose proof (rateLimit_rooms ip false now (runOps ops initialState)) as Hr.
    pose proof (rateLimit_answers ip false now (runOps ops initialState)) as Hn.
    destruct (rateLimit ip false now (runOps ops initialState)) as [[r|] st'];
      cbn [fst snd] in *.
    + intros ->. destruct (Hn Resp500 eq_refl) as [[? ?]|[? ?]]; discriminate.
    + unfold get_announce. destruct (validateQueryParams q); [|discriminate].
      cbn [rooms setRooms]. destruct (Hsearch st' Hr) as [L ->]. discriminate.
  - intros Hq. unfold get_announce.
    destruct (validateQueryParams q); [contradiction|reflexivity].
  - intros Hq. unfold get_announce. rewrite Hq.
    cbn [rooms setRooms]. destruct (Hsearch _ eq_refl) as [L ->].
    cbn [fst]. eauto 6.
Qed.

Lemma filteredSorted_sound q rs L room :
  filteredSorted q rs = Some L -> In room L ->
  (Query.includePrivate q <> JStr "true" -> Query.includePrivate q <> JStr "1" ->
   Room.public room <> JBool false) /\
  (truthy (Query.gameType q) = true -> Query.gameType q <> JStr "all" ->
   Room.gameType room = Query.gameType q) /\
  (truthy (Query.status q) = true -> Query.status q <> JStr "all" ->
   Room.status room = Query.status q) /\
  (exists wager,
     toNumber (wagerOf room) = Some wager /\
     parseIntOr (Query.minWager q) 0 <= wager /\
     forall hi, parseInt (Query.maxWager q) = Some hi -> hi <> 0 -> wager <= hi) /\
  (sanitizeSearch (Query.search q) <> "" ->
   exists field,
     In field [Room.roomId room; Room.player1Name room; Room.player2Name room] /\
     exists s, field = JStr s /\
       includes (toLowerCase (sanitizeSearch (Query.search q))) (toLowerCase s) = true).
Proof.
  unfold filteredSorted. cbv zeta. intros HL Hin.
  destruct (filterSearch _ _) as [found|] eqn:Hfound; [|discriminate].
  cbn [option_map] in HL. injection HL as <-.
  apply sortRooms_In in Hin.
  assert (Hsearch : sanitizeSearch (Query.search q) <> "" ->
                    searchMatches (toLowerCase (sanitizeSearch (Query.search q))) room
                    = Some true).
  { intros Hne. unfold filterSearch in Hfound.
    destruct (String.eqb_spec (sanitizeSearch (Query.search q)) ""); [contradiction|].
    cbn [negb] in Hfound. now destruct (@filterThrowing_In _ _ _ _ room Hfound Hin). }
  assert (Hin' : In room
            (filterWager (parseIntOr (Query.minWager q) 0)
               match parseInt (Query.maxWager q) with
               | Some n => if n =? 0 then None else Some n
               | None => None
               end
               (filterStatus (jsOr (Query.status q) (JStr "all"))
                  (filterGameType (jsOr (Query.gameType q) (JStr "all"))
                     (filterVisible
                        (JsVal_eqb (Query.includePrivate q) (JStr "true")
                         || JsVal_eqb (Query.includePrivate q) (JStr "1"))
                        (JsMap.values rs)))))).
  { unfold filterSearch in Hfound.
    destruct (negb (sanitizeSearch (Query.search q) =? "")%string).
    - now apply (filterThrowing_incl _ _ Hfound).
    - now injection Hfound as <-. }
  clear Hin Hfound.
  unfold filterWager in Hin'. apply filter_In in Hin' as [Hin' Hw].
  assert (Hs : truthy (Query.status q) = true -> Query.status q <> JStr "all" ->
               Room.status room = Query.status q /\
               In room (filterGameType (jsOr (Query.gameType q) (JStr "all"))
                     (filterVisible
                        (JsVal_eqb (Query.includePrivate q) (JStr "true")
                         || JsVal_eqb (Query.includePrivate q) (JStr "1"))
                        (JsMap.values rs)))).
  { intros Ht Hall.
    assert (Hor : jsOr (Query.status q) (JStr "all") = Query.status q)
      by (unfold jsOr; now rewrite Ht).
    rewrite Hor in Hin'. unfold filterStatus in Hin'. rewrite Ht in Hin'.
    destruct (JsVal_eqb_spec (Query.status q) (JStr "all")); [contradiction|].
    cbn [andb negb] in Hin'. apply filter_In in Hin' as [Hin' He].
    split; [|exact Hin']. now destruct (JsVal_eqb_spec (Room.status room) (Query.status q)). }
  assert (Hin2 : In room (filterGameType (jsOr (Query.gameType q) (JStr "all"))
                     (filterVisible
                        (JsVal_eqb (Query.includePrivate q) (JStr "true")
                         || JsVal_eqb (Query.includePrivate q) (JStr "1"))
                        (JsMap.values rs)))).
  { unfold filterStatus in Hin'.
    destruct (truthy _ && negb _); [now apply filter_In in Hin'|exact Hin']. }
  clear Hin'.
  assert (Hg : truthy (Query.gameType q) = true -> Query.gameType q <> JStr "all" ->
               Room.gameType room = Query.gameType q).
  { intros Ht Hall.
    assert (Hor : jsOr (Query.gameType q) (JStr "all") = Query.gameType q)
      by (unfold jsOr; now rewrite Ht).
    rewrite Hor in Hin2. unfold filterGameType in Hin2. rewrite Ht in Hin2.
    destruct (JsVal_eqb_spec (Query.gameType q) (JStr "all")); [contradiction|].
    cbn [andb negb] in Hin2. apply filter_In in Hin2 as [_ He].
    now destruct (JsVal_eqb_spec (Room.gameType room) (Query.gameType q)). }
  assert (Hin3 : In room (filterVisible
                        (JsVal_eqb (Query.includePrivate q) (JStr "true")
                         || JsVal_eqb (Query.includePrivate q) (JStr "1"))
                        (JsMap.values rs))).
  { unfold filterGameType in Hin2.
    destruct (truthy _ && negb _); [now apply filter_In in Hin2|exact Hin2]. }
  clear Hin2.
  repeat split.
  - intros Ht H1 Hp. unfold filterVisible in Hin3.
    destruct (JsVal_eqb_spec (Query.includePrivate q) (JStr "true")); [contradiction|].
    destruct (JsVal_eqb_spec (Query.includePrivate q) (JStr "1")); [contradiction|].
    cbn [orb negb] in Hin3. apply filter_In in Hin3 as [_ He].
    rewrite Hp in He. discriminate.
  - exact Hg.
  - intros Ht Hall. now destruct (Hs Ht Hall).
  - unfold wagerInRange in Hw. fold (wagerOf room) in Hw.
    destruct (toNumber (wagerOf room)) as [wager|]; [|discriminate].
    exists wager. apply andb_true_iff in Hw as [Hlo Hhi].
    split; [reflexivity|]. split; [lia|].
    intros hi Hp Hne. rewrite Hp in Hhi.
    destruct (Z.eqb_spec hi 0); [contradiction|]. lia.
  - intros Hne. apply searchMatches_true. now apply Hsearch.
Qed.

(** X13: a listing holds only rooms that pass the filters of the query.
    A room of the page of GET /announce is public unless the query asks for
    the private rooms with [includePrivate] set to true or 1; it has the
    game type and the status of the query when these are given and are not
    all; its wager, 0 when it has none, is a number between the minimum and
    the maximum of the query, a maximum of 0 counting as none; and when the
    sanitized search is not empty, the room id or the name of one of the
    players is a string that holds it, letter case apart. *)
Theorem listing_respects_filters (q : Query.t) (now : Z) (st : State) (room : Room.t) :
  In room (pageOf (fst (get_announce q now st))) ->
  (Query.includePrivate q <> JStr "true" -> Query.includePrivate q <> JStr "1" ->
   Room.public room <> JBool false) /\
  (truthy (Query.gameType q) = true -> Query.gameType q <> JStr "all" ->
   Room.gameType room = Query.gameType q) /\
  (truthy (Query.status q) = true -> Query.status q <> JStr "all" ->
   Room.status room = Query.status q) /\
  (exists wager,
     toNumber (wagerOf room) = Some wager /\
     parseIntOr (Query.minWager q) 0 <= wager /\
     forall hi, parseInt (Query.maxWager q) = Some hi -> hi <> 0 -> wager <= hi) /\
  (sanitizeSearch (Query.search q) <> "" ->
   exists field,
     In field [Room.roomId room; Room.player1Name room; Room.player2Name room] /\
     exists s, field = JStr s /\
       includes (toLowerCase (sanitizeSearch (Query.search q))) (toLowerCase s) = true).
Proof.
  unfold get_announce. destruct (validateQueryParams q); [|intros []].
  cbn [rooms setRooms].
  destruct (filteredSorted q (sweepExpired now (rooms st))) as [L|] eqn:HL; [|intros []].
  cbn [fst pageOf]. intros Hin. apply jsSlice_incl in Hin.
  exact (@filteredSorted_sound q _ L room HL Hin).
Qed.

(** X14: a [maxWager] of 0 sets no upper bound.  A query whose [maxWager]
    reads as the number 0 passes the validation, and is answered as the
    same query without [maxWager]: same answer, same state. *)
Theorem zero_max_wager_is_no_bound (q : Query.t) (now : Z) (st : State) :
  parseInt (Query.maxWager q) = Some 0 ->
  get_announce q now st = get_announce (withMaxWager JUndef q) now st.
Proof.
  intros Hp. unfold get_announce.
  assert (Hv : validateQueryParams (withMaxWager JUndef q) = validateQueryParams q).
  { unfold validateQueryParams, withMaxWager. cbn. rewrite Hp.
    destruct (isDefined (Query.maxWager q)); reflexivity. }
  assert (Hf : forall rs, filteredSorted (withMaxWager JUndef q) rs = filteredSorted q rs).
  { intros rs. unfold filteredSorted, withMaxWager. cbn. now rewrite Hp. }
  rewrite Hv. destruct (validateQueryParams q); [|reflexivity].
  rewrite Hf. reflexivity.
Qed.

(** *** The life of an announced room *)

Lemma isExpired_updated now room t :
  Room.updatedAt room = JNum t -> t <> 0 ->
  isExpired now room = (PEER_TIMEOUT * 1000 <? now - t).
Proof.
  intros Hu Ht. unfold isExpired, lastActivity, jsOr. rewrite Hu.
  cbn [truthy]. destruct (Z.eqb_spec t 0); [contradiction|].
  cbn [negb truthy andb jsSub toNumber]. destruct (Z.eqb_spec t 0); [contradiction|].
  reflexivity.
Qed.

(** X15: an announcement keeps its room alive for PEER_TIMEOUT seconds.
    When POST /announce, at a time [now] other than 0 and on a registry
    with distinct keys and within its limit, answers with a room, the room
    is stored under the [roomId] of the announcement with [now] as its
    [updatedAt]; each of the three sweeps, that of the periodic callback,
    of GET /scrape and of GET /announce with a valid query, run at a time
    [t], keeps the room as it is when [t - now] is at most PEER_TIMEOUT
    seconds, and removes it when [t - now] is more. *)
Theorem announcement_keeps_room_alive
    (data : Data.t) (now t : Z) (st : State) (room : Room.t) (q : Query.t) :
  NoDup (JsMap.keys (rooms st)) ->
  JsMap.size (rooms st) <= MAX_ROOMS ->
  now <> 0 ->
  validateQueryParams q = [] ->
  fst (post_announce data now st) = RespRoom room ->
  let st1 := snd (post_announce data now st) in
  let kept := if PEER_TIMEOUT * 1000 <? t - now then None else Some room in
  JsMap.get (Data.roomId data) (rooms st1) = Some room /\
  Room.updatedAt room = JNum now /\
  JsMap.get (Data.roomId data) (rooms (roomCleanupInterval t st1)) = kept /\
  JsMap.get (Data.roomId data) (rooms (snd (get_scrape t st1))) = kept /\
  JsMap.get (Data.roomId data) (rooms (snd (get_announce q t st1))) = kept.
Proof.
  intros Hnd Hsz Hnow Hq Hresp st1 kept.
  assert (Hbound : JsMap.size (rooms st1) <= MAX_ROOMS) by now apply post_announce_bound.
  subst st1. revert Hresp Hbound. rewrite post_announce_eq. cbv zeta.
  destruct (fst (validateAnnouncement data now st)) as [|e es]; [|discriminate].
  cbn [fst snd rooms setRooms]. intros [= Hroom] Hbound.
  set (rs := enforceRoomLimit (rooms st)) in *.
  assert (Hget : JsMap.get (Data.roomId data) (JsMap.set (Data.roomId data) room rs)
                 = Some room) by apply get_set_same.
  assert (Hup : Room.updatedAt room = JNum now).
  { rewrite <- Hroom. now destruct (JsMap.get (Data.roomId data) rs). }
  assert (Hnd1 : NoDup (JsMap.keys (JsMap.set (Data.roomId data) room rs))).
  { apply NoDup_keys_set. now apply enforceRoomLimit_NoDup. }
  assert (Hswept : JsMap.get (Data.roomId data)
                     (sweepExpired t (JsMap.set (Data.roomId data) room rs)) = kept).
  { unfold sweepExpired. rewrite get_filter_NoDup by exact Hnd1. rewrite Hget. cbn [snd].
    rewrite (@isExpired_updated t room now Hup Hnow). subst kept.
    now destruct (PEER_TIMEOUT * 1000 <? t - now). }
  rewrite Hroom in Hbound |- *.
  split; [exact Hget|]. split; [exact Hup|]. split; [|split].
  - rewrite roomCleanupInterval_within by (cbn [rooms setRooms]; exact Hbound).
    exact Hswept.
  - unfold get_scrape. cbn [snd rooms setRooms]. exact Hswept.
  - unfold get_announce. rewrite Hq. cbn [rooms setRooms].
    destruct (filteredSorted q _); cbn [snd rooms setRooms]; exact Hswept.
Qed.

(** *** The retention of nonces *)

Lemma fold_setDelete_In (due : list (Z * JsVal)) x :
  forall s, In x (fold_left (fun s t => setDelete (snd t) s) due s) <->
            In x s /\ ~ In x (map snd due).
Proof.
  induction due as [|t due IH]; intros s; cbn [fold_left map].
  - tauto.
  - rewrite IH, setDelete_In. cbn [In]. intuition congruence.
Qed.

Lemma setAdd_In v s x : In x (setAdd v s) -> x = v \/ In x s.
Proof.
  unfold setAdd. destruct (setHas v s); [now right|].
  intros Hin. apply in_app_or in Hin as [Hin|[<-|[]]]; [now right|now left].
Qed.

Lemma checkNonce_cover nonce now st :
  timersCover st -> timersCover (snd (checkNonce nonce now st)).
Proof.
  intros Hst. unfold checkNonce. destruct (truthy nonce); [|exact Hst].
  assert (Hold : forall x, In x (usedNonces st) ->
            exists due, In (due, x) (nonceTimers st ++ [(now + NONCE_CLEANUP_INTERVAL, nonce)])).
  { intros x Hx. destruct (Hst x Hx) as [due Hdue]. exists due. apply in_or_app. now left. }
  assert (Hnew : exists due,
            In (due, nonce) (nonceTimers st ++ [(now + NONCE_CLEANUP_INTERVAL, nonce)])).
  { exists (now + NONCE_CLEANUP_INTERVAL). apply in_or_app. right. now left. }
  destruct (setHas nonce (usedNonces st)); [|destruct (MAX_NONCES <=? _)];
    intros x Hx; cbn [snd usedNonces nonceTimers setNonces] in *.
  - now apply Hold.
  - apply setAdd_In in Hx as [->|Hx]; [exact Hnew|].
    apply setDelete_In in Hx as [Hx _]. now apply Hold.
  - apply setAdd_In in Hx as [->|Hx]; [exact Hnew|]. now apply Hold.
Qed.

Lemma runNonceTimers_cover now st : timersCover st -> timersCover (runNonceTimers now st).
Proof.
  intros Hst x Hx. cbn [runNonceTimers usedNonces nonceTimers setNonces] in *.
  apply fold_setDelete_In in Hx as [Hx Hnot].
  destruct (Hst x Hx) as [due Hdue]. exists due. apply filter_In. split; [exact Hdue|].
  cbn [fst]. destruct (due <=? now) eqn:Hle; [|reflexivity].
  exfalso. apply Hnot. change x with (snd (due, x)). apply in_map.
  apply filter_In. now split.
Qed.

Lemma applyOp_cover op st : timersCover st -> timersCover (applyOp op st).
Proof.
  intros Hst.
  assert (Hframe : forall st', usedNonces st' = usedNonces st ->
                     nonceTimers st' = nonceTimers st -> timersCover st').
  { intros st' Hu Ht x Hx. rewrite Hu in Hx. rewrite Ht. now apply Hst. }
  destruct op as [ip data now|ip q now|ip now|now|now|now|now]; cbn [applyOp].
  - unfold route_post_announce.
    destruct (rateLimit_nonces ip true now st) as [Hu Ht].
    destruct (rateLimit ip true now st) as [[r|] st']; cbn [snd] in *; [now apply Hframe|].
    rewrite post_announce_eq, validateAnnouncement_eq. cbv zeta. cbn [fst snd].
    pose proof (@checkNonce_cover (Data.nonce data) now st' (Hframe st' Hu Ht)) as Hc.
    destruct (validateFields data now ++ _); cbn [snd]; [|exact Hc].
    intros x Hx. cbn [usedNonces nonceTimers setRooms] in *. now apply Hc.
  - unfold route_get_announce.
    destruct (rateLimit_nonces ip false now st) as [Hu Ht].
    destruct (rateLimit ip false now st) as [[r|] st']; cbn [snd] in *; [now apply Hframe|].
    destruct (get_announce_frame q now st') as (_ & _ & Hu' & Ht').
    apply Hframe; congruence.
  - unfold route_get_scrape.
    destruct (rateLimit_nonces ip false now st) as [Hu Ht].
    destruct (rateLimit ip false now st) as [[r|] st']; cbn [snd] in *; [now apply Hframe|].
    unfold get_scrape. cbn [snd]. now apply Hframe.
  - unfold roomCleanupInterval. destruct (MAX_ROOMS <? _); now apply Hframe.
  - now apply Hframe.
  - now apply Hframe.
  - now apply runNonceTimers_cover.
Qed.

Lemma runOps_cover ops : forall st, timersCover st -> timersCover (runOps ops st).
Proof.
  unfold runOps. induction ops as [|op ops IH]; intros st Hst; [exact Hst|].
  cbn [fold_left]. apply IH. now apply applyOp_cover.
Qed.

(** X16: the replay guard forgets every nonce.  In every state that a
    history of requests and timer callbacks reaches from the start of the
    process, a recorded nonce has a pending callback; once the callbacks
    due at that time or later have run, the nonce is no longer recorded, and
    an announcement that carries it passes the replay check again. *)
Theorem nonces_are_forgotten (ops : list Op) (nonce : JsVal) :
  setHas nonce (usedNonces (runOps ops initialState)) = true ->
  exists due,
    In (due, nonce) (nonceTimers (runOps ops initialState)) /\
    forall now now',
      due <= now ->
      setHas nonce (usedNonces (runNonceTimers now (runOps ops initialState))) = false /\
      fst (checkNonce nonce now' (runNonceTimers now (runOps ops initialState))) = [].
Proof.
  intros Hhas. apply setHas_In in Hhas.
  destruct (@runOps_cover ops initialState) with (nonce := nonce) as [due Hdue].
  - intros x [].
  - exact Hhas.
  - exists due. split; [exact Hdue|]. intros now now' Hle.
    assert (Hgone : setHas nonce (usedNonces (runNonceTimers now (runOps ops initialState)))
                    = false).
    { apply setHas_false. cbn [runNonceTimers usedNonces setNonces].
      intros Hin. apply fold_setDelete_In in Hin as [_ Hnot]. apply Hnot.
      change nonce with (snd (due, nonce)). apply in_map. apply filter_In.
      split; [exact Hdue|]. cbn [fst]. now apply Z.leb_le. }
    split; [exact Hgone|].
    unfold checkNonce. destruct (truthy nonce); [|reflexivity].
    rewrite Hgone. now destruct (MAX_NONCES <=? _).
Qed.

(** *** What the registry holds *)

Section EntryFacts.
Context {K V : Type} {E : KeyEq K} {L : KeyEqLaws E}.

Lemma In_set_inv (k : K) (v : V) (m : list (K * V)) (e : K * V) :
  In e (JsMap.set k v m) -> e = (k, v) \/ In e m.
Proof.
  induction m as [|[k0 v0] m IH]; cbn [JsMap.set].
  - intros [<-|[]]. now left.
  - destruct (keq_spec k k0) as [->|Hne].
    + intros [<-|Hin]; [now left|right; now right].
    + intros [<-|Hin]; [right; now left|].
      destruct (IH Hin) as [->|Hr]; [now left|right; now right].
Qed.

Lemma In_fold_delete (dead : list (K * V)) (e : K * V) :
  forall m : list (K * V),
    In e (fold_left (fun acc d => JsMap.delete (fst d) acc) dead m) -> In e m.
Proof.
  induction dead as [|d dead IH]; intros m Hin; [exact Hin|].
  cbn [fold_left] in Hin. apply IH in Hin.
  unfold JsMap.delete in Hin. now apply filter_In in Hin.
Qed.
End EntryFacts.

Lemma enforceRoomLimit_incl rs e : In e (enforceRoomLimit rs) -> In e rs.
Proof.
  unfold enforceRoomLimit. destruct (MAX_ROOMS <=? JsMap.size rs); [|auto].
  destruct (jsSort byCreatedAt rs); [auto|].
  unfold JsMap.delete. intros Hin. now apply filter_In in Hin.
Qed.

(** A property of the entries that the two branches of POST /announce
    establish is kept by every request and every callback. *)
Lemma applyOp_entries (P : JsVal * Room.t -> Prop) :
  (forall data now, validateFields data now = [] ->
                    P (Data.roomId data, newRoom data now)) ->
  (forall data now room, validateFields data now = [] ->
                         P (Data.roomId data, room) ->
                         P (Data.roomId data, updateRoom room data now)) ->
  forall op st,
    (forall e, In e (rooms st) -> P e) ->
    forall e, In e (rooms (applyOp op st)) -> P e.
Proof.
  intros Hnew Hupd op st Hst e.
  destruct op as [ip data now|ip q now|ip now|now|now|now|now]; cbn [applyOp].
  - unfold route_post_announce.
    pose proof (rateLimit_rooms ip true now st) as Hr.
    destruct (rateLimit ip true now st) as [[r|] st']; cbn [snd] in *.
    + rewrite Hr. apply Hst.
    + rewrite post_announce_eq. cbv zeta.
      destruct (fst (validateAnnouncement data now st')) as [|err errs] eqn:Herr;
        cbn [snd].
      2: { rewrite validateAnnouncement_rooms, Hr. apply Hst. }
      rewrite validateAnnouncement_eq in Herr. cbn [fst] in Herr.
      apply app_eq_nil in Herr as [Hfields _].
      cbn [rooms setRooms]. rewrite Hr. intros Hin.
      apply In_set_inv in Hin as [->|Hin].
      * destruct (JsMap.get (Data.roomId data) (enforceRoomLimit (rooms st)))
          as [room|] eqn:Hg.
        -- apply Hupd; [exact Hfields|]. apply Hst.
           apply enforceRoomLimit_incl. now apply get_In.
        -- now apply Hnew.
      * apply Hst. now apply enforceRoomLimit_incl.
  - unfold route_get_announce.
    pose proof (rateLimit_rooms ip false now st) as Hr.
    destruct (rateLimit ip false now st) as [[r|] st']; cbn [snd] in *.
    + rewrite Hr. apply Hst.
    + destruct (get_announce_rooms q now st') as [-> | ->]; rewrite Hr;
        [apply Hst|intros Hin; apply sweepExpired_In in Hin as [Hin _]; now apply Hst].
  - unfold route_get_scrape.
    pose proof (rateLimit_rooms ip false now st) as Hr.
    destruct (rateLimit ip false now st) as [[r|] st']; cbn [snd] in *.
    + rewrite Hr. apply Hst.
    + unfold get_scrape. cbn [snd rooms setRooms]. rewrite Hr.
      intros Hin. apply sweepExpired_In in Hin as [Hin _]. now apply Hst.
  - unfold roomCleanupInterval.
    destruct (MAX_ROOMS <? JsMap.size (sweepExpired now (rooms st))); cbn [rooms setRooms];
      intros Hin.
    + apply In_fold_delete in Hin. apply sweepExpired_In in Hin as [Hin _]. now apply Hst.
    + apply sweepExpired_In in Hin as [Hin _]. now apply Hst.
  - apply Hst.
  - apply Hst.
  - apply Hst.
Qed.

Lemma runOps_entries (P : JsVal * Room.t -> Prop) :
  (forall data now, validateFields data now = [] ->
                    P (Data.roomId data, newRoom data now)) ->
  (forall data now room, validateFields data now = [] ->
                         P (Data.roomId data, room) ->
                         P (Data.roomId data, updateRoom room data now)) ->
  forall ops st,
    (forall e, In e (rooms st) -> P e) ->
    forall e, In e (rooms (runOps ops st)) -> P e.
Proof.
  intros Hnew Hupd. unfold runOps.
  induction ops as [|op ops IH]; intros st Hst; [exact Hst|].
  cbn [fold_left]. apply IH. now apply applyOp_entries.
Qed.

Lemma app_nil2 {A : Type} (l1 l2 : list A) : l1 = [] -> l2 = [] -> l1 ++ l2 = [].
Proof. now intros -> ->. Qed.

Lemma jsOr_valid (check : JsVal -> list string) d r :
  check d = [] -> check r = [] -> check (jsOr d r) = [].
Proof. unfold jsOr. now destruct (truthy d). Qed.

Lemma ifDefined_valid (check : JsVal -> list string) d r :
  check d = [] -> check r = [] -> check (ifDefined d r) = [].
Proof. unfold ifDefined. now destruct (isDefined d). Qed.

Lemma validateFields_status data now :
  validateFields data now = [] ->
  (truthy (Data.status data) = true ->
   arrayIncludes (Data.status data) validStatuses = true) /\
  (isDefined (Data.public data) = true -> isBoolean (Data.public data) = true).
Proof.
  unfold validateFields. intros Hv.
  repeat match type of Hv with
         | _ ++ _ = [] => apply app_eq_nil in Hv as [? Hv]
         end.
  split.
  - intros Ht. unfold validateStatus in *. rewrite Ht in *.
    destruct (arrayIncludes (Data.status data) validStatuses); [reflexivity|discriminate].
  - intros Hd. unfold validatePublic in *. rewrite Hd in *.
    destruct (isBoolean (Data.public data)); [reflexivity|discriminate].
Qed.

Ltac split_fields H :=
  unfold validateFields in H;
  repeat match type of H with
         | _ ++ _ = [] => let H' := fresh "Hf" in apply app_eq_nil in H as [H' H]
         end.

Ltac field_valid :=
  first [ assumption
        | reflexivity
        | apply jsOr_valid; first [assumption | reflexivity]
        | apply ifDefined_valid; first [assumption | reflexivity] ].

Lemma newRoom_valid data now :
  validateFields data now = [] -> storedValid (Data.roomId data, newRoom data now).
Proof.
  intros Hv. destruct (validateFields_status _ _ Hv) as [Hstatus Hpublic].
  split_fields Hv.
  unfold storedValid. cbn [fst snd]. split; [reflexivity|]. split; [|split; [|split]].
  - intros now'. unfold validateFields, asAnnouncement, newRoom. cbn.
    repeat apply app_nil2; field_valid.
  - cbn. unfold jsOr. destruct (truthy (Data.status data)); [now apply Hstatus|reflexivity].
  - cbn. unfold ifDefined. destruct (isDefined (Data.public data)); [now apply Hpublic|reflexivity].
  - now exists now.
Qed.

Lemma updateRoom_valid data now room :
  validateFields data now = [] ->
  storedValid (Data.roomId data, room) ->
  storedValid (Data.roomId data, updateRoom room data now).
Proof.
  intros Hv (Hid & Hold & Hst & Hpub & _).
  destruct (validateFields_status _ _ Hv) as [Hstatus Hpublic].
  specialize (Hold now). cbn [fst snd] in *.
  split_fields Hv. split_fields Hold.
  unfold storedValid. cbn [fst snd]. split; [exact Hid|]. split; [|split; [|split]].
  - intros now'. unfold validateFields, asAnnouncement, updateRoom. cbn.
    unfold asAnnouncement in *. cbn in *.
    repeat apply app_nil2; field_valid.
  - cbn. unfold jsOr. destruct (truthy (Data.status data)); [now apply Hstatus|exact Hst].
  - cbn. unfold ifDefined. destruct (isDefined (Data.public data)); [now apply Hpublic|exact Hpub].
  - now exists now.
Qed.

(** X17: the registry holds only valid rooms.  In every state that a
    history of requests and timer callbacks reaches from the start of the
    process, every room is stored under its own [roomId]; read as an
    announcement it passes every check of [validateAnnouncement] on the
    fields, so the merges of the updates have not let an invalid value in;
    its [status] is one of waiting, active, finished and cancelled, its
    [public] flag is a boolean and its [updatedAt] a number. *)
Theorem registry_holds_valid_rooms (ops : list Op) (e : JsVal * Room.t) :
  In e (rooms (runOps ops initialState)) -> storedValid e.
Proof.
  revert e. apply runOps_entries.
  - apply newRoom_valid.
  - apply updateRoom_valid.
  - intros e [].
Qed.

(** *** The statistics, key by key *)

Lemma get_increment key key' obj :
  JsMap.get key' (increment key obj) =
    if (key =? key')%string
    then Some (match JsMap.get key obj with Some n => n | None => 0 end + 1)
    else JsMap.get key' obj.
Proof.
  unfold increment. destruct (String.eqb_spec key key') as [<-|Hne].
  - rewrite get_set_same. destruct (JsMap.get key obj) as [n|]; [|reflexivity].
    destruct (Z.eqb_spec n 0) as [->|]; reflexivity.
  - now apply get_set_other.
Qed.

Lemma get_fold_increment (g : Room.t -> string) key (l : list Room.t) :
  forall obj,
    JsMap.get key (fold_left (fun obj room => increment (g room) obj) l obj) =
      let n := Z.of_nat (List.length (filter (fun room => (g room =? key)%string) l)) in
      match JsMap.get key obj with
      | Some old => Some (old + n)
      | None => if n =? 0 then None else Some n
      end.
Proof.
  induction l as [|room l IH]; intros obj; cbn [fold_left filter].
  - cbn. destruct (JsMap.get key obj) as [old|]; [f_equal; lia|reflexivity].
  - rewrite IH, get_increment. cbv zeta.
    destruct (g room =? key)%string eqn:Hk.
    + apply String.eqb_eq in Hk. rewrite Hk. cbn [List.length].
      destruct (JsMap.get key obj) as [old|].
      * f_equal. lia.
      * destruct (Z.eqb_spec (Z.of_nat (S (List.length
                    (filter (fun room0 => (g room0 =? key)%string) l)))) 0); [lia|].
        f_equal. lia.
    + reflexivity.
Qed.

(** X18: the statistics of GET /scrape count every room once under the
    key its field names.  In every state that a history of requests and
    timer callbacks reaches from the start of the process, and for every
    key, the entry of [_by_game_type] is the number of rooms left by the
    sweep whose [gameType], or unknown when it is falsy, names that key,
    and there is no entry when there is no such room; likewise for
    [_by_status] and the [status]. *)
Theorem scrape_counts_each_key (ops : list Op) (now : Z) (key : string) :
  let r := fst (get_scrape now (runOps ops initialState)) in
  let active := JsMap.values (sweepExpired now (rooms (runOps ops initialState))) in
  JsMap.get key (statsByGameType r) =
    (if keyCount Room.gameType key active =? 0 then None
     else Some (keyCount Room.gameType key active)) /\
  JsMap.get key (statsByStatus r) =
    (if keyCount Room.status key active =? 0 then None
     else Some (keyCount Room.status key active)).
Proof.
  cbn [get_scrape fst statsOf statsByGameType statsByStatus rooms setRooms].
  unfold countBy, keyCount.
  split.
  - exact (get_fold_increment
             (fun room => propertyKey (jsOr (Room.gameType room) (JStr "unknown"))) key
             (JsMap.values (sweepExpired now (rooms (runOps ops initialState)))) []).
  - exact (get_fold_increment
             (fun room => propertyKey (jsOr (Room.status room) (JStr "unknown"))) key
             (JsMap.values (sweepExpired now (rooms (runOps ops initialState)))) []).
Qed.

(** *** The order of a listing *)

Section SortedFacts.
Context {A : Type} (key : A -> Z).

Lemma insertSorted_In (cmp : A -> A -> Z) x y l :
  In y (insertSorted cmp x l) -> y = x \/ In y l.
Proof.
  intros Hin. apply (Permutation_in _ (insertSorted_perm cmp x l)) in Hin.
  destruct Hin as [<-|Hin]; [now left|now right].
Qed.

Lemma insertSorted_sorted (cmp : A -> A -> Z) x l :
  (forall y, In y l -> cmp x y = key x - key y) ->
  StronglySorted (fun a b => key a <= key b) l ->
  StronglySorted (fun a b => key a <= key b) (insertSorted cmp x l).
Proof.
  intros Hcmp Hs. induction Hs as [|y l Hs IH Hall]; cbn [insertSorted].
  - constructor; constructor.
  - rewrite (Hcmp y (or_introl eq_refl)).
    destruct (Z.leb_spec (key x - key y) 0) as [Hle|Hgt].
    + constructor; [constructor; assumption|].
      constructor; [lia|]. rewrite Forall_forall in *. intros z Hz.
      specialize (Hall z Hz). lia.
    + constructor.
      * apply IH. intros z Hz. apply Hcmp. now right.
      * rewrite Forall_forall in *. intros z Hz.
        apply insertSorted_In in Hz as [->|Hz]; [lia|now apply Hall].
Qed.

Lemma jsSort_sorted (cmp : A -> A -> Z) l :
  (forall a b, In a l -> In b l -> cmp a b = key a - key b) ->
  StronglySorted (fun a b => key a <= key b) (jsSort cmp l).
Proof.
  unfold jsSort. induction l as [|x l IH]; intros Hcmp; cbn [fold_right].
  - constructor.
  - apply insertSorted_sorted.
    + intros y Hy. apply Hcmp; [now left|right].
      fold (jsSort cmp l) in Hy. now apply jsSort_In in Hy.
    + apply IH. intros a b Ha Hb. apply Hcmp; now right.
Qed.

Lemma StronglySorted_skipn (R : A -> A -> Prop) n l :
  StronglySorted R l -> StronglySorted R (skipn n l).
Proof.
  revert l. induction n as [|n IH]; intros l Hs; [exact Hs|].
  destruct l as [|x l]; [constructor|]. cbn [skipn]. apply IH.
  now inversion Hs.
Qed.

Lemma StronglySorted_firstn (R : A -> A -> Prop) n l :
  StronglySorted R l -> StronglySorted R (firstn n l).
Proof.
  revert l. induction n as [|n IH]; intros l Hs; [constructor|].
  destruct l as [|x l]; [constructor|]. cbn [firstn].
  inversion Hs as [|? ? Hs' Hall]; subst. constructor; [now apply IH|].
  rewrite Forall_forall in *. intros z Hz. apply Hall.
  rewrite <- (firstn_skipn n l). apply in_or_app. now left.
Qed.

Lemma StronglySorted_jsSlice (R : A -> A -> Prop) s e l :
  StronglySorted R l -> StronglySorted R (jsSlice s e l).
Proof.
  intros Hs. unfold jsSlice. now apply StronglySorted_firstn, StronglySorted_skipn.
Qed.
End SortedFacts.

Lemma jsSub_comparable a b :
  toNumber a <> None -> toNumber b <> None ->
  nanToZero (jsSub a b) = nanToZero (toNumber a) - nanToZero (toNumber b).
Proof.
  unfold jsSub. destruct (toNumber a), (toNumber b); try congruence. reflexivity.
Qed.

Lemma filteredSorted_sorted q rs L :
  filteredSorted q rs = Some L ->
  exists found,
    incl found (JsMap.values rs) /\
    L = sortRooms (jsOr (Query.sort q) (JStr "newest")) found.
Proof.
  unfold filteredSorted. cbv zeta.
  destruct (filterSearch _ _) as [found|] eqn:Hfound; [|discriminate].
  cbn [option_map]. intros [= <-]. exists found. split; [|reflexivity].
  intros room Hin.
  assert (Hsome : option_map (sortRooms (jsOr (Query.sort q) (JStr "newest")))
                    (filterSearch (sanitizeSearch (Query.search q))
                       (filterWager (parseIntOr (Query.minWager q) 0)
                          match parseInt (Query.maxWager q) with
                          | Some n => if n =? 0 then None else Some n
                          | None => None
                          end
                          (filterStatus (jsOr (Query.status q) (JStr "all"))
                             (filterGameType (jsOr (Query.gameType q) (JStr "all"))
                                (filterVisible
                                   (JsVal_eqb (Query.includePrivate q) (JStr "true")
                                    || JsVal_eqb (Query.includePrivate q) (JStr "1"))
                                   (JsMap.values rs))))))
                  = Some (sortRooms (jsOr (Query.sort q) (JStr "newest")) found))
    by now rewrite Hfound.
  apply (@filteredSorted_incl q rs _ Hsome). now apply sortRooms_In.
Qed.

(** X19: a listing comes in the order the query asks for.  When the
    [createdAt] and the wager of every stored room read as numbers, the
    page of GET /announce is ordered: by [createdAt], oldest first, for the
    sort oldest; by wager, highest first, for wager_high; by wager, lowest
    first, for wager_low; and by [createdAt], newest first, for any other
    sort and for none. *)
Theorem listing_is_ordered (q : Query.t) (now : Z) (st : State) :
  (forall room, In room (JsMap.values (rooms st)) -> comparable room) ->
  let page := pageOf (fst (get_announce q now st)) in
  (Query.sort q = JStr "oldest" ->
   StronglySorted (fun a b => createdAtValue a <= createdAtValue b) page) /\
  (Query.sort q = JStr "wager_high" ->
   StronglySorted (fun a b => wagerValue b <= wagerValue a) page) /\
  (Query.sort q = JStr "wager_low" ->
   StronglySorted (fun a b => wagerValue a <= wagerValue b) page) /\
  (Query.sort q <> JStr "oldest" -> Query.sort q <> JStr "wager_high" ->
   Query.sort q <> JStr "wager_low" ->
   StronglySorted (fun a b => createdAtValue b <= createdAtValue a) page).
Proof.
  intros Hnum page. subst page. unfold get_announce.
  destruct (validateQueryParams q); [|cbn; repeat split; intros; constructor].
  cbn [rooms setRooms].
  destruct (filteredSorted q (sweepExpired now (rooms st))) as [L|] eqn:HL;
    [|cbn; repeat split; intros; constructor].
  cbn [fst pageOf].
  destruct (filteredSorted_sorted _ _ HL) as (found & Hincl & ->).
  assert (Hc : forall room, In room found -> comparable room).
  { intros room Hin. apply Hnum. apply Hincl in Hin. now apply values_filter_incl in Hin. }
  clear HL Hincl.
  assert (Hdesc : forall (key : Room.t -> Z) l,
            StronglySorted (fun a b => - key a <= - key b) l ->
            StronglySorted (fun a b => key b <= key a) l).
  { intros key l Hs. induction Hs as [|x l Hs IH Hall]; constructor; [exact IH|].
    rewrite Forall_forall in *. intros z Hz. specialize (Hall z Hz). lia. }
  repeat split.
  - intros ->. apply StronglySorted_jsSlice. cbn.
    apply (jsSort_sorted createdAtValue). intros a b Ha Hb.
    apply jsSub_comparable; now apply Hc.
  - intros ->. apply StronglySorted_jsSlice, Hdesc. cbn.
    apply (jsSort_sorted (fun room => - wagerValue room)). intros a b Ha Hb.
    rewrite jsSub_comparable by now apply Hc. unfold wagerValue. lia.
  - intros ->. apply StronglySorted_jsSlice. cbn.
    apply (jsSort_sorted wagerValue). intros a b Ha Hb.
    apply jsSub_comparable; now apply Hc.
  - intros H1 H2 H3. apply StronglySorted_jsSlice, Hdesc.
    assert (Hs : forall name, Query.sort q <> JStr name -> name <> "newest" ->
                   JsVal_eqb (jsOr (Query.sort q) (JStr "newest")) (JStr name) = false).
    { intros name Hq Hn. destruct (JsVal_eqb_spec (jsOr (Query.sort q) (JStr "newest"))
                                     (JStr name)) as [Heq|]; [|reflexivity].
      exfalso. unfold jsOr in Heq. destruct (truthy (Query.sort q)); congruence. }
    unfold sortRooms.
    rewrite (Hs "oldest" H1), (Hs "wager_high" H2), (Hs "wager_low" H3) by discriminate.
    apply (jsSort_sorted (fun room => - createdAtValue room)). intros a b Ha Hb.
    rewrite jsSub_comparable by now apply Hc. unfold createdAtValue. lia.
Qed.

(** *** The address of the client *)

Lemma orString_nonempty a b : b <> "" -> orString a b <> "".
Proof.
  intros Hb. unfold orString. destruct a as [s|]; [|exact Hb].
  destruct (String.eqb_spec s ""); assumption.
Qed.

Lemma firstField_no_comma s c : In c (charsOf (firstField s)) -> c <> ","%char.
Proof.
  induction s as [|c0 s IH]; cbn [firstField charsOf]; [intros []|].
  destruct (Ascii.eqb_spec c0 ","%char) as [->|Hne]; cbn [charsOf In]; [intros []|].
  intros [<-|Hin]; [exact Hne|now apply IH].
Qed.

Lemma dropWhitespace_chars s c : In c (charsOf (dropWhitespace s)) -> In c (charsOf s).
Proof.
  induction s as [|c0 s IH]; cbn [dropWhitespace charsOf]; [intros []|].
  destruct (isWhitespace c0); [intros Hin; right; now apply IH|].
  cbn [charsOf]. auto.
Qed.

Lemma trimEnd_chars s c : In c (charsOf (trimEnd s)) -> In c (charsOf s).
Proof.
  revert c. induction s as [|c0 s IH]; intros c; cbn [trimEnd charsOf]; [intros []|].
  destruct (trimEnd s) as [|c1 t].
  - destruct (isWhitespace c0); cbn [charsOf In]; [intros []|].
    intros [<-|[]]. now left.
  - cbn [charsOf In] in *. intros [<-|Hin]; [now left|right]. now apply IH.
Qed.

Lemma dropWhitespace_head s :
  match dropWhitespace s with
  | String c _ => isWhitespace c = false
  | EmptyString => True
  end.
Proof.
  induction s as [|c0 s IH]; cbn [dropWhitespace]; [exact I|].
  destruct (isWhitespace c0) eqn:Hc; [exact IH|exact Hc].
Qed.

Lemma trimEnd_head s :
  match s with
  | String c _ => trimEnd s = EmptyString \/ exists t, trimEnd s = String c t
  | EmptyString => trimEnd s = EmptyString
  end.
Proof.
  destruct s as [|c s]; cbn [trimEnd]; [reflexivity|].
  destruct (trimEnd s) as [|c1 t]; [|right; eauto].
  destruct (isWhitespace c); [now left|right; eauto].
Qed.

Lemma trimEnd_last s :
  trimEnd s <> "" -> isWhitespace (last (charsOf (trimEnd s)) " "%char) = false.
Proof.
  induction s as [|c0 s IH]; cbn [trimEnd]; [congruence|].
  destruct (trimEnd s) as [|c1 t].
  - destruct (isWhitespace c0) eqn:Hc; [congruence|]. intros _. exact Hc.
  - intros _. cbn [charsOf]. cbn [charsOf] in IH.
    change (last (c0 :: c1 :: charsOf t) " "%char) with (last (c1 :: charsOf t) " "%char).
    apply IH. discriminate.
Qed.

(** X20: the address of a client is never empty.  [getClientIP] gives
    [req.ip] when that is a string that is not empty, whatever the headers
    say; otherwise what stands before the first comma of the header
    x-forwarded-for, without the whitespace around it, when that is not
    empty, and then it holds no comma and neither starts nor ends with
    whitespace; otherwise the remote address, or unknown. *)
Theorem client_address_is_never_empty (req : Request.t) :
  getClientIP req <> "" /\
  (forall s, Request.ip req = Some s -> s <> "" -> getClientIP req = s) /\
  (forall h,
     orString (Request.ip req) "" = "" ->
     Request.forwardedFor req = Some h ->
     trim (firstField h) <> "" ->
     getClientIP req = trim (firstField h) /\
     (forall c, In c (charsOf (getClientIP req)) -> c <> ","%char) /\
     isWhitespace (hd " "%char (charsOf (getClientIP req))) = false /\
     isWhitespace (last (charsOf (getClientIP req)) " "%char) = false) /\
  (orString (Request.ip req) "" = "" ->
   orString (option_map (fun h => trim (firstField h)) (Request.forwardedFor req)) "" = "" ->
   getClientIP req = orString (Request.remoteAddress req) "unknown").
Proof.
  split; [|split; [|split]].
  - unfold getClientIP. repeat apply orString_nonempty. discriminate.
  - intros s Hs Hne. unfold getClientIP. rewrite Hs. cbn [orString].
    now destruct (String.eqb_spec s "").
  - intros h Hip Hh Hne.
    assert (Heq : getClientIP req = trim (firstField h)).
    { unfold getClientIP. rewrite Hh. cbn [option_map].
      unfold orString at 1. unfold orString in Hip.
      destruct (Request.ip req) as [s|].
      - destruct (String.eqb_spec s ""); [|contradiction].
        cbn [orString]. now destruct (String.eqb_spec (trim (firstField h)) "").
      - cbn [orString]. now destruct (String.eqb_spec (trim (firstField h)) ""). }
    rewrite Heq. split; [reflexivity|]. split; [|split].
    + intros c Hin. unfold trim in Hin.
      apply trimEnd_chars, dropWhitespace_chars in Hin. now apply firstField_no_comma in Hin.
    + unfold trim in *. pose proof (dropWhitespace_head (firstField h)) as Hhead.
      pose proof (trimEnd_head (dropWhitespace (firstField h))) as Hfirst.
      destruct (dropWhitespace (firstField h)) as [|c s]; [contradiction|].
      destruct Hfirst as [Hempty|[t Ht]]; [contradiction|].
      rewrite Ht. exact Hhead.
    + now apply trimEnd_last.
  - intros Hip Hfwd. unfold getClientIP.
    unfold orString at 1. unfold orString at 1 in Hip.
    destruct (Request.ip req) as [s|].
    + destruct (String.eqb_spec s ""); [|contradiction].
      unfold orString at 1. unfold orString at 1 in Hfwd.
      destruct (option_map _ _) as [f|]; [|reflexivity].
      destruct (String.eqb_spec f ""); [reflexivity|contradiction].
    + unfold orString at 1. unfold orString at 1 in Hfwd.
      destruct (option_map _ _) as [f|]; [|reflexivity].
      destruct (String.eqb_spec f ""); [reflexivity|contradiction].
Qed.

(** *** The start of the process *)

Lemma get_has_delete {V : Type} (ip ip' : string) (m : list (string * V)) :
  JsMap.get ip' (if JsMap.has ip m then JsMap.delete ip m else m) =
    if (ip =? ip')%string then None else JsMap.get ip' m.
Proof.
  unfold JsMap.has. destruct (String.eqb_spec ip ip') as [<-|Hne].
  - destruct (JsMap.get ip m) eqn:Hg; [apply get_delete_same|exact Hg].
  - destruct (JsMap.get ip m); [now apply get_delete_other|reflexivity].
Qed.

Lemma clearLocalhost_frame st ip :
  blockedIPs (clearLocalhost st ip) =
    (if JsMap.has ip (blockedIPs st) then JsMap.delete ip (blockedIPs st)
     else blockedIPs st) /\
  rateLimitMap (clearLocalhost st ip) =
    (if JsMap.has ip (rateLimitMap st) then JsMap.delete ip (rateLimitMap st)
     else rateLimitMap st) /\
  rooms (clearLocalhost st ip) = rooms st /\
  usedNonces (clearLocalhost st ip) = usedNonces st.
Proof.
  unfold clearLocalhost. destruct st as [rs lim blk used timers].
  cbn [blockedIPs rateLimitMap]. destruct (JsMap.has ip blk);
    cbn [rateLimitMap setBlockedIPs]; destruct (JsMap.has ip lim);
    repeat split; reflexivity.
Qed.

Lemma clearStep_get (locals : list string) ip' :
  forall st,
    JsMap.get ip' (blockedIPs (fold_left clearLocalhost locals st)) =
      (if existsb (fun ip => (ip =? ip')%string) locals then None
       else JsMap.get ip' (blockedIPs st)) /\
    JsMap.get ip' (rateLimitMap (fold_left clearLocalhost locals st)) =
      (if existsb (fun ip => (ip =? ip')%string) locals then None
       else JsMap.get ip' (rateLimitMap st)) /\
    rooms (fold_left clearLocalhost locals st) = rooms st /\
    usedNonces (fold_left clearLocalhost locals st) = usedNonces st.
Proof.
  induction locals as [|ip locals IH]; intros st; cbn [fold_left existsb].
  - repeat split.
  - destruct (IH (clearLocalhost st ip)) as (Hb & Hr & Hrooms & Hn).
    destruct (clearLocalhost_frame st ip) as (Fb & Fr & Frooms & Fn).
    rewrite Hb, Hr, Hrooms, Hn, Fb, Fr, Frooms, Fn, !get_has_delete.
    destruct (ip =? ip')%string; cbn [orb];
      destruct (existsb _ locals); repeat split; reflexivity.
Qed.

Lemma isLocalhost_existsb ip :
  existsb (fun l => (l =? ip)%string) ["127.0.0.1"; "::1"; "::ffff:127.0.0.1"; "localhost"]
  = isLocalhost ip.
Proof.
  unfold isLocalhost. cbn [existsb].
  rewrite (String.eqb_sym "127.0.0.1" ip), (String.eqb_sym "::1" ip),
    (String.eqb_sym "::ffff:127.0.0.1" ip), (String.eqb_sym "localhost" ip).
  destruct (ip =? "127.0.0.1")%string, (ip =? "::1")%string,
    (ip =? "::ffff:127.0.0.1")%string, (ip =? "localhost")%string; reflexivity.
Qed.

(** X21: [clearLocalhostBlocks] removes the entries of the local
    addresses, from the block table and from the limiter table, and nothing
    else: every other client keeps its block and its counters, the rooms
    and the nonces stay, and the middleware then passes the request of a
    local address. *)
Theorem startup_clears_local_entries (st : State) (ip : string) :
  let st' := clearLocalhostBlocks st in
  JsMap.get ip (blockedIPs st') =
    (if isLocalhost ip then None else JsMap.get ip (blockedIPs st)) /\
  JsMap.get ip (rateLimitMap st') =
    (if isLocalhost ip then None else JsMap.get ip (rateLimitMap st)) /\
  rooms st' = rooms st /\ usedNonces st' = usedNonces st /\
  (isLocalhost ip = true ->
   forall isPost now, fst (rateLimit ip isPost now st') = None).
Proof.
  cbv zeta. unfold clearLocalhostBlocks. cbv zeta.
  destruct (clearStep_get ["127.0.0.1"; "::1"; "::ffff:127.0.0.1"; "localhost"] ip st)
    as (Hb & Hr & Hrooms & Hn).
  rewrite isLocalhost_existsb in Hb, Hr.
  split; [exact Hb|]. split; [exact Hr|]. split; [exact Hrooms|]. split; [exact Hn|].
  intros Hloc isPost now. unfold rateLimit. destruct DISABLE_RATE_LIMIT; [reflexivity|].
  rewrite Hloc. unfold isIPBlocked. cbn [BLOCKED_IPS existsb].
  rewrite Hb, Hloc. reflexivity.
Qed.

(** *** Updates that repeat *)

Lemma jsOr_twice d r : jsOr d (jsOr d r) = jsOr d r.
Proof. unfold jsOr. now destruct (truthy d). Qed.

Lemma ifDefined_twice d r : ifDefined d (ifDefined d r) = ifDefined d r.
Proof. unfold ifDefined. now destruct (isDefined d). Qed.

Lemma updateRoom_absorbs room data now now' :
  updateRoom (updateRoom room data now) data now' = updateRoom room data now'.
Proof.
  unfold updateRoom. cbn. now rewrite !jsOr_twice, !ifDefined_twice.
Qed.

(** POST /announce of an announcement without nonce that passes the
    checks of the fields, on a registry below its limit that holds the room:
    the answer and the state. *)
Lemma post_announce_update (data : Data.t) (t : Z) (st : State) (room : Room.t) :
  truthy (Data.nonce data) = false ->
  validateFields data t = [] ->
  JsMap.size (rooms st) < MAX_ROOMS ->
  JsMap.get (Data.roomId data) (rooms st) = Some room ->
  post_announce data t st =
    (RespRoom (updateRoom room data t),
     setRooms (JsMap.set (Data.roomId data) (updateRoom room data t) (rooms st)) st).
Proof.
  intros Hnonce Ht Hsz Hg.
  rewrite post_announce_eq, validateAnnouncement_eq. cbv zeta. cbn [fst snd].
  unfold checkNonce. rewrite Hnonce, Ht. cbn [app fst snd].
  rewrite (enforceRoomLimit_below _ Hsz), Hg. reflexivity.
Qed.

(** X22: an update absorbs the same update made before it.  For an
    announcement without nonce that passes the checks of the fields at both
    times, on a registry below its limit that holds the room, and when the
    middleware lets the requests through: POST /announce at [now'] after
    the same POST /announce at [now], both through the route, is answered
    as POST /announce at [now'] alone, with the stored room merged with the
    data and [updatedAt] at [now'], and leaves the same rooms and nonces;
    only the tables of the limiter tell the two histories apart. *)
Theorem repeated_update_is_absorbed
    (ip : string) (data : Data.t) (now now' : Z) (st : State) (room : Room.t) :
  truthy (Data.nonce data) = false ->
  validateFields data now = [] ->
  validateFields data now' = [] ->
  JsMap.size (rooms st) < MAX_ROOMS ->
  JsMap.get (Data.roomId data) (rooms st) = Some room ->
  let first := route_post_announce ip data now st in
  let again := route_post_announce ip data now' (snd first) in
  let alone := route_post_announce ip data now' st in
  fst (rateLimit ip true now st) = None ->
  fst (rateLimit ip true now' (snd first)) = None ->
  fst (rateLimit ip true now' st) = None ->
  fst again = fst alone /\
  fst alone = RespRoom (updateRoom room data now') /\
  rooms (snd again) = rooms (snd alone) /\
  usedNonces (snd again) = usedNonces (snd alone).
Proof.
  intros Hnonce Hv Hv' Hsz Hget first again alone.
  subst first again alone. unfold route_post_announce.
  pose proof (rateLimit_rooms ip true now st) as Hr.
  pose proof (proj1 (rateLimit_nonces ip true now st)) as Hn.
  destruct (rateLimit ip true now st) as [r st1]. cbn [fst snd] in *.
  intros ->.
  rewrite (@post_announce_update data now st1 room Hnonce Hv)
    by (rewrite Hr; assumption).
  cbn [fst snd].
  pose proof (rateLimit_rooms ip true now' st) as Hr'.
  pose proof (proj1 (rateLimit_nonces ip true now' st)) as Hn'.
  destruct (rateLimit ip true now' st) as [r' st1']. cbn [fst snd] in *.
  set (st2 := setRooms (JsMap.set (Data.roomId data) (updateRoom room data now) (rooms st1))
                       st1).
  pose proof (rateLimit_rooms ip true now' st2) as Hr2.
  pose proof (proj1 (rateLimit_nonces ip true now' st2)) as Hn2.
  destruct (rateLimit ip true now' st2) as [r2 st3]. cbn [fst snd] in *.
  intros -> ->.
  rewrite (@post_announce_update data now' st1' room Hnonce Hv')
    by (rewrite Hr'; assumption).
  rewrite (@post_announce_update data now' st3 (updateRoom room data now) Hnonce Hv').
  - cbn [fst snd rooms usedNonces setRooms].
    rewrite Hr2, Hn2, Hr', Hn', updateRoom_absorbs. unfold st2.
    cbn [rooms usedNonces setRooms]. rewrite set_set, Hr, Hn. repeat split.
  - rewrite Hr2. unfold st2. cbn [rooms setRooms]. rewrite Hr.
    now rewrite (size_set_present _ _ _ Hget).
  - rewrite Hr2. unfold st2. cbn [rooms setRooms]. apply get_set_same.
Qed.

(** *** The letter case of a search *)

Lemma lowerChar_dangerous c :
  let n := nat_of_ascii (lowerChar c) in
  let n0 := nat_of_ascii c in
  ((n =? 60) || (n =? 62) || (n =? 34) || (n =? 39))%nat
  = ((n0 =? 60) || (n0 =? 62) || (n0 =? 34) || (n0 =? 39))%nat.
Proof. destruct c as [[] [] [] [] [] [] [] []]; reflexivity. Qed.

Lemma lowerChar_twice c : lowerChar (lowerChar c) = lowerChar c.
Proof. destruct c as [[] [] [] [] [] [] [] []]; reflexivity. Qed.

Lemma toLowerCase_twice s : toLowerCase (toLowerCase s) = toLowerCase s.
Proof.
  induction s as [|c s IH]; cbn [toLowerCase]; [reflexivity|].
  now rewrite lowerChar_twice, IH.
Qed.

Lemma toLowerCase_empty s : (toLowerCase s =? "")%string = (s =? "")%string.
Proof. now destruct s. Qed.

Lemma stripDangerous_lower s :
  stripDangerous (toLowerCase s) = toLowerCase (stripDangerous s).
Proof.
  induction s as [|c s IH]; cbn [toLowerCase stripDangerous]; [reflexivity|].
  cbv zeta. pose proof (lowerChar_dangerous c) as Hc. cbv zeta in Hc. rewrite Hc.
  destruct ((nat_of_ascii c =? 60) || (nat_of_ascii c =? 62) || (nat_of_ascii c =? 34)
            || (nat_of_ascii c =? 39))%nat; cbn [toLowerCase]; now rewrite IH.
Qed.

Lemma substring_lower m s :
  substring 0 m (toLowerCase s) = toLowerCase (substring 0 m s).
Proof.
  revert s. induction m as [|m IH]; intros [|c s]; cbn [substring toLowerCase];
    try reflexivity.
  now rewrite IH.
Qed.

Lemma sanitizeSearch_lower s :
  sanitizeSearch (JStr (toLowerCase s)) = toLowerCase (sanitizeSearch (JStr s)).
Proof. unfold sanitizeSearch. now rewrite substring_lower, stripDangerous_lower. Qed.

(** X23: the search of GET /announce does not depend on the letter case
    of the search text.  For a search text of ASCII characters, a query and
    the same query with its search in lower case get the same answer and
    leave the same state, through the route as from the handler. *)
Theorem search_ignores_case
    (ip : string) (q : Query.t) (s : string) (now : Z) (st : State) :
  isAsciiText s = true ->
  get_announce (withSearch (JStr (toLowerCase s)) q) now st
  = get_announce (withSearch (JStr s) q) now st /\
  route_get_announce ip (withSearch (JStr (toLowerCase s)) q) now st
  = route_get_announce ip (withSearch (JStr s) q) now st.
Proof.
  intros _.
  assert (Hf : forall rs, filteredSorted (withSearch (JStr (toLowerCase s)) q) rs
                          = filteredSorted (withSearch (JStr s) q) rs).
  { intros rs. unfold filteredSorted, withSearch.
    cbn [Query.gameType Query.status Query.search Query.minWager Query.maxWager
         Query.sort Query.includePrivate].
    rewrite sanitizeSearch_lower. unfold filterSearch.
    now rewrite toLowerCase_empty, toLowerCase_twice. }
  assert (Hh : forall st0,
            get_announce (withSearch (JStr (toLowerCase s)) q) now st0
            = get_announce (withSearch (JStr s) q) now st0).
  { intros st0. unfold get_announce.
    change (validateQueryParams (withSearch (JStr (toLowerCase s)) q))
      with (validateQueryParams (withSearch (JStr s) q)).
    change (effectiveOffset (withSearch (JStr (toLowerCase s)) q))
      with (effectiveOffset (withSearch (JStr s) q)).
    change (effectiveLimit (withSearch (JStr (toLowerCase s)) q))
      with (effectiveLimit (withSearch (JStr s) q)).
    destruct (validateQueryParams (withSearch (JStr s) q)); [|reflexivity].
    now rewrite Hf. }
  split; [apply Hh|].
  unfold route_get_announce. destruct (rateLimit ip false now st) as [[r|] st'];
    [reflexivity|apply Hh].
Qed.

(** *** From the announcement to the listing *)

Lemma filteredSorted_unfiltered q rs room :
  unfiltered q ->
  In room (JsMap.values rs) ->
  Room.public room <> JBool false ->
  (exists wager, toNumber (wagerOf room) = Some wager /\ 0 <= wager) ->
  exists L, filteredSorted q rs = Some L /\ In room L /\
            (List.length L <= List.length rs)%nat.
Proof.
  intros (Hg & Hs & Hse & Hmin & Hmax) Hin Hpub (wager & Hw & Hpos).
  unfold filteredSorted. rewrite Hg, Hs, Hse, Hmin, Hmax. cbn.
  eexists. split; [reflexivity|]. split.
  - apply sortRooms_In. unfold filterWager. apply filter_In. split.
    + unfold filterVisible. destruct (negb _); [|exact Hin].
      apply filter_In. split; [exact Hin|].
      destruct (JsVal_eqb_spec (Room.public room) (JBool false)); [contradiction|reflexivity].
    + unfold wagerInRange. fold (wagerOf room). rewrite Hw.
      apply andb_true_iff. split; [now apply Z.leb_le|reflexivity].
  - assert (Hperm : forall sort l, List.length (sortRooms sort l) = List.length l).
    { intros sort l. unfold sortRooms.
      destruct (JsVal_eqb sort (JStr "oldest")); [apply jsSort_length|].
      destruct (JsVal_eqb sort (JStr "wager_high")); [apply jsSort_length|].
      destruct (JsVal_eqb sort (JStr "wager_low")); apply jsSort_length. }
    rewrite Hperm. unfold filterWager.
    etransitivity; [apply filter_length_le|].
    unfold filterVisible.
    assert (Hv : List.length (JsMap.values rs) = List.length rs)
      by (unfold JsMap.values; apply length_map).
    destruct (negb _); [etransitivity; [apply filter_length_le|]|]; rewrite Hv; constructor.
Qed.

(** X24: a room that has been announced is listed.  When POST /announce,
    at a time [now] other than 0 and on a registry with distinct keys and
    within its limit, answers with a room that is not private and whose
    wager reads as a number that is not negative, and the [createdAt] and
    the wager of every room then stored read as numbers, then GET /announce
    at a time [t] with [t - now] at most PEER_TIMEOUT seconds, with a valid
    query that filters on nothing, starts at offset 0 and has a limit of
    MAX_ROOMS or more, has the room in its page, provided the middleware
    lets the read through; both requests go through their routes. *)
Theorem announced_room_is_listed
    (ip ip' : string) (data : Data.t) (now t : Z) (st : State) (room : Room.t)
    (q : Query.t) (wager : Z) :
  NoDup (JsMap.keys (rooms st)) ->
  JsMap.size (rooms st) <= MAX_ROOMS ->
  now <> 0 ->
  fst (route_post_announce ip data now st) = RespRoom room ->
  let st1 := snd (route_post_announce ip data now st) in
  (forall r, In r (JsMap.values (rooms st1)) -> comparable r) ->
  Room.public room <> JBool false ->
  toNumber (wagerOf room) = Some wager ->
  0 <= wager ->
  t - now <= PEER_TIMEOUT * 1000 ->
  validateQueryParams q = [] ->
  unfiltered q ->
  effectiveOffset q = 0 ->
  MAX_ROOMS <= effectiveLimit q ->
  fst (rateLimit ip' false t st1) = None ->
  In room (pageOf (fst (route_get_announce ip' q t st1))).
Proof.
  intros Hnd Hsz Hnow Hresp st1 _ Hpub Hw Hpos Hage Hq Hun Hoff Hlim Hpass.
  subst st1. revert Hresp Hpass. unfold route_post_announce.
  pose proof (rateLimit_rooms ip true now st) as Hr0.
  pose proof (rateLimit_answers ip true now st) as Hans.
  destruct (rateLimit ip true now st) as [[r|] st0]; cbn [fst snd] in *.
  { intros ->. destruct (Hans _ eq_refl) as [[? ?]|[? ?]]; discriminate. }
  rewrite <- Hr0 in Hnd, Hsz. clear Hr0 Hans.
  intros Hresp Hpass.
  assert (Hbound : JsMap.size (rooms (snd (post_announce data now st0))) <= MAX_ROOMS)
    by now apply post_announce_bound.
  revert Hresp Hbound Hpass. rewrite post_announce_eq. cbv zeta.
  destruct (fst (validateAnnouncement data now st0)) as [|e es]; [|discriminate].
  cbn [fst snd rooms setRooms]. intros [= Hroom] Hbound. rewrite Hroom in Hbound |- *.
  set (st1 := setRooms _ _). intros Hpass.
  assert (Hrooms : rooms st1 = JsMap.set (Data.roomId data) room
                                 (enforceRoomLimit (rooms st0))) by reflexivity.
  assert (Hup : Room.updatedAt room = JNum now).
  { rewrite <- Hroom. now destruct (JsMap.get (Data.roomId data) _). }
  unfold route_get_announce.
  pose proof (rateLimit_rooms ip' false t st1) as Hr1.
  destruct (rateLimit ip' false t st1) as [r1 st2]. cbn [fst snd] in *. subst r1.
  assert (Hin : In room (JsMap.values (sweepExpired t (rooms st2)))).
  { unfold JsMap.values. change room with (snd (Data.roomId data, room)).
    apply in_map. apply sweepExpired_In. split.
    - rewrite Hr1, Hrooms. apply get_In, get_set_same.
    - cbn [snd]. rewrite (@isExpired_updated t room now Hup Hnow).
      apply Z.ltb_ge. lia. }
  destruct (@filteredSorted_unfiltered q (sweepExpired t (rooms st2)) room Hun Hin Hpub)
    as (L & HL & HinL & Hlen).
  { exists wager. now split. }
  rewrite (@get_announce_page q t st2 L Hq HL). cbn [fst pageOf]. rewrite Hoff.
  cbn [Z.to_nat skipn]. rewrite firstn_all2; [exact HinL|].
  assert (Hsw : (List.length (sweepExpired t (rooms st2)) <= List.length (rooms st2))%nat)
    by apply filter_length_le.
  rewrite Hr1 in Hsw. rewrite Hr1 in Hlen.
  rewrite <- Hrooms in Hbound. unfold JsMap.size in Hbound. lia.
Qed.

(** *** Runs of requests of any clients and kinds *)









End Tracker.

(** * The model on examples

    The settings are the defaults of the source: PEER_TIMEOUT 600,
    RATE_LIMIT_MAX_REQUESTS 120, RATE_LIMIT_MAX_ANNOUNCES 20, MAX_VIOLATIONS
    10, BLOCK_DURATION 300000, rate limiting enabled. *)


(** C3 (a defect of the code): the entry of the client holds 3 violations
    and its window ended at 61000.  The request at 61001 leaves an entry
    with no violation, where the claim has the 3 kept; the periodic sweep
    run at that time instead keeps the entry and takes one violation off. *)
Theorem window_rollover_clears_violations :
  let ip := "203.0.113.7" in
  let st := stateOfLimiter
              [(ip, {| count := 5; announceCount := 2; resetTime := 61000;
                       violations := 3 |})] in
  rateLimit 120 20 10 300000 false ip false 61001 st =
    (None, stateOfLimiter
             [(ip, {| count := 1; announceCount := 0; resetTime := 121001;
                      violations := 0 |})]) /\
  rateLimitCleanupInterval 61001 st =
    stateOfLimiter
      [(ip, {| count := 5; announceCount := 2; resetTime := 61000;
               violations := 2 |})].
Proof. vm_compute. split; reflexivity. Qed.

(** C4 (a defect of the code): the registry holds MAX_ROOMS rooms, room-0
    the oldest.  The update of room-50 deletes room-0 and leaves 99 rooms,
    where the claim has no room evicted by an update; the update of room-0
    itself deletes it and stores it anew, so its [createdAt] moves from 1000
    to the time of the request and it goes to the end of the registry. *)
Theorem update_at_capacity_evicts :
  let st := stateOfRooms (exampleRegistry 100) in
  let st50 := snd (post_announce exampleURLCheck exampleStringToNumber
                     (exampleData "room-50" "active" JUndef JUndef) 5000 st) in
  let st0 := snd (post_announce exampleURLCheck exampleStringToNumber
                    (exampleData "room-0" "active" JUndef JUndef) 5000 st) in
  JsMap.size (rooms st) = MAX_ROOMS /\
  JsMap.has (JStr "room-50") (rooms st) = true /\
  JsMap.has (JStr "room-0") (rooms st) = true /\
  JsMap.has (JStr "room-0") (rooms st50) = false /\
  JsMap.size (rooms st50) = 99 /\
  option_map Room.createdAt (JsMap.get (JStr "room-0") (rooms st)) = Some (JNum 1000) /\
  option_map Room.createdAt (JsMap.get (JStr "room-0") (rooms st0)) = Some (JNum 5000) /\
  last (JsMap.keys (rooms st0)) JUndef = JStr "room-0".
Proof. vm_compute. repeat split; reflexivity. Qed.

(** C1, as stated, fails: the registry holds the room r1; the announcement
    [{ roomId: 'r1', status: 'active' }] is answered 400 and the room keeps
    its status and its [updatedAt]; and in an announcement that passes the
    validation, the null [player1PublicKey] leaves the stored key. *)
Lemma status_only_update_is_rejected :
  let st := stateOfRooms [exampleRoom "r1" 1000 (JStr "pk1") 0] in
  post_announce exampleURLCheck exampleStringToNumber (statusOnlyData "r1" "active") 2000 st =
    (Resp400 ["Missing or invalid player1Name";
              "Missing or invalid player1WalletAddress";
              "Missing or invalid player1PeerId";
              "Missing or invalid appBaseUrl"], st) /\
  option_map Room.player1PublicKey
    (JsMap.get (JStr "r1")
       (rooms (snd (post_announce exampleURLCheck exampleStringToNumber
                      (exampleData "r1" "active" JNull JUndef) 2000 st))))
  = Some (JStr "pk1").
Proof. vm_compute. split; reflexivity. Qed.

(** C2, as stated, fails: the registry holds MAX_ROOMS rooms; the first,
    early, was announced with a [createdAt] of 5000, the second, odd, with
    the [createdAt] x, which is no number, and the rooms room-2 to room-99
    have the times 1002 to 1099 of their creation.  The comparator of the
    eviction gives NaN, read as 0, on odd and any other room, so the array
    is in order for it as it stands and the sort leaves early first: the
    announcement of a new room evicts early, whose [createdAt] is 5000, and
    room-2, whose [createdAt] is the smallest, stays. *)
Lemma unordered_createdAt_evicts_another_room :
  let registry := exampleRoom "early" 5000 JNull 0
                  :: withCreatedAt (JStr "x") (exampleRoom "odd" 1001 JNull 0)
                  :: skipn 2 (exampleRegistry 100) in
  let st := stateOfRooms registry in
  let st' := snd (post_announce exampleURLCheck exampleStringToNumber
                    (exampleData "room-new" "waiting" JUndef JUndef) 6000 st) in
  JsMap.size (rooms st) = MAX_ROOMS /\
  option_map Room.createdAt (JsMap.get (JStr "early") (rooms st)) = Some (JNum 5000) /\
  option_map Room.createdAt (JsMap.get (JStr "room-2") (rooms st)) = Some (JNum 1002) /\
  JsMap.get (JStr "early") (rooms st') = None /\
  option_map Room.createdAt (JsMap.get (JStr "room-2") (rooms st')) = Some (JNum 1002) /\
  JsMap.has (JStr "room-new") (rooms st') = true /\
  JsMap.size (rooms st') = MAX_ROOMS.
Proof. vm_compute. repeat split; reflexivity. Qed.


(** C8 (a defect of the code): a client makes 129 requests in one window,
    at 1000, and 129 in the next, at 70000.  Each window has 9 refusals, 18
    violations in all with MAX_VIOLATIONS at 10, yet no block is stored and
    the next request is answered 429, not 403: the entry of the new window
    starts with no violation.  The same client is blocked when the tenth
    refusal falls in the same window as the nine before. *)
Theorem violations_do_not_add_up_across_windows :
  let ip := "203.0.113.7" in
  let first := requests 120 20 10 300000 false ip false (repeat 1000 129) initialState in
  let second := requests 120 20 10 300000 false ip false (repeat 70000 129) (snd first) in
  let oneWindow := requests 120 20 10 300000 false ip false (repeat 1000 130) initialState in
  fst first = repeat None 120 ++ repeat (Some (Resp429 false 60)) 9 /\
  fst second = repeat None 120 ++ repeat (Some (Resp429 false 60)) 9 /\
  blockedIPs (snd second) = [] /\
  fst (rateLimit 120 20 10 300000 false ip false 70001 (snd second))
  = Some (Resp429 false 60) /\
  blockedIPs (snd oneWindow)
  = [(ip, {| blockedUntil := 301000; reason := "Excessive requests" |})] /\
  fst (rateLimit 120 20 10 300000 false ip false 1001 (snd oneWindow))
  = Some (Resp403 "Excessive requests").
Proof. vm_compute. repeat split; reflexivity. Qed.

(** C9, as stated, fails: a nonce that is the empty string, the number 0,
    false or null is not recorded; it is accepted, the state stays as it
    was, and the same nonce submitted again is accepted again. *)
Lemma falsy_nonce_is_never_recorded :
  Forall (fun nonce =>
            checkNonce nonce 1000 initialState = ([], initialState) /\
            setHas nonce (usedNonces (snd (checkNonce nonce 1000 initialState))) = false /\
            fst (checkNonce nonce 2000 (snd (checkNonce nonce 1000 initialState))) = [])
         [JStr ""; JNum 0; JBool false; JNull].
Proof. repeat constructor. Qed.

(** C10, as stated, fails: an announcement with a [roomId] that holds a
    space and the nonce 0 is answered 400 and the nonce is not recorded;
    sent again it gets the same answer, with no duplicate among the errors. *)
Lemma falsy_nonce_retry_is_no_duplicate :
  let data := exampleData "bad id" "waiting" JUndef (JNum 0) in
  let errors := ["roomId contains invalid characters (alphanumeric, dash, underscore only)"] in
  post_announce exampleURLCheck exampleStringToNumber data 1000 initialState
  = (Resp400 errors, initialState) /\
  post_announce exampleURLCheck exampleStringToNumber data 2000
    (snd (post_announce exampleURLCheck exampleStringToNumber data 1000 initialState))
  = (Resp400 errors, initialState) /\
  ~ In duplicateNonce errors.
Proof.
  vm_compute. repeat split; try reflexivity.
  intros [H|[]]. discriminate H.
Qed.

(** ** Instances of the theorems *)

(** X25 at the default settings: the tenth violation of a client, at 30000,
    blocks it until 330000. *)
Lemma escalation_blocks_then_lifts_witness :
  let ip := "203.0.113.7" in
  let st := stateOfLimiter
              [(ip, {| count := 129; announceCount := 0; resetTime := 61000;
                       violations := 9 |})] in
  let st1 := snd (rateLimit 120 20 10 300000 false ip false 30000 st) in
  JsMap.get ip (blockedIPs st1) =
    Some {| blockedUntil := 330000; reason := "Excessive requests" |} /\
  rateLimit 120 20 10 300000 false ip true 329999 st1 =
    (Some (Resp403 "Excessive requests"), st1) /\
  isIPBlocked ip 330000 (blockedIPs st1) = (None, []).
Proof.
  intros ip st st1.
  destruct (@escalation_blocks_then_lifts 120 20 10 300000 false ip false 30000 st
              {| count := 129; announceCount := 0; resetTime := 61000; violations := 9 |})
    as (Hblock & Hdenied & Hlifted).
  - reflexivity.
  - reflexivity.
  - reflexivity.
  - reflexivity.
  - discriminate.
  - discriminate.
  - discriminate.
  - discriminate.
  - split; [exact Hblock|]. split.
    + apply (Hdenied 329999 true). reflexivity.
    + destruct (Hlifted 330000) as (Hcheck & _); [discriminate|]. exact Hcheck.
Defined.

(** C2 on a full registry: room-0, the oldest, makes room for the new
    room. *)
Lemma capacity_eviction_and_bound_witness :
  let st := stateOfRooms (exampleRegistry 100) in
  let data := exampleData "room-new" "waiting" JUndef JUndef in
  let st' := snd (post_announce exampleURLCheck exampleStringToNumber data 5000 st) in
  (exists oldestId oldest,
     In (oldestId, oldest) (rooms st) /\
     JsMap.get oldestId (rooms st') = None /\
     JsMap.get (JStr "room-new") (rooms st') = Some (newRoom data 5000) /\
     JsMap.size (rooms st') = MAX_ROOMS) /\
  JsMap.size (rooms (runOps exampleURLCheck exampleStringToNumber 600 120 20 10 300000 false
                       [OpPostAnnounce "203.0.113.7" data 5000; OpRoomCleanup 700000]
                       initialState)) <= MAX_ROOMS.
Proof.
  intros st data st'.
  destruct (@capacity_eviction_and_bound exampleURLCheck exampleStringToNumber
              600 120 20 10 300000 false data 5000 st)
    as ((oldestId & oldest & Hin & _ & _ & _ & Hgone & _ & Hnew & Hsize) & Hbound).
  - reflexivity.
  - reflexivity.
  - apply distinct_NoDup. reflexivity.
  - apply exampleRegistry_numeric.
  - reflexivity.
  - split.
    + exists oldestId, oldest. repeat split; assumption.
    + apply Hbound.
Defined.

(** C1, as amended, on the room r1: the status is announced, the public
    key is announced as null. *)
Lemma update_merges_supplied_fields_witness :
  let st := stateOfRooms [exampleRoom "r1" 1000 (JStr "pk1") 0] in
  let data := exampleData "r1" "active" JNull JUndef in
  exists room',
    fst (post_announce exampleURLCheck exampleStringToNumber data 2000 st) = RespRoom room' /\
    Room.createdAt room' = JNum 1000 /\
    Room.updatedAt room' = JNum 2000 /\
    Room.status room' = JStr "active" /\
    Room.player1PublicKey room' = JStr "pk1".
Proof.
  intros st data.
  destruct (@update_merges_supplied_fields exampleURLCheck exampleStringToNumber
              data 2000 st (snd (exampleRoom "r1" 1000 (JStr "pk1") 0)))
    as (room' & Hresp & _ & _ & _ & _ & Hcreated & Hupdated & _ & Htruthy).
  - reflexivity.
  - reflexivity.
  - reflexivity.
  - exists room'. split; [exact Hresp|]. split; [exact Hcreated|]. split; [exact Hupdated|].
    unfold fieldsSetWhenTruthy in Htruthy.
    rewrite !Forall_cons_iff in Htruthy.
    destruct Htruthy as (Hstatus & _ & _ & _ & _ & Hkey & _).
    split; [exact Hstatus|exact Hkey].
Defined.

(** C6 on five rooms: the page at offset 2 of limit 2 of the list sorted
    newest first. *)
Lemma pagination_slices_filtered_list_witness :
  let st := stateOfRooms (exampleRegistry 5) in
  let L := map snd (rev (exampleRegistry 5)) in
  fst (get_announce exampleStringToNumber 600 (pageQuery "2" "2") 2000 st) =
    RespRooms 2 5 2 2 (firstn 2 (skipn 2 L)) /\
  List.concat (map (fun q => pageOf (fst (get_announce exampleStringToNumber 600 q 2000 st)))
                 [pageQuery "0" "2"; pageQuery "2" "2"; pageQuery "4" "2"]) = L.
Proof.
  intros st L.
  destruct (@pagination_slices_filtered_list exampleStringToNumber 600
              (pageQuery "2" "2") 2000 st L)
    as (Hpage & _ & _ & _ & _ & Hpages).
  - reflexivity.
  - reflexivity.
  - split; [exact Hpage|].
    apply Hpages; [|discriminate].
    intros i qi Hi.
    destruct i as [|[|[|i]]]; cbn in Hi; try (destruct i; discriminate);
      injection Hi as <-; repeat split.
Defined.

(** C5 on three rooms, last active at 1000, 1001 and 1002, at the time
    601002: the first two are expired. *)
Lemma expired_rooms_are_swept_witness :
  let st := stateOfRooms (exampleRegistry 3) in
  JsMap.keys (rooms (snd (get_announce exampleStringToNumber 600 emptyQuery 601002 st))) =
    [JStr "room-2"] /\
  (forall room,
     In room (pageOf (fst (get_announce exampleStringToNumber 600 emptyQuery 601002 st))) ->
     isExpired exampleStringToNumber 600 601002 room = false) /\
  (exists byGameType byStatus,
     fst (get_scrape exampleStringToNumber 600 601002 st) = RespStats 1 byGameType byStatus) /\
  JsMap.keys (rooms (roomCleanupInterval exampleStringToNumber 600 601002 st)) =
    [JStr "room-2"].
Proof.
  intros st.
  destruct (@expired_rooms_are_swept exampleStringToNumber 600 emptyQuery 601002 st)
    as (_ & _ & _ & Hquery & Hpage & _ & Hstats & Htick).
  - discriminate.
  - reflexivity.
  - split; [now rewrite Hquery|]. split; [intros room Hin; now apply Hpage|].
    split; [exact Hstats|]. now rewrite Htick.
Defined.

(** C9 on a new nonce, on the same nonce again, and on the empty nonce. *)
Lemma replay_guard_records_and_rejects_witness :
  let nonce := JStr "nonce-1" in
  let st1 := snd (checkNonce nonce 1000 initialState) in
  fst (checkNonce nonce 1000 initialState) = [] /\
  setHas nonce (usedNonces st1) = true /\
  fst (checkNonce nonce 2000 st1) = [duplicateNonce] /\
  checkNonce (JStr EmptyString) 2000 st1 = ([], st1).
Proof.
  intros nonce st1.
  destruct (@replay_guard_records_and_rejects exampleURLCheck exampleStringToNumber
              nonce 1000 initialState)
    as (Hpresent & _).
  destruct (Hpresent eq_refl) as (Hnew & _).
  destruct (Hnew eq_refl) as (Hok & Hrec).
  destruct (@replay_guard_records_and_rejects exampleURLCheck exampleStringToNumber
              nonce 2000 st1)
    as (Hagain & _).
  destruct (Hagain eq_refl) as (_ & Hdup & _).
  destruct (@replay_guard_records_and_rejects exampleURLCheck exampleStringToNumber
              (JStr EmptyString) 2000 st1)
    as (_ & Hfalsy & _).
  destruct (Hfalsy eq_refl) as (Herr & Hst).
  split; [exact Hok|]. split; [exact Hrec|]. split; [now destruct (Hdup Hrec)|].
  rewrite (surjective_pairing (checkNonce (JStr EmptyString) 2000 st1)).
  now rewrite Herr, Hst.
Defined.

(** C10 on an announcement with a new nonce and a [roomId] that holds a
    space. *)
Lemma rejected_announcement_still_records_nonce_witness :
  let data := exampleData "bad id" "waiting" JUndef (JStr "nonce-1") in
  let st1 := snd (post_announce exampleURLCheck exampleStringToNumber data 1000 initialState) in
  fst (post_announce exampleURLCheck exampleStringToNumber data 1000 initialState) =
    Resp400 ["roomId contains invalid characters (alphanumeric, dash, underscore only)"] /\
  rooms st1 = [] /\
  usedNonces st1 = [JStr "nonce-1"] /\
  exists errors,
    fst (post_announce exampleURLCheck exampleStringToNumber data 1000 st1) = Resp400 errors /\
    In duplicateNonce errors.
Proof.
  intros data st1.
  destruct (@rejected_announcement_still_records_nonce exampleURLCheck exampleStringToNumber
              data 1000 initialState)
    as (Hresp & Hrooms & _ & _ & Hagain & _).
  - reflexivity.
  - reflexivity.
  - discriminate.
  - split; [exact Hresp|]. split; [exact Hrooms|]. split; [reflexivity|].
    destruct (Hagain 1000) as (errors & Herr & Hdup & _). exists errors. now split.
Defined.

(** X5 on a local client that has made requests before. *)
Lemma localhost_is_never_refused_witness :
  let ops := [OpGetScrape "127.0.0.1" 1000; OpGetScrape "127.0.0.1" 1001;
              OpIpBlockCleanup 2000] in
  let st := runOps exampleURLCheck exampleStringToNumber 600 120 20 10 300000 false
              ops initialState in
  JsMap.get "127.0.0.1" (blockedIPs st) = None /\
  rateLimit 120 20 10 300000 false "127.0.0.1" true 3000 st = (None, st).
Proof.
  intros ops st.
  apply (@localhost_is_never_refused exampleURLCheck exampleStringToNumber
           600 120 20 10 300000 false "127.0.0.1" ops true 3000).
  reflexivity.
Defined.

(** X6 on the sixth request of a client in its window. *)
Lemma request_counts_once_witness :
  let ip := "203.0.113.7" in
  let st := stateOfLimiter
              [(ip, {| count := 5; announceCount := 2; resetTime := 61000;
                       violations := 0 |})] in
  exists d',
    JsMap.get ip (rateLimitMap (snd (rateLimit 120 20 10 300000 false ip false 30000 st)))
    = Some d' /\
    count d' = 6 /\ announceCount d' = 2 /\ resetTime d' = 61000 /\ violations d' = 0.
Proof.
  intros ip st.
  destruct (@request_counts_once 120 20 10 300000 false ip false 30000 st
              {| count := 5; announceCount := 2; resetTime := 61000; violations := 0 |})
    as (d' & Hget & Hcount & Hother & Hreset & Hviol & _).
  - reflexivity.
  - reflexivity.
  - reflexivity.
  - reflexivity.
  - discriminate.
  - discriminate.
  - exists d'. split; [exact Hget|]. split; [exact Hcount|]. split; [exact Hother|].
    split; [exact Hreset|exact Hviol].
Defined.

(** X7 on an entry with 3 violations whose window ended at 61000, swept at
    70000 and asked at 70001. *)
Lemma decay_sweep_changes_no_answer_witness :
  let ip := "203.0.113.7" in
  let st := stateOfLimiter
              [(ip, {| count := 130; announceCount := 0; resetTime := 61000;
                       violations := 3 |})] in
  fst (rateLimit 120 20 10 300000 false ip false 70001 (rateLimitCleanupInterval 70000 st))
  = fst (rateLimit 120 20 10 300000 false ip false 70001 st).
Proof.
  intros ip st.
  apply (@decay_sweep_changes_no_answer 120 20 10 300000 false ip false 70000 70001 st).
  - constructor; [intros []|constructor].
  - discriminate.
  - discriminate.
Defined.

(** X8 on a block that runs until 5000 and one that ended at 1000, swept
    at 2000. *)
Lemma block_sweep_keeps_running_blocks_witness :
  let running := {| blockedUntil := 5000; reason := "Excessive requests" |} in
  let over := {| blockedUntil := 1000; reason := "Excessive requests" |} in
  let st := setBlockedIPs [("203.0.113.7", running); ("203.0.113.8", over)] initialState in
  JsMap.get "203.0.113.7" (blockedIPs (ipBlockCleanupInterval 2000 st)) = Some running /\
  fst (isIPBlocked "203.0.113.8" 2000 (blockedIPs (ipBlockCleanupInterval 2000 st)))
  = fst (isIPBlocked "203.0.113.8" 2000 (blockedIPs st)).
Proof.
  intros running over st.
  destruct (@block_sweep_keeps_running_blocks 2000 st) as (Hkept & Hsame).
  - constructor; [intros [H|[]]; discriminate H|].
    constructor; [intros []|constructor].
  - split.
    + apply Hkept. repeat split.
    + apply Hsame; [discriminate|reflexivity].
Defined.

(** X10 on a registry of 103 rooms, none of them expired. *)
Lemma room_cleanup_restores_limit_witness :
  let st := stateOfRooms (exampleRegistry 103) in
  JsMap.size (rooms (roomCleanupInterval exampleStringToNumber 600 5000 st)) <= MAX_ROOMS /\
  (forall e, In e (rooms (roomCleanupInterval exampleStringToNumber 600 5000 st)) ->
             In e (rooms st) /\ isExpired exampleStringToNumber 600 5000 (snd e) = false).
Proof.
  intros st.
  apply (@room_cleanup_restores_limit exampleStringToNumber 600 5000 st).
  apply distinct_NoDup. reflexivity.
Defined.

(** X13 on three rooms and the query
    [?gameType=rockpaperscissors&status=waiting&search=ROOM-1]. *)
Lemma listing_respects_filters_witness :
  let st := stateOfRooms (exampleRegistry 3) in
  let q := {| Query.gameType := JStr "rockpaperscissors"; Query.status := JStr "waiting";
              Query.search := JStr "ROOM-1"; Query.minWager := JUndef;
              Query.maxWager := JUndef; Query.sort := JUndef; Query.offset := JUndef;
              Query.limit := JUndef; Query.includePrivate := JUndef |} in
  let room := snd (exampleRoom "room-1" 1001 JNull 0) in
  pageOf (fst (get_announce exampleStringToNumber 600 q 2000 st)) = [room] /\
  Room.public room <> JBool false /\
  Room.gameType room = JStr "rockpaperscissors" /\
  Room.status room = JStr "waiting".
Proof.
  intros st q room.
  destruct (@listing_respects_filters exampleStringToNumber 600 q 2000 st room)
    as (Hpublic & Hgame & Hstatus & _).
  - left. reflexivity.
  - split; [reflexivity|]. split; [apply Hpublic; discriminate|].
    split; [apply Hgame; [reflexivity|discriminate]|apply Hstatus; [reflexivity|discriminate]].
Defined.

(** X14 on the query [?maxWager=0]. *)
Lemma zero_max_wager_is_no_bound_witness :
  let st := stateOfRooms [exampleRoom "r1" 1000 JNull 500] in
  get_announce exampleStringToNumber 600 (withMaxWager (JStr "0") emptyQuery) 2000 st
  = get_announce exampleStringToNumber 600
      (withMaxWager JUndef (withMaxWager (JStr "0") emptyQuery)) 2000 st.
Proof.
  intros st.
  apply (@zero_max_wager_is_no_bound exampleStringToNumber 600
           (withMaxWager (JStr "0") emptyQuery) 2000 st).
  reflexivity.
Defined.

(** X15 on the room r1, announced at 2000: kept by the sweep at 602000,
    removed by the sweep at 602001. *)
Lemma announcement_keeps_room_alive_witness :
  let st := stateOfRooms [exampleRoom "r1" 1000 (JStr "pk1") 0] in
  let data := exampleData "r1" "active" JUndef JUndef in
  let room := updateRoom (snd (exampleRoom "r1" 1000 (JStr "pk1") 0)) data 2000 in
  let st1 := snd (post_announce exampleURLCheck exampleStringToNumber data 2000 st) in
  JsMap.get (JStr "r1") (rooms (roomCleanupInterval exampleStringToNumber 600 602000 st1))
  = Some room /\
  JsMap.get (JStr "r1") (rooms (roomCleanupInterval exampleStringToNumber 600 602001 st1))
  = None.
Proof.
  intros st data room st1.
  destruct (@announcement_keeps_room_alive exampleURLCheck exampleStringToNumber 600
              data 2000 602000 st room emptyQuery)
    as (_ & _ & Hkept & _).
  - apply distinct_NoDup. reflexivity.
  - discriminate.
  - discriminate.
  - reflexivity.
  - reflexivity.
  - destruct (@announcement_keeps_room_alive exampleURLCheck exampleStringToNumber 600
                data 2000 602001 st room emptyQuery)
      as (_ & _ & Hgone & _).
    + apply distinct_NoDup. reflexivity.
    + discriminate.
    + discriminate.
    + reflexivity.
    + reflexivity.
    + split; [exact Hkept|exact Hgone].
Defined.

(** X16 on the nonce of an announcement made at 1000. *)
Lemma nonces_are_forgotten_witness :
  let nonce := JStr "nonce-1" in
  let ops := [OpPostAnnounce "203.0.113.7" (exampleData "r1" "waiting" JUndef nonce) 1000] in
  let st := runOps exampleURLCheck exampleStringToNumber 600 120 20 10 300000 false
              ops initialState in
  exists due,
    In (due, nonce) (nonceTimers st) /\
    forall now now',
      due <= now ->
      setHas nonce (usedNonces (runNonceTimers now st)) = false /\
      fst (checkNonce nonce now' (runNonceTimers now st)) = [].
Proof.
  intros nonce ops st.
  apply (@nonces_are_forgotten exampleURLCheck exampleStringToNumber
           600 120 20 10 300000 false ops nonce).
  reflexivity.
Defined.

(** X17 on the room that an announcement has created. *)
Lemma registry_holds_valid_rooms_witness :
  let data := exampleData "r1" "waiting" JUndef JUndef in
  storedValid exampleURLCheck exampleStringToNumber (JStr "r1", newRoom data 1000).
Proof.
  intros data.
  apply (@registry_holds_valid_rooms exampleURLCheck exampleStringToNumber
           600 120 20 10 300000 false
           [OpPostAnnounce "203.0.113.7" data 1000] (JStr "r1", newRoom data 1000)).
  left. reflexivity.
Defined.

(** X19 on five rooms and the query without parameters: newest first. *)
Lemma listing_is_ordered_witness :
  let st := stateOfRooms (exampleRegistry 5) in
  StronglySorted
    (fun a b => createdAtValue exampleStringToNumber b
                <= createdAtValue exampleStringToNumber a)
    (pageOf (fst (get_announce exampleStringToNumber 600 emptyQuery 2000 st))).
Proof.
  intros st.
  destruct (@listing_is_ordered exampleStringToNumber 600 emptyQuery 2000 st)
    as (_ & _ & _ & Hnewest).
  - intros room Hin.
    repeat (destruct Hin as [<-|Hin]; [split; discriminate|]). destruct Hin.
  - apply Hnewest; discriminate.
Defined.


(** X3 on the statistics and the listing of three rooms, read twice. *)
Lemma reads_are_repeatable_witness :
  let ip := "203.0.113.7" in
  let st := stateOfRooms (exampleRegistry 3) in
  let first := route_get_announce exampleStringToNumber 600 120 20 10 300000 false
                 ip emptyQuery 601002 st in
  let again := route_get_announce exampleStringToNumber 600 120 20 10 300000 false
                 ip emptyQuery 601002 (snd first) in
  fst again = fst first /\ rooms (snd again) = rooms (snd first).
Proof.
  intros ip st first again.
  destruct (@reads_are_repeatable exampleStringToNumber 600 120 20 10 300000 false
              ip emptyQuery 601002 st) as [Hlist _].
  - reflexivity.
  - apply Hlist. reflexivity.
Defined.

(** X12 on the registry that one announcement leaves. *)
Lemma listing_never_fails_witness :
  let ops := [OpPostAnnounce "203.0.113.7" (exampleData "r1" "waiting" JUndef JUndef) 1000] in
  fst (route_get_announce exampleStringToNumber 600 120 20 10 300000 false
         "203.0.113.8" (pageQuery "0" "0") 2000
         (runOps exampleURLCheck exampleStringToNumber 600 120 20 10 300000 false
            ops initialState))
  = Resp400 ["Invalid limit (must be between 1 and 200)"].
Proof.
  intros ops.
  destruct (@listing_never_fails exampleURLCheck exampleStringToNumber
              600 120 20 10 300000 false ops "203.0.113.8" (pageQuery "0" "0") 2000)
    as (_ & Hbad & _).
  - intros room Hin. destruct Hin as [<-|[]]. split; discriminate.
  - reflexivity.
Defined.

(** X22 on the update of the room r1, sent at 2000 and again at 3000. *)
Lemma repeated_update_is_absorbed_witness :
  let ip := "203.0.113.7" in
  let st := stateOfRooms [exampleRoom "r1" 1000 (JStr "pk1") 0] in
  let data := exampleData "r1" "active" JUndef JUndef in
  let first := route_post_announce exampleURLCheck exampleStringToNumber
                 120 20 10 300000 false ip data 2000 st in
  let again := route_post_announce exampleURLCheck exampleStringToNumber
                 120 20 10 300000 false ip data 3000 (snd first) in
  let alone := route_post_announce exampleURLCheck exampleStringToNumber
                 120 20 10 300000 false ip data 3000 st in
  fst again = fst alone /\
  fst alone = RespRoom (updateRoom (snd (exampleRoom "r1" 1000 (JStr "pk1") 0)) data 3000) /\
  rooms (snd again) = rooms (snd alone) /\
  usedNonces (snd again) = usedNonces (snd alone).
Proof.
  intros ip st data.
  apply (@repeated_update_is_absorbed exampleURLCheck exampleStringToNumber
           120 20 10 300000 false
           ip data 2000 3000 st (snd (exampleRoom "r1" 1000 (JStr "pk1") 0))).
  - reflexivity.
  - reflexivity.
  - reflexivity.
  - reflexivity.
  - reflexivity.
  - reflexivity.
  - reflexivity.
  - reflexivity.
Defined.

(** X23 on the search text Room-1. *)
Lemma search_ignores_case_witness :
  let st := stateOfRooms (exampleRegistry 3) in
  get_announce exampleStringToNumber 600 (withSearch (JStr "room-1") emptyQuery) 2000 st
  = get_announce exampleStringToNumber 600 (withSearch (JStr "Room-1") emptyQuery) 2000 st.
Proof.
  intros st.
  apply (@search_ignores_case exampleStringToNumber 600 120 20 10 300000 false
           "203.0.113.7" emptyQuery "Room-1" 2000 st).
  reflexivity.
Defined.

(** X24 on the room r2, announced at 2000 beside r1 and listed at 3000 by
    the query [?offset=0&limit=200]. *)
Lemma announced_room_is_listed_witness :
  let st := stateOfRooms [exampleRoom "r1" 1000 (JStr "pk1") 0] in
  let data := exampleData "r2" "waiting" JUndef JUndef in
  In (newRoom data 2000)
     (pageOf (fst (route_get_announce exampleStringToNumber 600 120 20 10 300000 false
                     "203.0.113.8" (pageQuery "0" "200") 3000
                     (snd (route_post_announce exampleURLCheck exampleStringToNumber
                             120 20 10 300000 false "203.0.113.7" data 2000 st))))).
Proof.
  intros st data.
  apply (@announced_room_is_listed exampleURLCheck exampleStringToNumber
           600 120 20 10 300000 false
           "203.0.113.7" "203.0.113.8" data 2000 3000 st (newRoom data 2000)
           (pageQuery "0" "200") 0).
  - apply distinct_NoDup. reflexivity.
  - discriminate.
  - discriminate.
  - reflexivity.
  - intros r Hin. repeat (destruct Hin as [<-|Hin]; [split; discriminate|]). destruct Hin.
  - discriminate.
  - reflexivity.
  - discriminate.
  - discriminate.
  - reflexivity.
  - repeat split.
  - reflexivity.
  - discriminate.
  - reflexivity.
Defined.

